(** * Live interview client: the real-time streaming session manager

    A shallow embedding of the session manager of the interview web client
    (the [App] component) and of its codec helpers, followed by the
    properties of the specification that concern it and by further
    properties of the code: the transport and the resampling of audio, the
    invariants of a session, the life of a connection and of its resume
    handle, the forms and the transcript.

    The repository carries two copies of the [App] component:
    - the current one (job/resume management, context upload, session
      expiry), embedded in module [App];
    - an earlier one, kept next to the WebRTC hook, embedded in module
      [LegacyApp].
    Their codec, playback scheduler, connection code and most of the message
    dispatcher are textually identical and are embedded once; the transcript
    aggregation and the dispatcher's list of cases differ and are embedded
    per copy.

    Conventions of the embedding:
    - JavaScript numbers that hold counters, delays and identifiers are
      integers ([Z]); audio samples, clock readings and sample rates are
      rationals ([Q]).  Float32 samples are dyadic rationals and every
      arithmetic step of the codec (scaling by 32767 or 32768, division by
      32768) is exact on them in double precision, so the rational model
      computes the very values the code computes;
    - React state and refs are fields of one record ([Core.State], extended
      by each copy); a state setter takes effect when it is called (an
      updater is applied as soon as it is queued); a state read made inside
      a memoised callback sees the value of the render that created the
      callback, and is therefore an explicit argument ([Captured]) of the
      embedded callback;
    - host readings (the audio clock, the device rate, [Date.now()], the
      outcome of device acquisition) are arguments of the event that reads
      them;
    - a handler is one step: the interleavings that the [await]s inside a
      handler allow are not part of the embedding, and the sums of clock
      readings and durations are exact (the rounding of double precision is
      not modelled). *)

From Stdlib Require Import ZArith QArith Qabs List String Ascii Bool Lia Lqa.
From Stdlib Require Import DecimalString Qround.
Import ListNotations.

Local Open Scope Z_scope.

(** ** Codec *)

Module Codec.

(** [Math.max] and [Math.min] on (non-NaN) numbers. *)
Definition Math_max (a b : Q) : Q := if Qle_bool a b then b else a.
Definition Math_min (a b : Q) : Q := if Qle_bool a b then a else b.

(** The comparison [a < b]. *)
Definition Qlt_bool (a b : Q) : bool := negb (Qle_bool b a).

(** Truncation toward zero, the integer conversion applied by a typed-array
    store. *)
Definition trunc (r : Q) : Z := Z.quot (Qnum r) (Zpos (Qden r)).

(** Storing a number into an [Int16Array] element: truncate, then wrap
    modulo 2^16 into [-32768, 32767]. *)
Definition ToInt16 (r : Q) : Z := (trunc r + 32768) mod 65536 - 32768.

(** Storing into a [Uint8Array] element. *)
Definition ToUint8 (z : Z) : Z := z mod 256.

(** <<
    const s = Math.max(-1, Math.min(1, float32[i]));
    int16[i] = s < 0 ? s * 0x8000 : s * 0x7fff;
    >> *)
Definition floatTo16BitPCM_sample (x : Q) : Z :=
  let s := Math_max (-1) (Math_min 1 x) in
  ToInt16 (if Qlt_bool s 0 then s * 32768 else s * 32767)%Q.

Definition floatTo16BitPCM (float32 : list Q) : list Z :=
  map floatTo16BitPCM_sample float32.

(** << float32[i] = int16[i] / 0x8000; >> *)
Definition int16ToFloat32 (int16 : list Z) : list Q :=
  map (fun v => inject_Z v / 32768)%Q int16.

(** Element 0 of the round trip of a one-sample buffer (a typed array read
    out of range would be [undefined]; the buffer here has one element). *)
Definition roundtrip (x : Q) : Q :=
  nth 0 (int16ToFloat32 (floatTo16BitPCM [x])) 0%Q.

End Codec.

(** ** Strings

    A character of a Rocq string stands for a UTF-16 code unit below 256. *)

Module Str.

Local Open Scope string_scope.
Local Open Scope Z_scope.

Definition code (c : ascii) : Z := Z.of_nat (nat_of_ascii c).

(** White space and line terminators stripped by [String.prototype.trim]
    (tab, LF, VT, FF, CR, space, no-break space). *)
Definition is_white (c : ascii) : bool :=
  let n := code c in
  ((9 <=? n) && (n <=? 13)) || (n =? 32) || (n =? 160).

Fixpoint trimStart (s : string) : string :=
  match s with
  | String c rest => if is_white c then trimStart rest else s
  | EmptyString => EmptyString
  end.

Fixpoint trimEnd (s : string) : string :=
  match s with
  | String c rest =>
      match trimEnd rest with
      | EmptyString => if is_white c then EmptyString else String c EmptyString
      | r => String c r
      end
  | EmptyString => EmptyString
  end.

Definition trim (s : string) : string := trimEnd (trimStart s).

(** [Array.prototype.join] on an array of strings. *)
Fixpoint join (sep : string) (l : list string) : string :=
  match l with
  | [] => EmptyString
  | [x] => x
  | x :: rest => x ++ sep ++ join sep rest
  end.

(** Truthiness of a string: non-empty. *)
Definition truthy (s : string) : bool := negb (s =? EmptyString)%string.

End Str.

(** ** Parsed JSON values

    The value returned by [JSON.parse]; [undefined] (a missing property) is
    [None] of [option json].  Numbers are the finite numbers.  The fields of
    an object are listed in its property enumeration order, each key once. *)

Module Json.

Local Open Scope string_scope.
Local Open Scope Z_scope.

#[local] Set Warnings "-register-all".

Inductive json : Type :=
| JNull
| JBool (b : bool)
| JNum (n : Q)
| JStr (s : string)
| JArr (elems : list json)
| JObj (fields : list (string * json)).

Fixpoint assoc (k : string) (fields : list (string * json)) : option json :=
  match fields with
  | [] => None
  | (k', v) :: rest => if (k' =? k)%string then Some v else assoc k rest
  end.

(** Property read [v.k] on a value that is not [null]: only objects parsed
    from JSON carry named properties. *)
Definition get (k : string) (v : json) : option json :=
  match v with
  | JObj fields => assoc k fields
  | _ => None
  end.

(** [!!v] *)
Definition truthy (v : option json) : bool :=
  match v with
  | None | Some JNull => false
  | Some (JBool b) => b
  | Some (JNum n) => negb (Qeq_bool n 0)
  | Some (JStr s) => Str.truthy s
  | Some (JArr _) | Some (JObj _) => true
  end.

(** [typeof v === "string" ? v : undefined] and its analogue for numbers. *)
Definition as_string (v : option json) : option string :=
  match v with Some (JStr s) => Some s | _ => None end.

Definition as_number (v : option json) : option Q :=
  match v with Some (JNum n) => Some n | _ => None end.

(** [typeof v === "object"] (true of [null], of arrays and of objects). *)
Definition is_object (v : json) : bool :=
  match v with JNull | JArr _ | JObj _ => true | _ => false end.

(** [Array.isArray(v) ? v : undefined] *)
Definition as_array (v : option json) : option (list json) :=
  match v with Some (JArr l) => Some l | _ => None end.

(** [k in v] for a non-null object value. *)
Definition has (k : string) (v : json) : bool :=
  match get k v with Some _ => true | None => false end.

Definition hex_digit (n : Z) : ascii :=
  ascii_of_nat (Z.to_nat (if n <? 10 then 48 + n else 87 + n)).

(** The escape of one character inside a JSON string literal. *)
Definition escape_char (c : ascii) : string :=
  let n := Str.code c in
  if n =? 34 then "\" ++ String c EmptyString
  else if n =? 92 then "\\"
  else if n =? 8 then "\b"
  else if n =? 12 then "\f"
  else if n =? 10 then "\n"
  else if n =? 13 then "\r"
  else if n =? 9 then "\t"
  else if n <? 32 then
    "\u00" ++ String (hex_digit (n / 16)) (String (hex_digit (n mod 16)) EmptyString)
  else String c EmptyString.

Fixpoint escape (s : string) : string :=
  match s with
  | EmptyString => EmptyString
  | String c rest => escape_char c ++ escape rest
  end.

Definition quote (s : string) : string :=
  String (ascii_of_nat 34) (escape s ++ String (ascii_of_nat 34) EmptyString).

Section Printing.

(** [Number.prototype.toString] of the host, for finite numbers. *)
Variable Number_toString : Q -> string.

(** [String(v)] *)
Fixpoint String_ (v : json) : string :=
  match v with
  | JNull => "null"
  | JBool true => "true"
  | JBool false => "false"
  | JNum n => Number_toString n
  | JStr s => s
  | JArr elems =>
      Str.join ","
        (map (fun e => match e with JNull => EmptyString | _ => String_ e end) elems)
  | JObj _ => "[object Object]"
  end.

(** [JSON.stringify(v)] *)
Fixpoint JSON_stringify (v : json) : string :=
  match v with
  | JNull => "null"
  | JBool true => "true"
  | JBool false => "false"
  | JNum n => Number_toString n
  | JStr s => quote s
  | JArr elems => "[" ++ Str.join "," (map JSON_stringify elems) ++ "]"
  | JObj fields =>
      "{" ++ Str.join ","
               (map (fun kv => quote (fst kv) ++ ":" ++ JSON_stringify (snd kv))
                    fields) ++ "}"
  end.

End Printing.

End Json.

(** ** Transport encoding of audio frames *)

Module Base64.

Definition is_ascii_whitespace (c : ascii) : bool :=
  let n := Str.code c in
  (n =? 9) || (n =? 10) || (n =? 12) || (n =? 13) || (n =? 32).

Fixpoint strip_whitespace (s : string) : list ascii :=
  match s with
  | EmptyString => []
  | String c rest =>
      if is_ascii_whitespace c then strip_whitespace rest
      else c :: strip_whitespace rest
  end.

Definition is_pad (c : ascii) : bool := Str.code c =? 61.

(** Removes one or two trailing [=] of data whose length is a multiple of
    four. *)
Definition strip_padding (data : list ascii) : list ascii :=
  if Z.of_nat (List.length data) mod 4 =? 0 then
    match rev data with
    | p1 :: p2 :: rest =>
        if is_pad p1 then (if is_pad p2 then rev rest else rev (p2 :: rest))
        else data
    | _ => data
    end
  else data.

(** The six-bit value of a character of the base64 alphabet. *)
Definition sextet (c : ascii) : option Z :=
  let n := Str.code c in
  if (65 <=? n) && (n <=? 90) then Some (n - 65)
  else if (97 <=? n) && (n <=? 122) then Some (n - 71)
  else if (48 <=? n) && (n <=? 57) then Some (n + 4)
  else if n =? 43 then Some 62
  else if n =? 47 then Some 63
  else None.

Fixpoint sextets (data : list ascii) : option (list Z) :=
  match data with
  | [] => Some []
  | c :: rest =>
      match sextet c, sextets rest with
      | Some v, Some vs => Some (v :: vs)
      | _, _ => None
      end
  end.

Fixpoint decode_groups (vs : list Z) : list Z :=
  match vs with
  | a :: b :: c :: d :: rest =>
      let n := Z.lor (Z.lor (Z.shiftl a 18) (Z.shiftl b 12))
                     (Z.lor (Z.shiftl c 6) d) in
      Z.land (Z.shiftr n 16) 255 :: Z.land (Z.shiftr n 8) 255
        :: Z.land n 255 :: decode_groups rest
  | [a; b; c] =>
      let n := Z.shiftr (Z.lor (Z.lor (Z.shiftl a 12) (Z.shiftl b 6)) c) 2 in
      [Z.land (Z.shiftr n 8) 255; Z.land n 255]
  | [a; b] =>
      let n := Z.shiftr (Z.lor (Z.shiftl a 6) b) 4 in
      [Z.land n 255]
  | _ => []
  end.

(** [atob]: the forgiving base64 decoding of the host; [None] when it throws
    (a length that is 1 modulo 4 or a character outside the alphabet).  The
    result is the list of the character codes of the binary string. *)
Definition atob (base64 : string) : option (list Z) :=
  let data := strip_padding (strip_whitespace base64) in
  if Z.of_nat (List.length data) mod 4 =? 1 then None
  else option_map decode_groups (sextets data).

(** <<
    const binary = atob(base64);
    for (...) bytes[i] = binary.charCodeAt(i);
    >> *)
Definition base64ToUint8Array (base64 : string) : option (list Z) :=
  option_map (map Codec.ToUint8) (atob base64).

(** [new Int16Array(buffer)] over a buffer of even length: little-endian
    two's-complement pairs. *)
Fixpoint Int16Array_of_bytes (bytes : list Z) : list Z :=
  match bytes with
  | lo :: hi :: rest =>
      let u := lo + 256 * hi in
      (if u <? 32768 then u else u - 65536) :: Int16Array_of_bytes rest
  | _ => []
  end.

End Base64.

(** ** The session: state shared by the two copies of the component *)

Module Core.

Import Json.
Local Open Scope string_scope.
Local Open Scope Z_scope.

Inductive Status : Type := disconnected | connecting | connected | error.

Inductive Role : Type := system | user | assistant.

Definition Role_eqb (a b : Role) : bool :=
  match a, b with
  | system, system | user, user | assistant, assistant => true
  | _, _ => false
  end.

(** The string a role is on the wire and in the component. *)
Definition Role_name (r : Role) : string :=
  match r with
  | system => "system"
  | user => "user"
  | assistant => "assistant"
  end.

Record ChatMessage : Type := {
  msg_id : Z;
  msg_role : Role;
  msg_text : string
}.

Record Transcript : Type := {
  t_id : Z;
  t_role : Role;
  t_text : string;
  t_timestamp : Z
}.

Record ServerInfo : Type := {
  sendSampleRate : option Q;
  receiveSampleRate : option Q
}.


(** *** The channel *)

Inductive ReadyState : Type := CONNECTING | OPEN | CLOSING | CLOSED.

(** The address a socket is opened at.  The text of the URL is assembled by
    the host's [URL] class; the embedding keeps its two components, the base
    address and the [resume] query parameter. *)
Record ConnectionUrl : Type := {
  baseUrl : string;
  resume : option string
}.

(** A socket together with what its handlers captured ([isReconnect], the
    argument of the [connect] call that created it) and with what was done
    to it (the envelopes sent, the arguments of [close]). *)
Record WebSocket : Type := {
  url : ConnectionUrl;
  isReconnect : bool;
  readyState : ReadyState;
  sent : list json;
  closeArgs : option (option (Z * string))
}.

Definition WebSocket_new (u : ConnectionUrl) (reconnect : bool) : WebSocket :=
  {| url := u; isReconnect := reconnect; readyState := CONNECTING;
     sent := []; closeArgs := None |}.

Definition is_open (ws : WebSocket) : bool :=
  match readyState ws with OPEN => true | _ => false end.

(** [ws.send(JSON.stringify(payload))] on an open socket. *)
Definition WebSocket_send (payload : json) (ws : WebSocket) : WebSocket :=
  {| url := url ws; isReconnect := isReconnect ws;
     readyState := readyState ws; sent := (sent ws ++ [payload])%list;
     closeArgs := closeArgs ws |}.

(** [ws.close(code, reason)]: starts the closing handshake unless the socket
    is closing or closed already. *)
Definition WebSocket_close (args : option (Z * string)) (ws : WebSocket)
  : WebSocket :=
  match readyState ws with
  | CLOSING | CLOSED => ws
  | CONNECTING | OPEN =>
      {| url := url ws; isReconnect := isReconnect ws; readyState := CLOSING;
         sent := sent ws; closeArgs := Some args |}
  end.

Definition WebSocket_opened (ws : WebSocket) : WebSocket :=
  {| url := url ws; isReconnect := isReconnect ws; readyState := OPEN;
     sent := sent ws; closeArgs := closeArgs ws |}.

(** *** Audio output *)

(** A buffer source started on the audio context. *)
Record Source : Type := {
  src_samples : list Q;
  src_sampleRate : Q;
  src_startAt : Q
}.

(** [audioBuffer.duration] *)
Definition duration (samples : list Q) (sampleRate : Q) : Q :=
  (inject_Z (Z.of_nat (List.length samples)) / sampleRate)%Q.

Definition src_duration (s : Source) : Q :=
  duration (src_samples s) (src_sampleRate s).

Record AudioContext : Type := {
  started : list Source
}.

Record Timer : Type := {
  timer_id : Z;
  timer_delay : Z
}.

(** What the host hands to a callback: its readings of the audio clock
    ([ctx.currentTime], in seconds), of the device rate ([ctx.sampleRate]),
    of the wall clock ([Date.now()]), and its number formatting. *)
Record Host : Type := {
  currentTime : Q;
  deviceSampleRate : Q;
  Date_now : Z;
  Number_toString : Q -> string
}.

Record State : Type := mkState {
  (* React state *)
  status : Status;
  wsUrl : string;
  messages : list ChatMessage;
  warningCount : Q;
  remainingWarnings : option Q;
  serverInfo : option ServerInfo;
  cameraEnabled : bool;
  resumeHandle : option string;
  (* refs *)
  websocketRef : option WebSocket;
  audioContextRef : option AudioContext;
  micStreamRef : bool;
  videoStreamRef : bool;
  playbackTimeRef : Q;
  messageIdRef : Z;
  resumeHandleRef : option string;
  manualDisconnectRef : bool;
  reconnectTimeoutRef : option Z;
  reconnectAttemptsRef : Z;
  connectionAttemptRef : bool;
  (* host: the localStorage item and the pending timeouts *)
  storedResumeHandle : option string;
  timers : list Timer;
  nextTimerId : Z
}.

(** Field updates ([ref.current = v] and the state setters). *)
Definition set_status (v : Status) (st : State) : State :=
  mkState v (wsUrl st) (messages st) (warningCount st) (remainingWarnings
    st) (serverInfo st) (cameraEnabled st) (resumeHandle st) (websocketRef
    st) (audioContextRef st) (micStreamRef st) (videoStreamRef st)
    (playbackTimeRef st) (messageIdRef st) (resumeHandleRef st)
    (manualDisconnectRef st) (reconnectTimeoutRef st)
    (reconnectAttemptsRef st) (connectionAttemptRef st)
    (storedResumeHandle st) (timers st) (nextTimerId st).
Definition set_wsUrl (v : string) (st : State) : State :=
  mkState (status st) v (messages st) (warningCount st) (remainingWarnings
    st) (serverInfo st) (cameraEnabled st) (resumeHandle st) (websocketRef
    st) (audioContextRef st) (micStreamRef st) (videoStreamRef st)
    (playbackTimeRef st) (messageIdRef st) (resumeHandleRef st)
    (manualDisconnectRef st) (reconnectTimeoutRef st)
    (reconnectAttemptsRef st) (connectionAttemptRef st)
    (storedResumeHandle st) (timers st) (nextTimerId st).
Definition set_messages (v : list ChatMessage) (st : State) : State :=
  mkState (status st) (wsUrl st) v (warningCount st) (remainingWarnings
    st) (serverInfo st) (cameraEnabled st) (resumeHandle st) (websocketRef
    st) (audioContextRef st) (micStreamRef st) (videoStreamRef st)
    (playbackTimeRef st) (messageIdRef st) (resumeHandleRef st)
    (manualDisconnectRef st) (reconnectTimeoutRef st)
    (reconnectAttemptsRef st) (connectionAttemptRef st)
    (storedResumeHandle st) (timers st) (nextTimerId st).
Definition set_warningCount (v : Q) (st : State) : State :=
  mkState (status st) (wsUrl st) (messages st) v (remainingWarnings st)
    (serverInfo st) (cameraEnabled st) (resumeHandle st) (websocketRef st)
    (audioContextRef st) (micStreamRef st) (videoStreamRef st)
    (playbackTimeRef st) (messageIdRef st) (resumeHandleRef st)
    (manualDisconnectRef st) (reconnectTimeoutRef st)
    (reconnectAttemptsRef st) (connectionAttemptRef st)
    (storedResumeHandle st) (timers st) (nextTimerId st).
Definition set_remainingWarnings (v : option Q) (st : State) : State :=
  mkState (status st) (wsUrl st) (messages st) (warningCount st) v
    (serverInfo st) (cameraEnabled st) (resumeHandle st) (websocketRef st)
    (audioContextRef st) (micStreamRef st) (videoStreamRef st)
    (playbackTimeRef st) (messageIdRef st) (resumeHandleRef st)
    (manualDisconnectRef st) (reconnectTimeoutRef st)
    (reconnectAttemptsRef st) (connectionAttemptRef st)
    (storedResumeHandle st) (timers st) (nextTimerId st).
Definition set_serverInfo (v : option ServerInfo) (st : State) : State :=
  mkState (status st) (wsUrl st) (messages st) (warningCount st)
    (remainingWarnings st) v (cameraEnabled st) (resumeHandle st)
    (websocketRef st) (audioContextRef st) (micStreamRef st)
    (videoStreamRef st) (playbackTimeRef st) (messageIdRef st)
    (resumeHandleRef st) (manualDisconnectRef st) (reconnectTimeoutRef st)
    (reconnectAttemptsRef st) (connectionAttemptRef st)
    (storedResumeHandle st) (timers st) (nextTimerId st).
Definition set_cameraEnabled (v : bool) (st : State) : State :=
  mkState (status st) (wsUrl st) (messages st) (warningCount st)
    (remainingWarnings st) (serverInfo st) v (resumeHandle st)
    (websocketRef st) (audioContextRef st) (micStreamRef st)
    (videoStreamRef st) (playbackTimeRef st) (messageIdRef st)
    (resumeHandleRef st) (manualDisconnectRef st) (reconnectTimeoutRef st)
    (reconnectAttemptsRef st) (connectionAttemptRef st)
    (storedResumeHandle st) (timers st) (nextTimerId st).
Definition set_resumeHandle (v : option string) (st : State) : State :=
  mkState (status st) (wsUrl st) (messages st) (warningCount st)
    (remainingWarnings st) (serverInfo st) (cameraEnabled st) v
    (websocketRef st) (audioContextRef st) (micStreamRef st)
    (videoStreamRef st) (playbackTimeRef st) (messageIdRef st)
    (resumeHandleRef st) (manualDisconnectRef st) (reconnectTimeoutRef st)
    (reconnectAttemptsRef st) (connectionAttemptRef st)
    (storedResumeHandle st) (timers st) (nextTimerId st).
Definition set_websocketRef (v : option WebSocket) (st : State) : State :=
  mkState (status st) (wsUrl st) (messages st) (warningCount st)
    (remainingWarnings st) (serverInfo st) (cameraEnabled st)
    (resumeHandle st) v (audioContextRef st) (micStreamRef st)
    (videoStreamRef st) (playbackTimeRef st) (messageIdRef st)
    (resumeHandleRef st) (manualDisconnectRef st) (reconnectTimeoutRef st)
    (reconnectAttemptsRef st) (connectionAttemptRef st)
    (storedResumeHandle st) (timers st) (nextTimerId st).
Definition set_audioContextRef (v : option AudioContext) (st : State) : State :=
  mkState (status st) (wsUrl st) (messages st) (warningCount st)
    (remainingWarnings st) (serverInfo st) (cameraEnabled st)
    (resumeHandle st) (websocketRef st) v (micStreamRef st)
    (videoStreamRef st) (playbackTimeRef st) (messageIdRef st)
    (resumeHandleRef st) (manualDisconnectRef st) (reconnectTimeoutRef st)
    (reconnectAttemptsRef st) (connectionAttemptRef st)
    (storedResumeHandle st) (timers st) (nextTimerId st).
Definition set_micStreamRef (v : bool) (st : State) : State :=
  mkState (status st) (wsUrl st) (messages st) (warningCount st)
    (remainingWarnings st) (serverInfo st) (cameraEnabled st)
    (resumeHandle st) (websocketRef st) (audioContextRef st) v
    (videoStreamRef st) (playbackTimeRef st) (messageIdRef st)
    (resumeHandleRef st) (manualDisconnectRef st) (reconnectTimeoutRef st)
    (reconnectAttemptsRef st) (connectionAttemptRef st)
    (storedResumeHandle st) (timers st) (nextTimerId st).
Definition set_videoStreamRef (v : bool) (st : State) : State :=
  mkState (status st) (wsUrl st) (messages st) (warningCount st)
    (remainingWarnings st) (serverInfo st) (cameraEnabled st)
    (resumeHandle st) (websocketRef st) (audioContextRef st) (micStreamRef
    st) v (playbackTimeRef st) (messageIdRef st) (resumeHandleRef st)
    (manualDisconnectRef st) (reconnectTimeoutRef st)
    (reconnectAttemptsRef st) (connectionAttemptRef st)
    (storedResumeHandle st) (timers st) (nextTimerId st).
Definition set_playbackTimeRef (v : Q) (st : State) : State :=
  mkState (status st) (wsUrl st) (messages st) (warningCount st)
    (remainingWarnings st) (serverInfo st) (cameraEnabled st)
    (resumeHandle st) (websocketRef st) (audioContextRef st) (micStreamRef
    st) (videoStreamRef st) v (messageIdRef st) (resumeHandleRef st)
    (manualDisconnectRef st) (reconnectTimeoutRef st)
    (reconnectAttemptsRef st) (connectionAttemptRef st)
    (storedResumeHandle st) (timers st) (nextTimerId st).
Definition set_messageIdRef (v : Z) (st : State) : State :=
  mkState (status st) (wsUrl st) (messages st) (warningCount st)
    (remainingWarnings st) (serverInfo st) (cameraEnabled st)
    (resumeHandle st) (websocketRef st) (audioContextRef st) (micStreamRef
    st) (videoStreamRef st) (playbackTimeRef st) v (resumeHandleRef st)
    (manualDisconnectRef st) (reconnectTimeoutRef st)
    (reconnectAttemptsRef st) (connectionAttemptRef st)
    (storedResumeHandle st) (timers st) (nextTimerId st).
Definition set_resumeHandleRef (v : option string) (st : State) : State :=
  mkState (status st) (wsUrl st) (messages st) (warningCount st)
    (remainingWarnings st) (serverInfo st) (cameraEnabled st)
    (resumeHandle st) (websocketRef st) (audioContextRef st) (micStreamRef
    st) (videoStreamRef st) (playbackTimeRef st) (messageIdRef st) v
    (manualDisconnectRef st) (reconnectTimeoutRef st)
    (reconnectAttemptsRef st) (connectionAttemptRef st)
    (storedResumeHandle st) (timers st) (nextTimerId st).
Definition set_manualDisconnectRef (v : bool) (st : State) : State :=
  mkState (status st) (wsUrl st) (messages st) (warningCount st)
    (remainingWarnings st) (serverInfo st) (cameraEnabled st)
    (resumeHandle st) (websocketRef st) (audioContextRef st) (micStreamRef
    st) (videoStreamRef st) (playbackTimeRef st) (messageIdRef st)
    (resumeHandleRef st) v (reconnectTimeoutRef st) (reconnectAttemptsRef
    st) (connectionAttemptRef st) (storedResumeHandle st) (timers st)
    (nextTimerId st).
Definition set_reconnectTimeoutRef (v : option Z) (st : State) : State :=
  mkState (status st) (wsUrl st) (messages st) (warningCount st)
    (remainingWarnings st) (serverInfo st) (cameraEnabled st)
    (resumeHandle st) (websocketRef st) (audioContextRef st) (micStreamRef
    st) (videoStreamRef st) (playbackTimeRef st) (messageIdRef st)
    (resumeHandleRef st) (manualDisconnectRef st) v (reconnectAttemptsRef
    st) (connectionAttemptRef st) (storedResumeHandle st) (timers st)
    (nextTimerId st).
Definition set_reconnectAttemptsRef (v : Z) (st : State) : State :=
  mkState (status st) (wsUrl st) (messages st) (warningCount st)
    (remainingWarnings st) (serverInfo st) (cameraEnabled st)
    (resumeHandle st) (websocketRef st) (audioContextRef st) (micStreamRef
    st) (videoStreamRef st) (playbackTimeRef st) (messageIdRef st)
    (resumeHandleRef st) (manualDisconnectRef st) (reconnectTimeoutRef st)
    v (connectionAttemptRef st) (storedResumeHandle st) (timers st)
    (nextTimerId st).
Definition set_connectionAttemptRef (v : bool) (st : State) : State :=
  mkState (status st) (wsUrl st) (messages st) (warningCount st)
    (remainingWarnings st) (serverInfo st) (cameraEnabled st)
    (resumeHandle st) (websocketRef st) (audioContextRef st) (micStreamRef
    st) (videoStreamRef st) (playbackTimeRef st) (messageIdRef st)
    (resumeHandleRef st) (manualDisconnectRef st) (reconnectTimeoutRef st)
    (reconnectAttemptsRef st) v (storedResumeHandle st) (timers st)
    (nextTimerId st).
Definition set_storedResumeHandle (v : option string) (st : State) : State :=
  mkState (status st) (wsUrl st) (messages st) (warningCount st)
    (remainingWarnings st) (serverInfo st) (cameraEnabled st)
    (resumeHandle st) (websocketRef st) (audioContextRef st) (micStreamRef
    st) (videoStreamRef st) (playbackTimeRef st) (messageIdRef st)
    (resumeHandleRef st) (manualDisconnectRef st) (reconnectTimeoutRef st)
    (reconnectAttemptsRef st) (connectionAttemptRef st) v (timers st)
    (nextTimerId st).
Definition set_timers (v : list Timer) (st : State) : State :=
  mkState (status st) (wsUrl st) (messages st) (warningCount st)
    (remainingWarnings st) (serverInfo st) (cameraEnabled st)
    (resumeHandle st) (websocketRef st) (audioContextRef st) (micStreamRef
    st) (videoStreamRef st) (playbackTimeRef st) (messageIdRef st)
    (resumeHandleRef st) (manualDisconnectRef st) (reconnectTimeoutRef st)
    (reconnectAttemptsRef st) (connectionAttemptRef st)
    (storedResumeHandle st) v (nextTimerId st).
Definition set_nextTimerId (v : Z) (st : State) : State :=
  mkState (status st) (wsUrl st) (messages st) (warningCount st)
    (remainingWarnings st) (serverInfo st) (cameraEnabled st)
    (resumeHandle st) (websocketRef st) (audioContextRef st) (micStreamRef
    st) (videoStreamRef st) (playbackTimeRef st) (messageIdRef st)
    (resumeHandleRef st) (manualDisconnectRef st) (reconnectTimeoutRef st)
    (reconnectAttemptsRef st) (connectionAttemptRef st)
    (storedResumeHandle st) (timers st) v.

(** The initial render. *)
Definition initial (url0 : string) (stored : option string) : State :=
  {| status := disconnected; wsUrl := url0; messages := [];
     warningCount := 0; remainingWarnings := None; serverInfo := None;
     cameraEnabled := false; resumeHandle := stored;
     websocketRef := None; audioContextRef := None; micStreamRef := false;
     videoStreamRef := false; playbackTimeRef := 0; messageIdRef := 0;
     resumeHandleRef := stored; manualDisconnectRef := false;
     reconnectTimeoutRef := None; reconnectAttemptsRef := 0;
     connectionAttemptRef := false;
     storedResumeHandle := stored; timers := []; nextTimerId := 1 |}.

(** The state values a render hands to the callbacks it creates.  A
    callback keeps the values of the render that created it. *)
Record Captured : Type := {
  c_wsUrl : string;
  c_cameraEnabled : bool;
  c_serverInfo : option ServerInfo;
  c_warningCount : Q
}.

Definition snapshot (st : State) : Captured :=
  {| c_wsUrl := wsUrl st; c_cameraEnabled := cameraEnabled st;
     c_serverInfo := serverInfo st; c_warningCount := warningCount st |}.

(** Truthiness of a handle ([string | null]). *)
Definition handle_truthy (h : option string) : bool :=
  match h with
  | Some s => Str.truthy s
  | None => false
  end.

Definition is_some {A : Type} (o : option A) : bool :=
  match o with Some _ => true | None => false end.

(** <<
    if (!text) return;
    messageIdRef.current += 1;
    setMessages((prev) => [...prev, { id: messageIdRef.current, role, text }]);
    >> *)
Definition appendMessage (role : Role) (text : string) (st : State) : State :=
  if Str.truthy text then
    let st := set_messageIdRef (messageIdRef st + 1) st in
    set_messages
      (messages st ++
       [{| msg_id := messageIdRef st; msg_role := role; msg_text := text |}])%list
      st
  else st.

(** The effect that follows a change of the [resumeHandle] state:
    <<
    resumeHandleRef.current = resumeHandle;
    if (resumeHandle) localStorage.setItem("resumeHandle", resumeHandle);
    else localStorage.removeItem("resumeHandle");
    >> *)
Definition resumeHandle_effect (st : State) : State :=
  let st := set_resumeHandleRef (resumeHandle st) st in
  set_storedResumeHandle
    (if handle_truthy (resumeHandle st) then resumeHandle st else None) st.

Definition clearResumeHandle (st : State) : State :=
  let st := set_resumeHandle None st in
  appendMessage system
    "Stored session handle cleared. Next connection will start a fresh interview."
    st.

(** <<
    const ws = websocketRef.current;
    if (ws && ws.readyState === WebSocket.OPEN) ws.send(JSON.stringify(payload));
    >> *)
Definition baseSend (payload : json) (st : State) : State :=
  match websocketRef st with
  | Some ws =>
      if is_open ws then set_websocketRef (Some (WebSocket_send payload ws)) st
      else st
  | None => st
  end.

(** *** Timers of the host *)

Definition setTimeout (delay : Z) (st : State) : Z * State :=
  let id := nextTimerId st in
  let st := set_timers
              (timers st ++ [{| timer_id := id; timer_delay := delay |}])%list
              st in
  (id, set_nextTimerId (id + 1) st).

Definition clearTimeout (id : Z) (st : State) : State :=
  set_timers (filter (fun t => negb (timer_id t =? id)) (timers st)) st.

(** <<
    if (reconnectTimeoutRef.current !== null) {
      window.clearTimeout(reconnectTimeoutRef.current);
      reconnectTimeoutRef.current = null;
    }
    >> *)
Definition clearReconnectTimeout (st : State) : State :=
  match reconnectTimeoutRef st with
  | Some id => set_reconnectTimeoutRef None (clearTimeout id st)
  | None => st
  end.

(** *** Media *)

(** Creates the audio context when there is none (and resumes it). *)
Definition ensureAudioContext (st : State) : State :=
  match audioContextRef st with
  | Some _ => st
  | None => set_audioContextRef (Some {| started := [] |}) st
  end.

(** Releases the capture graph (processor, gain, source and microphone
    stream are acquired and released together: [micStreamRef] stands for the
    four refs), closes the audio context and resets the play cursor. *)
Definition stopAudioCapture (st : State) : State :=
  let st := set_micStreamRef false st in
  let st := set_audioContextRef None st in
  set_playbackTimeRef 0%Q st.

Definition stopVideoCapture (st : State) : State :=
  set_videoStreamRef false st.

Definition cleanupMedia (st : State) : State :=
  stopVideoCapture (stopAudioCapture st).


(** The rate of the playback buffer:
    << sampleRate ?? serverInfo?.receiveSampleRate ?? ctx.sampleRate >> *)
Definition targetSampleRate (cl : Captured) (host : Host)
  (sampleRate : option Q) : Q :=
  match sampleRate with
  | Some r => r
  | None =>
      match c_serverInfo cl with
      | Some {| receiveSampleRate := Some r |} => r
      | _ => deviceSampleRate host
      end
  end.

(** <<
    const now = ctx.currentTime;
    const startAt = Math.max(now + 0.05, playbackTimeRef.current || now + 0.05);
    >> *)
Definition startAt (now cursor : Q) : Q :=
  Codec.Math_max (now + (1 # 20))
    (if Qeq_bool cursor 0 then now + (1 # 20) else cursor)%Q.

(** [source.start(startAt)] on the current audio context. *)
Definition start_source (s : Source) (st : State) : State :=
  match audioContextRef st with
  | Some ctx =>
      set_audioContextRef (Some {| started := (started ctx ++ [s])%list |}) st
  | None => st
  end.

(** [playAssistantAudio(base64, sampleRate)].  An exception ([atob] on
    malformed text, [createBuffer] on a rate that is not positive) rejects
    the promise of the handler and leaves the state as it is at that point.
    A host also rejects in [createBuffer] the positive rates outside the
    range it supports; the embedding schedules those frames too. *)
Definition playAssistantAudio (cl : Captured) (host : Host)
  (base64 : string) (sampleRate : option Q) (st : State) : State :=
  let st := ensureAudioContext st in
  match Base64.base64ToUint8Array base64 with
  | None => st
  | Some bytes =>
      if negb (Z.of_nat (List.length bytes) mod 2 =? 0) then st
      else
        let pcm := Base64.Int16Array_of_bytes bytes in
        if Z.of_nat (List.length pcm) =? 0 then st
        else
          let floats := Codec.int16ToFloat32 pcm in
          let rate := targetSampleRate cl host sampleRate in
          if Qle_bool rate 0 then st
          else
            let now := currentTime host in
            let start := startAt now (playbackTimeRef st) in
            let st :=
              start_source
                {| src_samples := floats; src_sampleRate := rate;
                   src_startAt := start |} st in
            set_playbackTimeRef (start + duration floats rate)%Q st
  end.

(** *** Connection *)

(** [buildConnectionUrl(baseUrl, resumeHandle)] *)
Definition buildConnectionUrl (base : string) (handle : option string)
  : ConnectionUrl :=
  if handle_truthy handle then {| baseUrl := base; resume := handle |}
  else {| baseUrl := base; resume := None |}.

(** [connect(isReconnect)], up to the creation of the socket; the handlers
    it installs on the socket are [ws_onopen], [ws_onerror], [ws_onclose]
    below and the message handler of each copy of the component. *)
Definition connect (cl : Captured) (reconnect : bool) (st : State) : State :=
  if is_some (websocketRef st) || connectionAttemptRef st then st
  else
    let st := if negb reconnect then clearReconnectTimeout st else st in
    let st := set_connectionAttemptRef true st in
    let st := set_manualDisconnectRef false st in
    let st := if negb reconnect then set_reconnectAttemptsRef 0 st else st in
    let connectionUrl := buildConnectionUrl (c_wsUrl cl) (resumeHandleRef st) in
    let st := set_status connecting st in
    set_websocketRef (Some (WebSocket_new connectionUrl reconnect)) st.

(** [ws.close()] in a handler of the socket [websocketRef] holds. *)
Definition close_socket (args : option (Z * string)) (st : State) : State :=
  match websocketRef st with
  | Some ws => set_websocketRef (Some (WebSocket_close args ws)) st
  | None => st
  end.

(** [ws.onopen].  [contextPayload] is the context envelope the current copy
    of the component sends first (the earlier copy sends none); [audioOk]
    and [videoOk] tell whether the acquisition of the microphone and of the
    camera succeed. *)
Definition ws_onopen (cl : Captured) (contextPayload : option json)
  (audioOk videoOk : bool) (st : State) : State :=
  match websocketRef st with
  | None => st
  | Some ws =>
      let st := set_websocketRef (Some (WebSocket_opened ws)) st in
      let st := match contextPayload with
                | Some payload => baseSend payload st
                | None => st
                end in
      let failed (st : State) : State :=
        let st := set_connectionAttemptRef false st in
        let st := set_status error st in
        close_socket None st in
      (* startAudioCapture *)
      let st := ensureAudioContext st in
      if negb audioOk then failed st
      else
        let st := set_micStreamRef true st in
        let wantVideo := c_cameraEnabled cl && negb (videoStreamRef st) in
        if wantVideo && negb videoOk then failed st
        else
          let st := if wantVideo then set_videoStreamRef true st else st in
          let st := set_reconnectAttemptsRef 0 st in
          let st := set_connectionAttemptRef false st in
          let st := set_status connected st in
          if isReconnect ws then
            appendMessage system
              "Reconnected to interview session using stored handle." st
          else st
  end.

Definition ws_onerror (st : State) : State :=
  let st := set_connectionAttemptRef false st in
  set_status error st.

(** [Math.round(delay / 1000)] *)
Definition round_seconds (delay : Z) : Z := (2 * delay + 1000) / 2000.

(** The delay before reconnection attempt number [attempts]:
    << Math.min(10000, 1000 * 2 ** Math.max(0, attempts - 1)) >> *)
Definition reconnectDelay (attempts : Z) : Z :=
  Z.min 10000 (1000 * 2 ^ Z.max 0 (attempts - 1)).

(** [ws.onclose]: the socket is gone, media are released, and a reconnection
    is scheduled when the closure was not asked for and a handle is known.
    The timeout it schedules runs [connect(true)] (see [timer_fire]). *)
Definition ws_onclose (host : Host) (st : State) : State :=
  let st := set_connectionAttemptRef false st in
  let st := set_websocketRef None st in
  let st := cleanupMedia st in
  let st := clearReconnectTimeout st in
  if negb (manualDisconnectRef st) && handle_truthy (resumeHandleRef st) then
    let st := set_reconnectAttemptsRef (reconnectAttemptsRef st + 1) st in
    if reconnectAttemptsRef st >? 5 then
      let st := set_status error st in
      appendMessage system
        "Reached maximum reconnection attempts. Please reconnect manually." st
    else
      let delay := reconnectDelay (reconnectAttemptsRef st) in
      let st := set_status connecting st in
      let st :=
        appendMessage system
          ("Connection lost. Attempting to resume in "
             ++ Number_toString host (inject_Z (round_seconds delay))
             ++ "s (try "
             ++ Number_toString host (inject_Z (reconnectAttemptsRef st))
             ++ "/5).") st in
      let (id, st) := setTimeout delay st in
      set_reconnectTimeoutRef (Some id) st
  else set_status disconnected st.

(** A pending timeout expires: it leaves the host's list and its callback,
    [connect(true)], runs. *)
Definition timer_fire (cl : Captured) (id : Z) (st : State) : State :=
  if existsb (fun t => timer_id t =? id) (timers st) then
    connect cl true (clearTimeout id st)
  else st.

(** [disconnect()] *)
Definition disconnect (st : State) : State :=
  let st := set_manualDisconnectRef true st in
  let st := clearReconnectTimeout st in
  let st := set_reconnectAttemptsRef 0 st in
  match websocketRef st with
  | Some ws =>
      if is_open ws then
        let st :=
          baseSend (JObj [("type", JStr "control"); ("action", JStr "stop")])
            st in
        close_socket None st
      else close_socket None st
  | None =>
      let st := cleanupMedia st in
      let st := set_connectionAttemptRef false st in
      set_status disconnected st
  end.

(** *** Transcript text *)

(** The text of one entry of a [segments] or [transcripts] array:
    <<
    if (segment && typeof segment === "object" && "text" in segment)
      return String(segment.text ?? '');
    return '';
    >> *)
Definition segment_text (host : Host) (segment : json) : string :=
  if truthy (Some segment) && is_object segment && has "text" segment then
    match get "text" segment with
    | Some JNull | None => EmptyString
    | Some v => String_ (Number_toString host) v
    end
  else EmptyString.

Definition segments_text (host : Host) (segments : list json) : string :=
  Str.trim (Str.join " " (map (segment_text host) segments)).

(** [extractTranscriptText(payload)] *)
Definition extractTranscriptText (host : Host) (payload : option json)
  : string :=
  if negb (truthy payload) then EmptyString
  else
    match payload with
    | None => EmptyString
    | Some (JStr s) => s
    | Some v =>
        let fallback := JSON_stringify (Number_toString host) v in
        if is_object v then
          match as_string (get "text" v) with
          | Some s => s
          | None =>
              match as_string (get "transcript" v) with
              | Some s => s
              | None =>
                  match as_array (get "segments" v) with
                  | Some segments => segments_text host segments
                  | None =>
                      match as_array (get "transcripts" v) with
                      | Some entries => segments_text host entries
                      | None => fallback
                      end
                  end
              end
          end
        else fallback
    end.

(** *** Cases of the message dispatcher common to the two copies *)

(** [setResumeHandle(h)] *)
Definition setResumeHandle (h : option string) (st : State) : State :=
  set_resumeHandle h st.

Definition on_status (data : json) (st : State) : State :=
  let info := {| sendSampleRate := as_number (get "sendSampleRate" data);
                 receiveSampleRate := as_number (get "receiveSampleRate" data) |} in
  let st := set_serverInfo (Some info) st in
  let st := match as_string (get "resumeHandle" data) with
            | Some h => if Str.truthy h then setResumeHandle (Some h) st else st
            | None => st
            end in
  let st := set_status (match status st with
                        | connecting => connected
                        | prev => prev
                        end) st in
  appendMessage system "Connected to interview server." st.

Definition on_audio (cl : Captured) (host : Host) (data : json) (st : State)
  : State :=
  match as_string (get "data" data) with
  | Some base64 =>
      playAssistantAudio cl host base64 (as_number (get "sampleRate" data)) st
  | None => st
  end.

Definition on_text (data : json) (st : State) : State :=
  match as_string (get "text" data) with
  | Some text => appendMessage assistant text st
  | None => st
  end.

Definition is_string (s : string) (v : option json) : bool :=
  match v with
  | Some (JStr s') => (s' =? s)%string
  | _ => false
  end.

Definition on_monitor (cl : Captured) (host : Host) (data : json) (st : State)
  : State :=
  if is_string "look_away_warning" (get "event" data) then
    let warnings := match as_number (get "warnings" data) with
                    | Some n => n
                    | None => (c_warningCount cl + 1)%Q
                    end in
    let remaining := as_number (get "remaining" data) in
    let st := set_warningCount warnings st in
    let st := set_remainingWarnings remaining st in
    appendMessage system
      ("Eye-contact warning " ++ Number_toString host warnings ++ ".") st
  else if is_string "look_away_terminated" (get "event" data) then
    let st := set_warningCount
                (match as_number (get "warnings" data) with
                 | Some n => n
                 | None => c_warningCount cl
                 end) st in
    let st := set_remainingWarnings (Some 0%Q) st in
    appendMessage system "Session will conclude due to repeated look-aways." st
  else st.

Definition on_recordings (data : json) (st : State) : State :=
  let sessionId := match as_string (get "sessionId" data) with
                   | Some s => s
                   | None => "unknown"
                   end in
  let part (label key : string) : list string :=
    match as_string (get key data) with
    | Some path => [label ++ path]
    | None => []
    end in
  let parts := (part "assistant: " "assistantPath"
                ++ part "candidate: " "candidatePath"
                ++ part "mix: " "mixPath"
                ++ part "transcripts: " "transcriptsPath")%list in
  match parts with
  | [] => st
  | _ =>
      appendMessage system
        ("Artifacts for session " ++ sessionId ++ " saved -> "
           ++ Str.join ", " parts) st
  end.

Definition on_session_complete (data : json) (st : State) : State :=
  let reason := match as_string (get "reason" data) with
                | Some s => s
                | None => "completed"
                end in
  let detailSuffix := match as_string (get "detail" data) with
                      | Some d => if Str.truthy d then ": " ++ d else EmptyString
                      | None => EmptyString
                      end in
  let st := appendMessage system
              ("Session complete (" ++ reason ++ ")" ++ detailSuffix) st in
  let st := set_manualDisconnectRef true st in
  let st := set_reconnectAttemptsRef 0 st in
  let st := set_resumeHandleRef None st in
  let st := setResumeHandle None st in
  let st := match websocketRef st with
            | Some ws =>
                if is_open ws then
                  close_socket (Some (1000, "session complete")) st
                else st
            | None => st
            end in
  set_status disconnected st.

End Core.

(** ** The current copy of the component *)

Module App.

Import Json.
Local Open Scope string_scope.
Local Open Scope Z_scope.

Record State : Type := mkState {
  core : Core.State;
  transcripts : list Core.Transcript;
  transcriptsFormatted : list Core.Transcript;
  aiSessionId : string
}.

Definition set_core (v : Core.State) (st : State) : State :=
  mkState v (transcripts st) (transcriptsFormatted st) (aiSessionId st).
Definition set_transcripts (v : list Core.Transcript) (st : State) : State :=
  mkState (core st) v (transcriptsFormatted st) (aiSessionId st).
Definition set_transcriptsFormatted (v : list Core.Transcript) (st : State)
  : State :=
  mkState (core st) (transcripts st) v (aiSessionId st).
Definition set_aiSessionId (v : string) (st : State) : State :=
  mkState (core st) (transcripts st) (transcriptsFormatted st) v.

Definition initial (url0 : string) (stored : option string) : State :=
  {| core := Core.initial url0 stored; transcripts := [];
     transcriptsFormatted := []; aiSessionId := EmptyString |}.

(** A handler of the shared session run on the component. *)
Definition on_core (f : Core.State -> Core.State) (st : State) : State :=
  set_core (f (core st)) st.

(** [l[l.length - 1]] *)
Definition lastOf {A : Type} (l : list A) : option A :=
  match rev l with
  | x :: _ => Some x
  | [] => None
  end.

(** <<
    const extractedText = extractTranscriptText(payload);
    if (!extractedText || extractedText.trim() === '') return;
    setTranscripts((prev) => prev.length === 0
      ? [{ id: 1, role, text: extractedText, timestamp: Date.now() }]
      : [...prev, { id: prev[prev.length - 1].id + 1, role, ... }]);
    >> *)
Definition appendTranscript (host : Core.Host) (role : Core.Role)
  (payload : option json) (st : State) : State :=
  let extractedText := Core.extractTranscriptText host payload in
  if negb (Str.truthy extractedText)
     || (Str.trim extractedText =? EmptyString)%string
  then st
  else
    let entry (id : Z) : Core.Transcript :=
      {| Core.t_id := id; Core.t_role := role; Core.t_text := extractedText;
         Core.t_timestamp := Core.Date_now host |} in
    set_transcripts
      (match lastOf (transcripts st) with
       | None => [entry 1]
       | Some last => (transcripts st ++ [entry (Core.t_id last + 1)])%list
       end) st.

(** One iteration of the loop of the formatting effect:
    <<
    if (formatted.length === 0) formatted.push({...item});
    else {
      const last = formatted[formatted.length - 1];
      if (last.role === item.role) {
        last.text += item.text;
        formatted[formatted.length - 1] = last;
      } else formatted.push({...item});
    }
    >> *)
Definition format_item (formatted : list Core.Transcript)
  (item : Core.Transcript) : list Core.Transcript :=
  match lastOf formatted with
  | None => (formatted ++ [item])%list
  | Some last =>
      if Core.Role_eqb (Core.t_role last) (Core.t_role item) then
        (removelast formatted ++
         [{| Core.t_id := Core.t_id last; Core.t_role := Core.t_role last;
             Core.t_text := Core.t_text last ++ Core.t_text item;
             Core.t_timestamp := Core.t_timestamp last |}])%list
      else (formatted ++ [item])%list
  end.

(** The list the formatting effect computes from [transcripts]. *)
Definition formatTranscripts (items : list Core.Transcript)
  : list Core.Transcript :=
  match items with
  | [] => []
  | _ => fold_left format_item items []
  end.

(** The effect that follows a change of [transcripts]. *)
Definition transcripts_effect (st : State) : State :=
  set_transcriptsFormatted (formatTranscripts (transcripts st)) st.

(** The effects run by the render that follows a handler. *)
Definition render (st : State) : State :=
  transcripts_effect (on_core Core.resumeHandle_effect st).

Definition on_transcript (host : Core.Host) (data : json) (st : State)
  : State :=
  match as_string (get "role" data) with
  | Some r =>
      let role := if (r =? "user")%string then Core.user else Core.assistant in
      appendTranscript host role (get "payload" data) st
  | None => st
  end.

Definition on_session_resumption (data : json) (st : State) : State :=
  match as_string (get "handle" data) with
  | Some handle =>
      if Str.truthy handle then
        let st := on_core (Core.setResumeHandle (Some handle)) st in
        let st := set_aiSessionId handle st in
        on_core
          (Core.appendMessage Core.system
             "Session resume handle updated. You can reconnect without losing context.")
          st
      else st
  | None => st
  end.

Definition on_context_ack (host : Core.Host) (data : json) (st : Core.State)
  : Core.State :=
  let updated := match as_array (get "updated" data) with
                 | Some l => l
                 | None => []
                 end in
  match updated with
  | _ :: _ =>
      let labels :=
        map (fun field =>
               if Core.is_string "jobDescription" (Some field)
               then "job description"
               else match field with
                    | JNull => EmptyString
                    | _ => String_ (Core.Number_toString host) field
                    end) updated in
      Core.appendMessage Core.system
        ("Interview context updated (" ++ Str.join " & " labels ++ ").") st
  | [] =>
      Core.appendMessage Core.system
        "Context update ignored. Provide a resume and/or job description to override the defaults."
        st
  end.

Definition on_error (data : json) (st : Core.State) : Core.State :=
  let message := match as_string (get "message" data) with
                 | Some m => m
                 | None => "Server error"
                 end in
  let details := match as_string (get "details" data) with
                 | Some d => d
                 | None => EmptyString
                 end in
  let st := Core.appendMessage Core.system
              ("Error: " ++ message
                 ++ (if Str.truthy details then " (" ++ details ++ ")"
                     else EmptyString)) st in
  Core.set_status Core.error st.

(** <<
    appendMessage("system", message);
    setResumeHandle(null);
    resumeHandleRef.current = null;
    manualDisconnectRef.current = true;
    reconnectAttemptsRef.current = 0;
    const ws = websocketRef.current;
    if (ws && ws.readyState === WebSocket.OPEN) ws.close(1000, "session expired");
    setStatus("disconnected");
    >> *)
Definition on_session_expired (data : json) (st : Core.State) : Core.State :=
  let message := match as_string (get "message" data) with
                 | Some m => m
                 | None => "Session expired. Please start a new interview."
                 end in
  let st := Core.appendMessage Core.system message st in
  let st := Core.setResumeHandle None st in
  let st := Core.set_resumeHandleRef None st in
  let st := Core.set_manualDisconnectRef true st in
  let st := Core.set_reconnectAttemptsRef 0 st in
  let st := match Core.websocketRef st with
            | Some ws =>
                if Core.is_open ws then
                  Core.close_socket (Some (1000, "session expired")) st
                else st
            | None => st
            end in
  Core.set_status Core.disconnected st.

(** [handleServerMessage(event)].  [parsed] is the result of
    [JSON.parse(event.data)], [None] when it throws; reading [type] off
    [null] throws as well. *)
Definition handleServerMessage (cl : Core.Captured) (host : Core.Host)
  (parsed : option json) (st : State) : State :=
  match parsed with
  | None | Some JNull => st
  | Some data =>
      let type := get "type" data in
      if Core.is_string "status" type then on_core (Core.on_status data) st
      else if Core.is_string "audio" type then
        on_core (Core.on_audio cl host data) st
      else if Core.is_string "text" type then on_core (Core.on_text data) st
      else if Core.is_string "transcript" type then on_transcript host data st
      else if Core.is_string "monitor" type then
        on_core (Core.on_monitor cl host data) st
      else if Core.is_string "recordings" type then
        on_core (Core.on_recordings data) st
      else if Core.is_string "session_complete" type then
        on_core (Core.on_session_complete data) st
      else if Core.is_string "session_resumption" type then
        on_session_resumption data st
      else if Core.is_string "context_ack" type then
        on_core (on_context_ack host data) st
      else if Core.is_string "error" type then on_core (on_error data) st
      else if Core.is_string "session_expired" type then
        on_core (on_session_expired data) st
      else st
  end.

(** The context envelope sent when the socket opens:
    <<
    if (trimmedResume || trimmedJobDescription)
      ws.send(JSON.stringify({ type: "context", resumeText: trimmedResume,
                               jobDescriptionText: trimmedJobDescription }));
    >> *)
Definition contextPayload (resumeText jobDescriptionText : string)
  : option json :=
  let trimmedResume := Str.trim resumeText in
  let trimmedJobDescription := Str.trim jobDescriptionText in
  if Str.truthy trimmedResume || Str.truthy trimmedJobDescription then
    Some (JObj [("type", JStr "context"); ("resumeText", JStr trimmedResume);
                ("jobDescriptionText", JStr trimmedJobDescription)])
  else None.

(** The transcript shown after a sequence of transcript envelopes, given as
    their (role, payload) pairs, delivered to a component whose transcript
    is [st]'s. *)
Definition deliver (host : Core.Host)
  (fragments : list (Core.Role * option json)) (st : State) : State :=
  render
    (fold_left (fun s f => appendTranscript host (fst f) (snd f) s)
       fragments st).

End App.

(** ** The earlier copy of the component *)

Module LegacyApp.

Import Json.
Local Open Scope string_scope.
Local Open Scope Z_scope.

(** [transcripts] is [None] once a state updater has returned
    [undefined]. *)
Record State : Type := mkState {
  core : Core.State;
  transcripts : option (list Core.Transcript);
  transcriptsRole : string;
  transcriptIdRef : Z
}.

Definition set_core (v : Core.State) (st : State) : State :=
  mkState v (transcripts st) (transcriptsRole st) (transcriptIdRef st).
Definition set_transcripts (v : option (list Core.Transcript)) (st : State)
  : State :=
  mkState (core st) v (transcriptsRole st) (transcriptIdRef st).
Definition set_transcriptsRole (v : string) (st : State) : State :=
  mkState (core st) (transcripts st) v (transcriptIdRef st).
Definition set_transcriptIdRef (v : Z) (st : State) : State :=
  mkState (core st) (transcripts st) (transcriptsRole st) v.

Definition initial (url0 : string) (stored : option string) : State :=
  {| core := Core.initial url0 stored; transcripts := Some [];
     transcriptsRole := EmptyString; transcriptIdRef := 0 |}.

Definition on_core (f : Core.State -> Core.State) (st : State) : State :=
  set_core (f (core st)) st.

(** The body of [appendTranscript], with the value of the [transcriptsRole]
    state that the closure holds as the argument [capturedRole]:
    <<
    const text = extractTranscriptText(payload);
    if (!text) return;
    if (transcriptsRole !== role) {
      setTranscriptsRole(role);
      transcriptIdRef.current += 1;
      setTranscripts((prev) => [...prev, { id: transcriptIdRef.current, role,
                                           text, timestamp: Date.now() }]);
    } else {
      setTranscripts((prev) => {
        const last = prev[prev.length - 1];
        if (last && last.role === role) {
          last.text += `${text}`;
          return [...prev.slice(0, -1), last];
        }
      });
    }
    >> *)
Definition appendTranscript_body (capturedRole : string) (host : Core.Host)
  (role : Core.Role) (payload : option json) (st : State) : State :=
  let text := Core.extractTranscriptText host payload in
  if negb (Str.truthy text) then st
  else if negb (capturedRole =? Core.Role_name role)%string then
    let st := set_transcriptsRole (Core.Role_name role) st in
    let st := set_transcriptIdRef (transcriptIdRef st + 1) st in
    set_transcripts
      (option_map
         (fun prev =>
            (prev ++ [{| Core.t_id := transcriptIdRef st; Core.t_role := role;
                         Core.t_text := text;
                         Core.t_timestamp := Core.Date_now host |}])%list)
         (transcripts st)) st
  else
    set_transcripts
      (match transcripts st with
       | None => None
       | Some prev =>
           match App.lastOf prev with
           | Some last =>
               if Core.Role_eqb (Core.t_role last) role then
                 Some (removelast prev ++
                       [{| Core.t_id := Core.t_id last;
                           Core.t_role := Core.t_role last;
                           Core.t_text := Core.t_text last ++ text;
                           Core.t_timestamp := Core.t_timestamp last |}])%list
               else None
           | None => None
           end
       end) st.

(** [appendTranscript] is memoised with an empty dependency list
    ([useCallback(..., [])]): the callback in use is always the one created
    by the first render, whose [transcriptsRole] is the initial state, the
    empty string. *)
Definition appendTranscript : Core.Host -> Core.Role -> option json ->
                              State -> State :=
  appendTranscript_body (transcriptsRole (initial EmptyString None)).

Definition on_transcript (host : Core.Host) (data : json) (st : State)
  : State :=
  match as_string (get "role" data) with
  | Some r =>
      let role := if (r =? "user")%string then Core.user else Core.assistant in
      appendTranscript host role (get "payload" data) st
  | None => st
  end.

Definition on_session_resumption (data : json) (st : Core.State)
  : Core.State :=
  match as_string (get "handle" data) with
  | Some handle =>
      if Str.truthy handle then
        let st := Core.setResumeHandle (Some handle) st in
        Core.appendMessage Core.system
          "Session resume handle updated. You can reconnect without losing context."
          st
      else st
  | None => st
  end.

Definition on_error (data : json) (st : Core.State) : Core.State :=
  let message := match as_string (get "message" data) with
                 | Some m => m
                 | None => "Server error"
                 end in
  let st := Core.appendMessage Core.system message st in
  Core.set_status Core.error st.

(** [handleServerMessage(event)] of the earlier copy: its [switch] has no
    case for [context_ack] nor for [session_expired]. *)
Definition handleServerMessage (cl : Core.Captured) (host : Core.Host)
  (parsed : option json) (st : State) : State :=
  match parsed with
  | None | Some JNull => st
  | Some data =>
      let type := get "type" data in
      if Core.is_string "status" type then on_core (Core.on_status data) st
      else if Core.is_string "audio" type then
        on_core (Core.on_audio cl host data) st
      else if Core.is_string "text" type then on_core (Core.on_text data) st
      else if Core.is_string "transcript" type then on_transcript host data st
      else if Core.is_string "monitor" type then
        on_core (Core.on_monitor cl host data) st
      else if Core.is_string "recordings" type then
        on_core (Core.on_recordings data) st
      else if Core.is_string "session_complete" type then
        on_core (Core.on_session_complete data) st
      else if Core.is_string "session_resumption" type then
        on_core (on_session_resumption data) st
      else if Core.is_string "error" type then on_core (on_error data) st
      else st
  end.

(** The effects run by the render that follows a handler. *)
Definition render (st : State) : State :=
  on_core Core.resumeHandle_effect st.

(** The transcript after a sequence of transcript envelopes. *)
Definition deliver (host : Core.Host)
  (fragments : list (Core.Role * option json)) (st : State) : State :=
  render
    (fold_left (fun s f => appendTranscript host (fst f) (snd f) s)
       fragments st).

End LegacyApp.

(** ** A host and event sequences for the examples *)

Module Sample.

Import Json.
Local Open Scope string_scope.
Local Open Scope Z_scope.

(** Number formatting of integers (the decimal digits, as JavaScript prints
    an integer below 10^21); used on integers only. *)
Definition decimal (n : Q) : string :=
  NilZero.string_of_int (Z.to_int (Codec.trunc n)).

(** A host whose device runs at 48 kHz and whose clocks read zero. *)
Definition host : Core.Host :=
  {| Core.currentTime := 0; Core.deviceSampleRate := 48000;
     Core.Date_now := 0; Core.Number_toString := decimal |}.

Definition url0 : string := "ws://localhost:8000/ws/interview".

(** The component after its first render, with no stored handle. *)
Definition fresh : App.State := App.initial url0 None.

Definition legacy_fresh : LegacyApp.State := LegacyApp.initial url0 None.

(** A transcript envelope whose payload is the empty object. *)
Definition empty_object_transcript : json :=
  JObj [("type", JStr "transcript"); ("role", JStr "user");
        ("payload", JObj [])].

(** The first [status] envelope of a session: it announces the rates and
    issues the handle [h1]. *)
Definition status_envelope : json :=
  JObj [("type", JStr "status"); ("sendSampleRate", JNum 16000);
        ("receiveSampleRate", JNum 24000); ("resumeHandle", JStr "h1")].


Definition session_expired_envelope : json :=
  JObj [("type", JStr "session_expired")].


(** An [audio] envelope whose data decode to three bytes. *)
Definition odd_audio_envelope : json :=
  JObj [("type", JStr "audio"); ("data", JStr "AAEC")].

(** An [audio] envelope of two samples (four bytes), without a rate. *)
Definition audio_envelope : json :=
  JObj [("type", JStr "audio"); ("data", JStr "AAECAw==")].

(** What the callbacks of the first render captured. *)
Definition cl0 : Core.Captured := Core.snapshot (App.core fresh).

(** The component once [connect()] was called, the socket opened, the media
    were acquired and the first [status] envelope was handled. *)
Definition connected : App.State :=
  let st := App.on_core (Core.connect cl0 false) fresh in
  let st := App.on_core (Core.ws_onopen cl0 None true true) st in
  App.render (App.handleServerMessage cl0 host (Some status_envelope) st).

Definition legacy_connected : LegacyApp.State :=
  let st := LegacyApp.on_core (Core.connect cl0 false) legacy_fresh in
  let st := LegacyApp.on_core (Core.ws_onopen cl0 None true true) st in
  LegacyApp.render
    (LegacyApp.handleServerMessage cl0 host (Some status_envelope) st).

(** The session after the channel of [connected] closed unexpectedly: a
    reconnection is scheduled and no socket exists. *)
Definition waiting_to_reconnect : Core.State :=
  Core.ws_onclose host (App.core connected).

End Sample.

(** ** Event sequences *)

Module Scenario.

Local Open Scope Z_scope.

(** The reconnection the component has scheduled: the pending timeout that
    [reconnectTimeoutRef] designates. *)
Definition pending_reconnect (st : Core.State) : option Core.Timer :=
  match Core.reconnectTimeoutRef st with
  | Some id => find (fun t => Core.timer_id t =? id) (Core.timers st)
  | None => None
  end.

(** The sources started on the audio context of the session. *)
Definition started_sources (st : Core.State) : list Core.Source :=
  match Core.audioContextRef st with
  | Some ctx => Core.started ctx
  | None => []
  end.

(** A run of [n] consecutive unexpected closures.  The channel closes; when
    the component has scheduled a reconnection, the timeout expires,
    [connect(true)] opens a socket, and that socket fails before it opens
    (its error event), to close in turn.  The result is the list of the
    delays of the reconnections scheduled and the state after the last
    event. *)
Fixpoint unexpected_closures (n : nat) (cl : Core.Captured)
  (host : Core.Host) (st : Core.State) : list Z * Core.State :=
  match n with
  | O => ([], st)
  | S n' =>
      let st := Core.ws_onclose host st in
      match pending_reconnect st with
      | Some t =>
          let st := Core.ws_onerror (Core.timer_fire cl (Core.timer_id t) st) in
          let (delays, st) := unexpected_closures n' cl host st in
          (Core.timer_delay t :: delays, st)
      | None => ([], st)
      end
  end.

End Scenario.

(** ** The component as a state machine

    The events that drive the component, each handled in one step: the calls
    the user interface makes and the callbacks of the socket and of the
    timer.  (The interleavings that the [await]s inside a handler allow are
    not part of the embedding.) *)

Module Machine.

Import Json.
Local Open Scope Z_scope.

Inductive Event : Type :=
| Connect (cl : Core.Captured)
| Open (cl : Core.Captured) (resumeText jobDescriptionText : string)
       (audioOk videoOk : bool)
| Message (cl : Core.Captured) (host : Core.Host) (parsed : option json)
| Error
| Close (host : Core.Host)
| Timeout (cl : Core.Captured) (id : Z)
| Disconnect
| ClearResumeHandle.

Definition socket_in (rs : Core.ReadyState) (c : Core.State) : bool :=
  match Core.websocketRef c with
  | Some ws =>
      match Core.readyState ws, rs with
      | Core.CONNECTING, Core.CONNECTING | Core.OPEN, Core.OPEN
      | Core.CLOSING, Core.CLOSING | Core.CLOSED, Core.CLOSED => true
      | _, _ => false
      end
  | None => false
  end.

(** When the host can deliver an event: the socket opens once, from
    [CONNECTING]; messages arrive on an open socket; error and close events
    need a socket; a timeout expires while it is pending. *)
Definition enabled (e : Event) (c : Core.State) : bool :=
  match e with
  | Open _ _ _ _ _ => socket_in Core.CONNECTING c
  | Message _ _ _ => socket_in Core.OPEN c
  | Error | Close _ => Core.is_some (Core.websocketRef c)
  | Timeout _ id => existsb (fun t => Core.timer_id t =? id) (Core.timers c)
  | Connect _ | Disconnect | ClearResumeHandle => true
  end.

(** The handler of an event that is not a message. *)
Definition handle (e : Event) (contextPayload : option json)
  (c : Core.State) : Core.State :=
  match e with
  | Connect cl => Core.connect cl false c
  | Open cl _ _ audioOk videoOk =>
      Core.ws_onopen cl contextPayload audioOk videoOk c
  | Message _ _ _ => c
  | Error => Core.ws_onerror c
  | Close host => Core.ws_onclose host c
  | Timeout cl id => Core.timer_fire cl id c
  | Disconnect => Core.disconnect c
  | ClearResumeHandle => Core.clearResumeHandle c
  end.

(** One step of the current copy: the handler, then the effects of the
    render. *)
Definition App_step (e : Event) (st : App.State) : App.State :=
  App.render
    (match e with
     | Message cl host parsed => App.handleServerMessage cl host parsed st
     | Open _ resumeText jobDescriptionText _ _ =>
         App.on_core
           (handle e (App.contextPayload resumeText jobDescriptionText)) st
     | _ => App.on_core (handle e None) st
     end).

(** One step of the earlier copy. *)
Definition Legacy_step (e : Event) (st : LegacyApp.State) : LegacyApp.State :=
  LegacyApp.render
    (match e with
     | Message cl host parsed => LegacyApp.handleServerMessage cl host parsed st
     | _ => LegacyApp.on_core (handle e None) st
     end).

Fixpoint App_run (events : list Event) (st : App.State) : option App.State :=
  match events with
  | [] => Some st
  | e :: rest =>
      if enabled e (App.core st) then App_run rest (App_step e st) else None
  end.

Fixpoint Legacy_run (events : list Event) (st : LegacyApp.State)
  : option LegacyApp.State :=
  match events with
  | [] => Some st
  | e :: rest =>
      if enabled e (LegacyApp.core st) then Legacy_run rest (Legacy_step e st)
      else None
  end.

(** The session states the component goes through, in either copy, from its
    first render. *)
Inductive reachable (c : Core.State) : Prop :=
| reachable_App (url0 : string) (stored : option string)
    (events : list Event) (st : App.State) :
    App_run events (App.initial url0 stored) = Some st ->
    App.core st = c -> reachable c
| reachable_Legacy (url0 : string) (stored : option string)
    (events : list Event) (st : LegacyApp.State) :
    Legacy_run events (LegacyApp.initial url0 stored) = Some st ->
    LegacyApp.core st = c -> reachable c.

(** What holds of the session in every state the component goes through:
    a connected session has a socket; an open socket comes with an audio
    context; no timeout is pending while a socket exists; a pending timeout
    is the only one and is the one [reconnectTimeoutRef] designates. *)
Record Invariant (c : Core.State) : Prop := {
  connected_has_socket :
    Core.status c = Core.connected ->
    Core.is_some (Core.websocketRef c) = true;
  open_has_context :
    socket_in Core.OPEN c = true ->
    Core.is_some (Core.audioContextRef c) = true;
  socket_no_timer :
    Core.is_some (Core.websocketRef c) = true -> Core.timers c = [];
  timer_designated :
    forall t, In t (Core.timers c) ->
      Core.timers c = [t] /\
      Core.reconnectTimeoutRef c = Some (Core.timer_id t)
}.

(** A handler that neither creates nor removes the socket, opens none,
    keeps the audio context when there is one and leaves the timeouts
    alone: what every case of the message dispatchers does. *)
Definition quiet (c c' : Core.State) : Prop :=
  Core.is_some (Core.websocketRef c') = Core.is_some (Core.websocketRef c) /\
  (socket_in Core.OPEN c' = true -> socket_in Core.OPEN c = true) /\
  (Core.is_some (Core.audioContextRef c) = true ->
   Core.is_some (Core.audioContextRef c') = true) /\
  Core.timers c' = Core.timers c /\
  Core.reconnectTimeoutRef c' = Core.reconnectTimeoutRef c.

End Machine.

(** ** Outbound audio and text: resampling, transport encoding, forms

    The functions of the sending side, which both copies of the component
    share word for word.  Rates and sample values are rationals and the
    index arithmetic of the resampler is exact; the code computes in double
    precision, which gives the same indices unless a quotient falls within
    rounding error of a half-integer. *)

Module Wire.

Import Json.
Local Open Scope string_scope.
Local Open Scope Z_scope.

(** [Math.round]: the nearest integer, a tie going up. *)
Definition Math_round (x : Q) : Z := Qfloor (x + (1 # 2)).

(** The elements [a] (included) to [b] (excluded) of a buffer. *)
Definition slice {A : Type} (a b : Z) (buffer : list A) : list A :=
  firstn (Z.to_nat (b - a)) (skipn (Z.to_nat a) buffer).

(** The value the inner loop of [downsampleBuffer] leaves for one block:
    <<
    for (...) { accum += buffer[i]; count += 1; }
    result[offsetResult] = count > 0 ? accum / count : 0;
    >>
    (The sum and the quotient are exact here; the code rounds them to double
    precision and the stored value to single precision.) *)
Definition block_mean (block : list Q) : Q :=
  match block with
  | [] => 0
  | _ => fold_left Qplus block 0 / inject_Z (Z.of_nat (List.length block))
  end%Q.

(** The [while] loop of [downsampleBuffer], [n] iterations from the output
    index [offsetResult] and the input index [offsetBuffer]. *)
Fixpoint downsample_loop (n : nat) (offsetResult offsetBuffer : Z)
  (ratio : Q) (buffer : list Q) : list Q :=
  match n with
  | O => []
  | S n' =>
      let nextOffsetBuffer :=
        Math_round (inject_Z (offsetResult + 1) * ratio) in
      let stop := Z.min nextOffsetBuffer (Z.of_nat (List.length buffer)) in
      block_mean (slice offsetBuffer stop buffer)
        :: downsample_loop n' (offsetResult + 1) nextOffsetBuffer ratio buffer
  end.

(** [downsampleBuffer(buffer, inputRate, targetRate)]:
    <<
    if (targetRate === inputRate) return buffer;
    const ratio = inputRate / targetRate;
    const newLength = Math.round(buffer.length / ratio);
    if (!Number.isFinite(newLength) || newLength <= 0) return new Float32Array(0);
    >>
    A rate of 0 makes [ratio] or [newLength] infinite or undefined in the
    code, and the result empty; here a quotient by 0 is 0, [newLength] is 0
    and the result is empty as well. *)
Definition downsampleBuffer (buffer : list Q) (inputRate targetRate : Q)
  : list Q :=
  if Qeq_bool targetRate inputRate then buffer
  else
    let ratio := (inputRate / targetRate)%Q in
    let newLength :=
      Math_round (inject_Z (Z.of_nat (List.length buffer)) / ratio) in
    if newLength <=? 0 then []
    else downsample_loop (Z.to_nat newLength) 0 0 ratio buffer.

(** The bytes of an [Int16Array] ([pcm.buffer]): each element as two bytes,
    little-endian, two's complement. *)
Definition int16_bytes (v : Z) : list Z :=
  let u := v mod 65536 in [u mod 256; u / 256].

Definition Int16Array_bytes (pcm : list Z) : list Z :=
  flat_map int16_bytes pcm.

(** The character of the base64 alphabet for a six-bit value. *)
Definition b64_char (v : Z) : ascii :=
  ascii_of_nat
    (Z.to_nat (if v <? 26 then 65 + v
               else if v <? 52 then 71 + v
               else if v <? 62 then v - 4
               else if v =? 62 then 43
               else 47)).

Definition pad : ascii := ascii_of_nat 61.

Fixpoint encode_groups (codes : list Z) : string :=
  match codes with
  | a :: b :: c :: rest =>
      let n := Z.lor (Z.lor (Z.shiftl a 16) (Z.shiftl b 8)) c in
      String (b64_char (Z.shiftr n 18))
        (String (b64_char (Z.land (Z.shiftr n 12) 63))
           (String (b64_char (Z.land (Z.shiftr n 6) 63))
              (String (b64_char (Z.land n 63)) (encode_groups rest))))
  | [a; b] =>
      let n := Z.lor (Z.shiftl a 16) (Z.shiftl b 8) in
      String (b64_char (Z.shiftr n 18))
        (String (b64_char (Z.land (Z.shiftr n 12) 63))
           (String (b64_char (Z.land (Z.shiftr n 6) 63))
              (String pad EmptyString)))
  | [a] =>
      let n := Z.shiftl a 16 in
      String (b64_char (Z.shiftr n 18))
        (String (b64_char (Z.land (Z.shiftr n 12) 63))
           (String pad (String pad EmptyString)))
  | [] => EmptyString
  end.

(** [btoa] on a binary string given by its character codes; [None] when it
    throws (a code above 255). *)
Definition btoa (codes : list Z) : option string :=
  if forallb (fun c => (0 <=? c) && (c <=? 255)) codes
  then Some (encode_groups codes)
  else None.

Definition chunkSize : nat := Z.to_nat 32768.

(** The pieces [bytes.subarray(i, i + chunkSize)] of the loop of
    [arrayBufferToBase64]; [fuel] bounds the number of iterations. *)
Fixpoint chunks (fuel : nat) (bytes : list Z) : list (list Z) :=
  match fuel with
  | O => []
  | S fuel' =>
      match bytes with
      | [] => []
      | _ => firstn chunkSize bytes :: chunks fuel' (skipn chunkSize bytes)
      end
  end.

(** [arrayBufferToBase64] on the bytes of the view: the binary string is
    assembled chunk by chunk, then encoded. *)
Definition arrayBufferToBase64 (bytes : list Z) : option string :=
  btoa (List.concat (chunks (List.length bytes) bytes)).

(** [sendAudio(pcm)] *)
Definition sendAudio (pcm : list Z) (st : Core.State) : Core.State :=
  match arrayBufferToBase64 (Int16Array_bytes pcm) with
  | Some data =>
      Core.baseSend (JObj [("type", JStr "audio"); ("data", JStr data)]) st
  | None => st
  end.

(** [sendFrame(base64Frame)] *)
Definition sendFrame (base64Frame : string) (st : Core.State) : Core.State :=
  Core.baseSend
    (JObj [("type", JStr "image"); ("mime_type", JStr "image/jpeg");
           ("data", JStr base64Frame)]) st.


(** [handleSubmit]: the text form.  [inputText] is the value of the input
    the callback captured; the result carries the value of the input after
    the call ([setInputText('')] empties it). *)
Definition handleSubmit (inputText : string) (st : Core.State)
  : string * Core.State :=
  if negb (Str.truthy (Str.trim inputText)) then (inputText, st)
  else
    let st := Core.appendMessage Core.user (Str.trim inputText) st in
    (EmptyString,
     Core.baseSend
       (JObj [("type", JStr "text"); ("text", JStr (Str.trim inputText));
              ("turn_complete", JBool true)]) st).

(** [sendContextUpdate] of the current copy. *)
Definition sendContextUpdate (resumeText jobDescriptionText : string)
  (st : Core.State) : Core.State :=
  let trimmedResume := Str.trim resumeText in
  let trimmedJobDescription := Str.trim jobDescriptionText in
  if negb (Str.truthy trimmedResume) && negb (Str.truthy trimmedJobDescription)
  then
    Core.appendMessage Core.system
      "Provide a resume and/or job description before sending context." st
  else
    Core.baseSend
      (JObj [("type", JStr "context"); ("resumeText", JStr trimmedResume);
             ("jobDescriptionText", JStr trimmedJobDescription)]) st.

End Wire.

(** ** Bookkeeping of the session

    What the component keeps count of: the numbers of the entries of the
    message log and of the transcript, and the reconnection attempts. *)

Module Bookkeeping.

Local Open Scope Z_scope.

(** The numbers 1, 2, ..., n. *)
Definition numbered (n : nat) : list Z := map Z.of_nat (seq 1 n).




(** Sources that play one after the other: each starts no earlier than the
    one before it ends. *)
Fixpoint back_to_back (sources : list Core.Source) : Prop :=
  match sources with
  | a :: (b :: _) as rest =>
      (Core.src_startAt a + Core.src_duration a <= Core.src_startAt b)%Q /\
      back_to_back rest
  | _ => True
  end.

(** The sources started on the audio context play one after the other and
    all end by the play cursor. *)
Definition Playback (c : Core.State) : Prop :=
  back_to_back (Scenario.started_sources c) /\
  Forall (fun s => (Core.src_startAt s + Core.src_duration s
                    <= Core.playbackTimeRef c)%Q)
    (Scenario.started_sources c).

(** The clock of the audio context never reads below zero: what a run
    assumes of the hosts of its message events. *)
Definition clock_started (e : Machine.Event) : Prop :=
  match e with
  | Machine.Message _ host _ => (0 <= Core.currentTime host)%Q
  | _ => True
  end.

(** No two neighbours of a transcript have the same role. *)
Fixpoint alternating (items : list Core.Transcript) : bool :=
  match items with
  | a :: (b :: _) as rest =>
      negb (Core.Role_eqb (Core.t_role a) (Core.t_role b)) && alternating rest
  | _ => true
  end.

(** The texts of a transcript, one after the other. *)
Definition all_text (items : list Core.Transcript) : string :=
  fold_right String.append EmptyString (map Core.t_text items).

(** The entries of a transcript are numbered 1, 2, ... in order. *)
Definition numbered_transcript (items : list Core.Transcript) : Prop :=
  map Core.t_id items = numbered (List.length items).

End Bookkeeping.

(** * Properties *)

(** ** Codec: quantisation round trip *)

Module CodecFacts.
Import Codec.

Lemma Qlt_bool_true a b : Qlt_bool a b = true <-> (a < b)%Q.
Proof.
  unfold Qlt_bool. rewrite negb_true_iff.
  destruct (Qle_bool b a) eqn:E.
  - apply Qle_bool_iff in E. split; [discriminate | intros H; exfalso; lra].
  - split; [intros _ | reflexivity].
    apply Qnot_le_lt. intros H. apply Qle_bool_iff in H. congruence.
Qed.

Lemma Qlt_bool_false a b : Qlt_bool a b = false <-> (b <= a)%Q.
Proof.
  unfold Qlt_bool. rewrite negb_false_iff. apply Qle_bool_iff.
Qed.

(** Truncation of a non-negative number rounds down by less than one. *)
Lemma trunc_nonneg r :
  (0 <= r)%Q -> (inject_Z (trunc r) <= r /\ r < inject_Z (trunc r) + 1)%Q.
Proof.
  destruct r as [p q]. unfold trunc, Qle, Qlt. cbn. intros Hp.
  assert (Hp' : 0 <= p) by lia.
  rewrite Z.quot_div_nonneg by lia.
  pose proof (Z.div_mod p (Zpos q) ltac:(lia)) as Hdm.
  pose proof (Z.mod_pos_bound p (Zpos q) ltac:(lia)) as Hb.
  split; nia.
Qed.

(** Truncation of a non-positive number rounds up by less than one. *)
Lemma trunc_nonpos r :
  (r <= 0)%Q -> (r <= inject_Z (trunc r) /\ inject_Z (trunc r) - 1 < r)%Q.
Proof.
  destruct r as [p q]. unfold trunc, Qle, Qlt. cbn. intros Hp.
  assert (Hp' : p <= 0) by lia.
  replace p with (- (- p)) by lia.
  rewrite Z.quot_opp_l by lia.
  rewrite Z.quot_div_nonneg by lia.
  pose proof (Z.div_mod (- p) (Zpos q) ltac:(lia)) as Hdm.
  pose proof (Z.mod_pos_bound (- p) (Zpos q) ltac:(lia)) as Hb.
  split; nia.
Qed.

Lemma ToInt16_in_range r :
  -32768 <= trunc r <= 32767 -> ToInt16 r = trunc r.
Proof.
  intros H. unfold ToInt16. rewrite Z.mod_small by lia. lia.
Qed.

(** Clamping leaves a sample of [[-1, 1]] as it is (up to the
    representation of the fraction). *)
Lemma clamp_in_range x :
  (-1 <= x <= 1)%Q -> (Math_max (-1) (Math_min 1 x) == x)%Q.
Proof.
  intros [Hlo Hhi]. unfold Math_max, Math_min.
  destruct (Qle_bool 1 x) eqn:E1.
  - apply Qle_bool_iff in E1. cbn. lra.
  - destruct (Qle_bool (-1) x) eqn:E2; [reflexivity |].
    exfalso. apply Qle_bool_iff in Hlo. congruence.
Qed.

(** The sample that [floatTo16BitPCM] stores for a clamped negative value. *)
Lemma quantize_negative s :
  (-1 <= s)%Q -> (s < 0)%Q ->
  -32768 <= ToInt16 (s * 32768) <= 0 /\
  (s * 32768 <= inject_Z (ToInt16 (s * 32768)) /\
   inject_Z (ToInt16 (s * 32768)) - 1 < s * 32768)%Q.
Proof.
  intros Hlo Hneg.
  destruct (trunc_nonpos (s * 32768)%Q ltac:(lra)) as [H1 H2].
  assert (Hr : -32768 <= trunc (s * 32768)%Q <= 0).
  { split.
    - rewrite Zle_Qle. change (inject_Z (-32768)) with (-32768)%Q. lra.
    - apply Z.lt_succ_r. rewrite Zlt_Qlt.
      change (inject_Z (Z.succ 0)) with 1%Q. lra. }
  rewrite ToInt16_in_range by lia. auto.
Qed.

(** The sample stored for a clamped non-negative value. *)
Lemma quantize_nonnegative s :
  (0 <= s)%Q -> (s <= 1)%Q ->
  0 <= ToInt16 (s * 32767) <= 32767 /\
  (inject_Z (ToInt16 (s * 32767)) <= s * 32767 /\
   s * 32767 < inject_Z (ToInt16 (s * 32767)) + 1)%Q.
Proof.
  intros Hlo Hhi.
  destruct (trunc_nonneg (s * 32767)%Q ltac:(lra)) as [H1 H2].
  assert (Hr : 0 <= trunc (s * 32767)%Q <= 32767).
  { split.
    - apply Z.lt_succ_r. rewrite Zlt_Qlt. unfold Z.succ.
      rewrite inject_Z_plus.
      change (inject_Z 1) with 1%Q. change (inject_Z 0) with 0%Q. lra.
    - apply Z.lt_succ_r. rewrite Zlt_Qlt.
      change (inject_Z (Z.succ 32767)) with 32768%Q. lra. }
  rewrite ToInt16_in_range by lia. auto.
Qed.

Lemma roundtrip_unfold x :
  roundtrip x = (inject_Z (floatTo16BitPCM_sample x) / 32768)%Q.
Proof. reflexivity. Qed.

(** The signed error of the round trip: a negative sample comes back at
    most one step closer to zero; a non-negative sample comes back smaller
    by less than two steps (the scale 32767 loses up to one step on top of
    the truncation). *)
Lemma roundtrip_signed_error x :
  (-1 <= x <= 1)%Q ->
  (x < 0 -> - (1 # 32768) < x - roundtrip x <= 0)%Q /\
  (0 <= x -> 0 <= x - roundtrip x < 2 # 32768)%Q.
Proof.
  intros Hx. rewrite roundtrip_unfold. unfold floatTo16BitPCM_sample.
  pose proof (clamp_in_range x Hx) as Hs.
  set (s := Math_max (-1) (Math_min 1 x)) in *. cbv zeta.
  split; intros Hsign.
  - assert (Hlt : Qlt_bool s 0 = true) by (apply Qlt_bool_true; lra).
    rewrite Hlt.
    destruct (quantize_negative s ltac:(lra) ltac:(lra)) as [_ [H1 H2]].
    set (t := inject_Z (ToInt16 (s * 32768))) in *.
    unfold Qdiv. change (/ 32768)%Q with (1 # 32768)%Q. split; lra.
  - assert (Hge : Qlt_bool s 0 = false) by (apply Qlt_bool_false; lra).
    rewrite Hge.
    destruct (quantize_nonnegative s ltac:(lra) ltac:(lra)) as [_ [H1 H2]].
    set (t := inject_Z (ToInt16 (s * 32767))) in *.
    unfold Qdiv. change (/ 32768)%Q with (1 # 32768)%Q. split; lra.
Qed.

(** C5 (as amended).  For every sample [x] of [[-1, 1]], quantising with
    [floatTo16BitPCM] and dequantising with [int16ToFloat32] returns a value
    within less than 2/32768 of [x]; for a negative sample the error is less
    than 1/32768. *)
Theorem quantize_roundtrip_error (x : Q) :
  (-1 <= x <= 1)%Q ->
  (Qabs (x - roundtrip x) < 2 # 32768)%Q /\
  (x < 0 -> Qabs (x - roundtrip x) < 1 # 32768)%Q.
Proof.
  intros Hx. destruct (roundtrip_signed_error x Hx) as [Hneg Hpos].
  split.
  - apply Qabs_Qlt_condition.
    destruct (Qlt_le_dec x 0) as [Hlt | Hge].
    + specialize (Hneg Hlt). lra.
    + specialize (Hpos Hge). lra.
  - intros Hlt. apply Qabs_Qlt_condition. specialize (Hneg Hlt). lra.
Qed.

Lemma quantize_roundtrip_error_witness :
  (-1 <= -(1 # 3) <= 1)%Q /\
  (Qabs (-(1 # 3) - roundtrip (-(1 # 3))) < 2 # 32768)%Q /\
  (-(1 # 3) < 0 -> Qabs (-(1 # 3) - roundtrip (-(1 # 3))) < 1 # 32768)%Q.
Proof.
  split; [split; discriminate |].
  apply (quantize_roundtrip_error (-(1 # 3))). split; discriminate.
Defined.

(** C5 (as stated) fails: the sample 65535/65536, which a Float32Array
    holds exactly, is quantised to 32766 and comes back as 32766/32768, at
    distance 3/65536 from the sample, more than 1/32768. *)
Lemma quantize_roundtrip_counterexample :
  (-1 <= 65535 # 65536 <= 1)%Q /\
  floatTo16BitPCM [65535 # 65536]%Q = [32766] /\
  ~ (Qabs ((65535 # 65536) - roundtrip (65535 # 65536)) <= 1 # 32768)%Q.
Proof.
  split; [split; discriminate |]. split; [reflexivity |].
  intros H. vm_compute in H. exact (H eq_refl).
Qed.

End CodecFacts.

(** ** Transcript aggregation *)

Module TranscriptFacts.

Import Json.
Local Open Scope string_scope.
Local Open Scope list_scope.

Lemma truthy_false_iff s : Str.truthy s = false <-> s = EmptyString.
Proof.
  unfold Str.truthy. rewrite negb_false_iff. apply String.eqb_eq.
Qed.

Lemma truthy_true_iff s : Str.truthy s = true <-> s <> EmptyString.
Proof.
  unfold Str.truthy. rewrite negb_true_iff. apply String.eqb_neq.
Qed.

Lemma lastOf_snoc {A : Type} (l : list A) (x : A) :
  App.lastOf (l ++ [x]) = Some x.
Proof. unfold App.lastOf. rewrite rev_app_distr. reflexivity. Qed.

Lemma lastOf_None {A : Type} (l : list A) :
  App.lastOf l = None -> l = [].
Proof.
  unfold App.lastOf. intros H.
  destruct (rev l) as [| x r] eqn:E; [| discriminate H].
  rewrite <- (rev_involutive l), E. reflexivity.
Qed.

Lemma lastOf_Some {A : Type} (l : list A) (x : A) :
  App.lastOf l = Some x -> l = removelast l ++ [x].
Proof.
  unfold App.lastOf. intros H.
  destruct (rev l) as [| y r] eqn:E; [discriminate H |].
  injection H as ->.
  assert (Hl : l = rev r ++ [x]).
  { rewrite <- (rev_involutive l), E. reflexivity. }
  rewrite Hl at 1 2. rewrite removelast_last. reflexivity.
Qed.

(** The formatting effect is a left fold of [format_item]. *)
Lemma formatTranscripts_fold items :
  App.formatTranscripts items = fold_left App.format_item items [].
Proof. destruct items; reflexivity. Qed.

Lemma formatTranscripts_snoc items item :
  App.formatTranscripts (items ++ [item]) =
  App.format_item (App.formatTranscripts items) item.
Proof.
  rewrite !formatTranscripts_fold, fold_left_app. reflexivity.
Qed.

(** The text extracted from a string payload is the string. *)
Lemma extract_string host s :
  Core.extractTranscriptText host (Some (JStr s)) = s.
Proof.
  unfold Core.extractTranscriptText. cbn.
  destruct (Str.truthy s) eqn:E; [reflexivity |].
  apply truthy_false_iff in E. cbn. congruence.
Qed.

(** What [appendTranscript] of the current copy does with a text that is
    not blank: one entry more at the end of [transcripts]. *)
Lemma App_appendTranscript_kept host role payload st :
  Str.trim (Core.extractTranscriptText host payload) <> EmptyString ->
  exists id,
    App.appendTranscript host role payload st =
    App.set_transcripts
      (App.transcripts st ++
       [{| Core.t_id := id; Core.t_role := role;
           Core.t_text := Core.extractTranscriptText host payload;
           Core.t_timestamp := Core.Date_now host |}]) st.
Proof.
  intros Htrim. unfold App.appendTranscript.
  set (text := Core.extractTranscriptText host payload) in *.
  assert (Htext : Str.truthy text = true).
  { apply truthy_true_iff. intros ->. apply Htrim. reflexivity. }
  rewrite Htext. apply String.eqb_neq in Htrim. rewrite Htrim. cbn.
  destruct (App.lastOf (App.transcripts st)) as [last |] eqn:E.
  - eexists. reflexivity.
  - apply lastOf_None in E. rewrite E. eexists. reflexivity.
Qed.

Lemma App_appendTranscript_dropped host role payload st :
  Str.trim (Core.extractTranscriptText host payload) = EmptyString ->
  App.appendTranscript host role payload st = st.
Proof.
  intros Htrim. unfold App.appendTranscript.
  apply String.eqb_eq in Htrim. rewrite Htrim, orb_true_r. reflexivity.
Qed.

(** The aggregation rule of the current copy, on the list the component
    displays: a fragment whose text is not blank starts a new entry when
    the displayed list is empty or ends with another role, and extends the
    text of the last entry otherwise. *)
Lemma App_aggregation_rule host role text st :
  Str.trim text <> EmptyString ->
  App.transcriptsFormatted st = App.formatTranscripts (App.transcripts st) ->
  let st' := App.render (App.appendTranscript host role (Some (JStr text)) st) in
  exists id,
    let entry := {| Core.t_id := id; Core.t_role := role; Core.t_text := text;
                    Core.t_timestamp := Core.Date_now host |} in
    match App.lastOf (App.transcriptsFormatted st) with
    | None => App.transcriptsFormatted st' = [entry]
    | Some last =>
        if Core.Role_eqb (Core.t_role last) role then
          App.transcriptsFormatted st' =
          removelast (App.transcriptsFormatted st) ++
          [{| Core.t_id := Core.t_id last; Core.t_role := Core.t_role last;
              Core.t_text := (Core.t_text last ++ text)%string;
              Core.t_timestamp := Core.t_timestamp last |}]
        else
          App.transcriptsFormatted st' = App.transcriptsFormatted st ++ [entry]
    end.
Proof.
  intros Htrim Hfmt st'.
  destruct (App_appendTranscript_kept host role (Some (JStr text)) st)
    as [id Hid].
  { rewrite extract_string. exact Htrim. }
  rewrite extract_string in Hid.
  exists id. cbv zeta.
  assert (Hst' : App.transcriptsFormatted st' =
                 App.format_item (App.transcriptsFormatted st)
                   {| Core.t_id := id; Core.t_role := role; Core.t_text := text;
                      Core.t_timestamp := Core.Date_now host |}).
  { unfold st'. rewrite Hid. cbn. rewrite formatTranscripts_snoc, <- Hfmt.
    reflexivity. }
  rewrite Hst'. unfold App.format_item. cbn.
  destruct (App.lastOf (App.transcriptsFormatted st)) as [last |] eqn:E.
  - destruct (Core.Role_eqb (Core.t_role last) role); reflexivity.
  - apply lastOf_None in E. rewrite E. reflexivity.
Qed.

(** The fragments of the specification's example, as the payloads of three
    transcript envelopes. *)
Lemma App_aggregation_example host url0 stored :
  map (fun t => (Core.t_role t, Core.t_text t))
    (App.transcriptsFormatted
       (App.deliver host
          [(Core.user, Some (JStr "Hel")); (Core.user, Some (JStr "lo"));
           (Core.assistant, Some (JStr "Hi"))]
          (App.initial url0 stored))) =
  [(Core.user, "Hello"); (Core.assistant, "Hi")].
Proof. reflexivity. Qed.

(** The earlier copy: whatever the transcript holds, a fragment with a
    non-empty text is appended as an entry of its own, because the role the
    memoised callback compares with is the empty string for ever. *)
Lemma Legacy_appendTranscript_appends host role payload st prev :
  Core.extractTranscriptText host payload <> EmptyString ->
  LegacyApp.transcripts st = Some prev ->
  LegacyApp.transcripts (LegacyApp.appendTranscript host role payload st) =
  Some (prev ++
        [{| Core.t_id := LegacyApp.transcriptIdRef st + 1; Core.t_role := role;
            Core.t_text := Core.extractTranscriptText host payload;
            Core.t_timestamp := Core.Date_now host |}]).
Proof.
  intros Htext Hprev.
  unfold LegacyApp.appendTranscript, LegacyApp.appendTranscript_body.
  apply truthy_true_iff in Htext. rewrite Htext.
  destruct role; cbn; rewrite Hprev; reflexivity.
Qed.

Lemma Legacy_appendTranscript_dropped host role payload st :
  Core.extractTranscriptText host payload = EmptyString ->
  LegacyApp.appendTranscript host role payload st = st.
Proof.
  intros Htext.
  unfold LegacyApp.appendTranscript, LegacyApp.appendTranscript_body.
  apply truthy_false_iff in Htext. rewrite Htext. reflexivity.
Qed.

(** C1.  The earlier copy of the component, given the three fragments
    (user, Hel), (user, lo), (assistant, Hi) of the specification's example,
    ends with three entries: the two user fragments are not concatenated. *)
Theorem legacy_fragments_not_merged host url0 stored :
  option_map (map (fun t => (Core.t_role t, Core.t_text t)))
    (LegacyApp.transcripts
       (LegacyApp.deliver host
          [(Core.user, Some (JStr "Hel")); (Core.user, Some (JStr "lo"));
           (Core.assistant, Some (JStr "Hi"))]
          (LegacyApp.initial url0 stored))) =
  Some [(Core.user, "Hel"); (Core.user, "lo"); (Core.assistant, "Hi")].
Proof. reflexivity. Qed.

(** The text extracted from a falsy payload is empty. *)
Lemma extract_falsy host payload :
  truthy payload = false ->
  Core.extractTranscriptText host payload = EmptyString.
Proof.
  intros H. unfold Core.extractTranscriptText. rewrite H. reflexivity.
Qed.

(** The text extracted from a truthy payload that is not a string and has
    none of the fields looked for is its JSON serialisation. *)
Lemma extract_fallback host v :
  truthy (Some v) = true ->
  as_string (Some v) = None ->
  as_string (get "text" v) = None ->
  as_string (get "transcript" v) = None ->
  as_array (get "segments" v) = None ->
  as_array (get "transcripts" v) = None ->
  Core.extractTranscriptText host (Some v) =
  JSON_stringify (Core.Number_toString host) v.
Proof.
  intros Ht Hs H1 H2 H3 H4. unfold Core.extractTranscriptText.
  rewrite Ht. cbn [negb].
  destruct v as [| b | n | s | elems | fields]; try reflexivity.
  - discriminate Hs.
  - cbn [is_object]. rewrite H1, H2, H3, H4. reflexivity.
Qed.

(** The serialisation of an array or of an object is never blank. *)
Lemma trim_bracket c s :
  Str.is_white c = false -> Str.trim (String c s) <> EmptyString.
Proof.
  intros Hc. unfold Str.trim. cbn [Str.trimStart]. rewrite Hc.
  cbn [Str.trimEnd]. destruct (Str.trimEnd s); [rewrite Hc |]; discriminate.
Qed.

Lemma stringify_container_not_blank f v :
  is_object v = true -> v <> JNull ->
  Str.trim (JSON_stringify f v) <> EmptyString.
Proof.
  destruct v as [| b | n | s | elems | fields]; cbn [is_object];
    intros Ho Hn; try discriminate Ho; try congruence.
  - cbn [JSON_stringify]. apply trim_bracket. reflexivity.
  - cbn [JSON_stringify]. apply trim_bracket. reflexivity.
Qed.

(** Every object or array payload that has none of the fields looked for is
    kept by the current copy, with its serialisation as text. *)
Lemma non_extractable_container_kept host role v st :
  is_object v = true -> v <> JNull ->
  as_string (get "text" v) = None ->
  as_string (get "transcript" v) = None ->
  as_array (get "segments" v) = None ->
  as_array (get "transcripts" v) = None ->
  exists id,
    App.transcripts (App.appendTranscript host role (Some v) st) =
    App.transcripts st ++
    [{| Core.t_id := id; Core.t_role := role;
        Core.t_text := JSON_stringify (Core.Number_toString host) v;
        Core.t_timestamp := Core.Date_now host |}].
Proof.
  intros Ho Hn H1 H2 H3 H4.
  assert (Htext : Core.extractTranscriptText host (Some v) =
                  JSON_stringify (Core.Number_toString host) v).
  { apply extract_fallback; try assumption;
      destruct v; try discriminate Ho; try congruence; reflexivity. }
  destruct (App_appendTranscript_kept host role (Some v) st) as [id Hid].
  { rewrite Htext. apply stringify_container_not_blank; assumption. }
  exists id. rewrite Hid, Htext. reflexivity.
Qed.

(** C7 (as amended).  A transcript payload is dropped, the transcript being
    left as it is, when the text extracted from it is empty (in the current
    copy: empty or white space only), which is the case of every falsy
    payload (absent, null, false, 0, the empty string).  Otherwise an entry
    holding the extracted text is appended.  A truthy payload that is not a
    string and has no [text] or [transcript] string and no [segments] or
    [transcripts] array is not dropped: the text extracted from it is its
    JSON serialisation. *)
Theorem transcript_payload_rule host role payload :
  let text := Core.extractTranscriptText host payload in
  (truthy payload = false -> text = EmptyString) /\
  (forall st, Str.trim text = EmptyString ->
     App.appendTranscript host role payload st = st) /\
  (forall st, text = EmptyString ->
     LegacyApp.appendTranscript host role payload st = st) /\
  (forall st, Str.trim text <> EmptyString ->
     exists id,
       App.transcripts (App.appendTranscript host role payload st) =
       App.transcripts st ++
       [{| Core.t_id := id; Core.t_role := role; Core.t_text := text;
           Core.t_timestamp := Core.Date_now host |}]) /\
  (forall st prev, text <> EmptyString ->
     LegacyApp.transcripts st = Some prev ->
     exists id,
       LegacyApp.transcripts (LegacyApp.appendTranscript host role payload st) =
       Some (prev ++
             [{| Core.t_id := id; Core.t_role := role; Core.t_text := text;
                 Core.t_timestamp := Core.Date_now host |}])) /\
  (forall v, payload = Some v ->
     truthy payload = true ->
     as_string payload = None ->
     as_string (get "text" v) = None ->
     as_string (get "transcript" v) = None ->
     as_array (get "segments" v) = None ->
     as_array (get "transcripts" v) = None ->
     text = JSON_stringify (Core.Number_toString host) v).
Proof.
  cbv zeta.
  refine (conj _ (conj _ (conj _ (conj _ (conj _ _))))).
  - apply extract_falsy.
  - intros st H. apply App_appendTranscript_dropped, H.
  - intros st H. apply Legacy_appendTranscript_dropped, H.
  - intros st H.
    destruct (App_appendTranscript_kept host role payload st H) as [id Hid].
    exists id. rewrite Hid. reflexivity.
  - intros st prev H Hprev. eexists.
    apply Legacy_appendTranscript_appends; assumption.
  - intros v -> Ht Hs H1 H2 H3 H4. apply extract_fallback; assumption.
Qed.

Lemma transcript_payload_rule_witness :
  Core.extractTranscriptText Sample.host (Some (JObj [])) = "{}" /\
  exists id,
    App.transcripts
      (App.appendTranscript Sample.host Core.user (Some (JObj [])) Sample.fresh) =
    [{| Core.t_id := id; Core.t_role := Core.user; Core.t_text := "{}";
        Core.t_timestamp := 0 |}].
Proof.
  destruct (transcript_payload_rule Sample.host Core.user (Some (JObj [])))
    as (_ & _ & _ & Hkept & _ & Hjson).
  split.
  - apply (Hjson (JObj [])); reflexivity.
  - apply (Hkept Sample.fresh). discriminate.
Defined.

(** C7 (as stated) fails: a transcript envelope whose payload is the empty
    object (not a string, no [text] or [transcript] field, no [segments] or
    [transcripts] array) is not dropped.  Both copies of the component
    append an entry whose text is the serialised payload. *)
Lemma non_extractable_payload_appended :
  let payload := get "payload" Sample.empty_object_transcript in
  let cl := Core.snapshot (App.core Sample.fresh) in
  (payload = Some (JObj []) /\
   as_string payload = None /\
   get "text" (JObj []) = None /\ get "transcript" (JObj []) = None /\
   get "segments" (JObj []) = None /\ get "transcripts" (JObj []) = None) /\
  App.transcripts Sample.fresh = [] /\
  map (fun t => (Core.t_role t, Core.t_text t))
    (App.transcripts
       (App.handleServerMessage cl Sample.host
          (Some Sample.empty_object_transcript) Sample.fresh)) =
  [(Core.user, "{}")] /\
  map (fun t => (Core.t_role t, Core.t_text t))
    (App.transcriptsFormatted
       (App.render
          (App.handleServerMessage cl Sample.host
             (Some Sample.empty_object_transcript) Sample.fresh))) =
  [(Core.user, "{}")] /\
  option_map (map (fun t => (Core.t_role t, Core.t_text t)))
    (LegacyApp.transcripts
       (LegacyApp.handleServerMessage cl Sample.host
          (Some Sample.empty_object_transcript) Sample.legacy_fresh)) =
  Some [(Core.user, "{}")].
Proof. cbv zeta. repeat split. Qed.

End TranscriptFacts.

(** ** Connection state machine *)

Module SessionFacts.

Import Json Core Scenario Machine.
Local Open Scope string_scope.
Local Open Scope list_scope.
Local Open Scope Z_scope.

(** [appendMessage] touches the message log only. *)
Lemma appendMessage_frame role text st :
  let st' := appendMessage role text st in
  status st' = status st /\ websocketRef st' = websocketRef st /\
  resumeHandle st' = resumeHandle st /\
  resumeHandleRef st' = resumeHandleRef st /\
  manualDisconnectRef st' = manualDisconnectRef st /\
  reconnectTimeoutRef st' = reconnectTimeoutRef st /\
  reconnectAttemptsRef st' = reconnectAttemptsRef st /\
  connectionAttemptRef st' = connectionAttemptRef st /\
  timers st' = timers st /\ nextTimerId st' = nextTimerId st /\
  serverInfo st' = serverInfo st /\
  audioContextRef st' = audioContextRef st /\
  playbackTimeRef st' = playbackTimeRef st /\
  micStreamRef st' = micStreamRef st /\
  videoStreamRef st' = videoStreamRef st.
Proof.
  unfold appendMessage. destruct (Str.truthy text); cbn; repeat split.
Qed.

(** An envelope that has a [type] is an object. *)
Lemma typed_is_object data t :
  get "type" data = Some t -> exists fields, data = JObj fields.
Proof.
  destruct data; cbn; try discriminate. eauto.
Qed.

(** The case of a dispatcher that the type [H] of the envelope selects. *)
Ltac dispatch_case H :=
  let fields := fresh "fields" in
  destruct (typed_is_object _ _ H) as [fields ->];
  unfold App.handleServerMessage, LegacyApp.handleServerMessage;
  rewrite H; reflexivity.

(** *** Reconnection policy *)

Lemma clearReconnectTimeout_no_timers st :
  timers st = [] ->
  timers (clearReconnectTimeout st) = [] /\
  reconnectTimeoutRef (clearReconnectTimeout st) = None.
Proof.
  intros H. unfold clearReconnectTimeout, clearTimeout.
  destruct (reconnectTimeoutRef st) eqn:E; cbn; rewrite ?H; auto.
Qed.

(** An unexpected closure that is attempt [k + 1] of at most five schedules
    one reconnection, after [reconnectDelay (k + 1)] milliseconds. *)
Lemma ws_onclose_schedules host st k :
  manualDisconnectRef st = false ->
  handle_truthy (resumeHandleRef st) = true ->
  reconnectAttemptsRef st = k ->
  k + 1 <= 5 ->
  timers st = [] ->
  let st' := ws_onclose host st in
  let t := {| timer_id := nextTimerId st; timer_delay := reconnectDelay (k + 1) |} in
  status st' = connecting /\
  timers st' = [t] /\
  reconnectTimeoutRef st' = Some (timer_id t) /\
  reconnectAttemptsRef st' = k + 1 /\
  manualDisconnectRef st' = false /\
  resumeHandleRef st' = resumeHandleRef st /\
  websocketRef st' = None /\
  connectionAttemptRef st' = false.
Proof.
  intros Hm Hh Hk Hle Ht. cbv zeta.
  unfold ws_onclose.
  unfold clearReconnectTimeout, clearTimeout, cleanupMedia, stopVideoCapture, stopAudioCapture.
  cbn.
  destruct (reconnectTimeoutRef st) eqn:E; cbn; rewrite Hm, Hh, Hk; cbn.
  all: assert (Hgt : (k + 1 >? 5) = false) by lia; rewrite Hgt.
  all: unfold setTimeout, appendMessage; cbn.
  all: rewrite Ht; cbn; repeat split; assumption.
Qed.

(** An unexpected closure past the fifth attempt schedules nothing. *)
Lemma ws_onclose_gives_up host st k :
  manualDisconnectRef st = false ->
  handle_truthy (resumeHandleRef st) = true ->
  reconnectAttemptsRef st = k ->
  5 < k + 1 ->
  let st' := ws_onclose host st in
  status st' = error /\
  timers st' = timers (clearReconnectTimeout st) /\
  reconnectTimeoutRef st' = None /\
  reconnectAttemptsRef st' = k + 1 /\
  websocketRef st' = None /\
  connectionAttemptRef st' = false.
Proof.
  intros Hm Hh Hk Hle. cbv zeta.
  unfold ws_onclose.
  unfold clearReconnectTimeout, clearTimeout, cleanupMedia, stopVideoCapture, stopAudioCapture.
  cbn.
  destruct (reconnectTimeoutRef st) eqn:E; cbn; rewrite Hm, Hh, Hk; cbn.
  all: assert (Hgt : (k + 1 >? 5) = true) by lia; rewrite Hgt.
  all: cbn; repeat split; assumption.
Qed.

(** The scheduled reconnection runs and its socket fails. *)
Lemma failed_attempt cl st t :
  timers st = [t] ->
  websocketRef st = None ->
  connectionAttemptRef st = false ->
  let st' := ws_onerror (timer_fire cl (timer_id t) st) in
  timers st' = [] /\
  manualDisconnectRef st' = false /\
  resumeHandleRef st' = resumeHandleRef st /\
  reconnectAttemptsRef st' = reconnectAttemptsRef st /\
  status st' = error /\
  (exists ws, websocketRef st' = Some ws /\ isReconnect ws = true).
Proof.
  intros Ht Hws Hc. cbv zeta.
  unfold ws_onerror, timer_fire, connect, clearTimeout. rewrite Ht. cbn.
  rewrite Z.eqb_refl. cbn. rewrite Hws, Hc. cbn.
  repeat split. eexists. split; reflexivity.
Qed.


Lemma reconnectDelay_values :
  map reconnectDelay [1; 2; 3; 4; 5] = [1000; 2000; 4000; 8000; 10000].
Proof. reflexivity. Qed.

(** A closure that schedules a reconnection, followed by the failure of
    the attempt. *)
Lemma unexpected_closures_step n cl host st k :
  manualDisconnectRef st = false ->
  handle_truthy (resumeHandleRef st) = true ->
  reconnectAttemptsRef st = k ->
  k + 1 <= 5 ->
  timers st = [] ->
  exists st2,
    unexpected_closures (S n) cl host st =
    (reconnectDelay (k + 1) :: fst (unexpected_closures n cl host st2),
     snd (unexpected_closures n cl host st2)) /\
    manualDisconnectRef st2 = false /\
    handle_truthy (resumeHandleRef st2) = true /\
    reconnectAttemptsRef st2 = k + 1 /\
    timers st2 = [].
Proof.
  intros Hm Hh Hk Hle Ht.
  destruct (ws_onclose_schedules host st k Hm Hh Hk Hle Ht)
    as (Hs & Htm & Hr & Ha & Hm1 & Hh1 & Hw & Hc).
  set (st1 := ws_onclose host st) in *.
  set (t := {| timer_id := nextTimerId st; timer_delay := reconnectDelay (k + 1) |}) in *.
  destruct (failed_attempt cl st1 t Htm Hw Hc) as (Ht2 & Hm2 & Hh2 & Ha2 & _ & _).
  exists (ws_onerror (timer_fire cl (timer_id t) st1)).
  split.
  - cbn [unexpected_closures]. fold st1.
    unfold pending_reconnect. rewrite Hr, Htm. cbn [find timer_id].
    rewrite Z.eqb_refl.
    destruct (unexpected_closures n cl host _) as [ds s]. reflexivity.
  - repeat split; try assumption; congruence.
Qed.

Lemma unexpected_closures_last n cl host st :
  manualDisconnectRef st = false ->
  handle_truthy (resumeHandleRef st) = true ->
  reconnectAttemptsRef st = 5 ->
  timers st = [] ->
  unexpected_closures (S n) cl host st = ([], ws_onclose host st) /\
  status (ws_onclose host st) = error /\
  timers (ws_onclose host st) = [] /\
  pending_reconnect (ws_onclose host st) = None.
Proof.
  intros Hm Hh Hk Ht.
  destruct (ws_onclose_gives_up host st 5 Hm Hh Hk ltac:(lia))
    as (Hs & Htm & Hr & _).
  destruct (clearReconnectTimeout_no_timers st Ht) as [Ht' _].
  assert (Hp : pending_reconnect (ws_onclose host st) = None).
  { unfold pending_reconnect. rewrite Hr. reflexivity. }
  repeat split; try assumption; try congruence.
  cbn [unexpected_closures]. rewrite Hp. reflexivity.
Qed.


(** From a session that has made [k] attempts, the run schedules the
    attempts [k + 1] to 5 and gives up at the closure that follows. *)
Lemma unexpected_closures_run m : forall n cl host st k,
  manualDisconnectRef st = false ->
  handle_truthy (resumeHandleRef st) = true ->
  reconnectAttemptsRef st = k ->
  k + Z.of_nat m = 5 ->
  timers st = [] ->
  (m < n)%nat ->
  fst (unexpected_closures n cl host st) =
    map (fun i => reconnectDelay (k + Z.of_nat i)) (seq 1 m) /\
  status (snd (unexpected_closures n cl host st)) = error /\
  timers (snd (unexpected_closures n cl host st)) = [] /\
  pending_reconnect (snd (unexpected_closures n cl host st)) = None.
Proof.
  induction m as [| m IH]; intros n cl host st k Hm Hh Hk Hsum Ht Hn;
    destruct n as [| n]; try lia.
  - destruct (unexpected_closures_last n cl host st Hm Hh ltac:(lia) Ht)
      as (E & Hs & Htm & Hp).
    rewrite E. cbn. auto.
  - destruct (unexpected_closures_step n cl host st k Hm Hh Hk ltac:(lia) Ht)
      as (st2 & E & Hm2 & Hh2 & Hk2 & Ht2).
    destruct (IH n cl host st2 (k + 1) Hm2 Hh2 Hk2 ltac:(lia) Ht2 ltac:(lia))
      as (Hd & Hs & Htm & Hp).
    rewrite E. cbn [fst snd]. rewrite Hd. repeat split; try assumption.
    change (seq 1 (S m)) with (1%nat :: seq 2 m). cbn [map].
    replace (k + Z.of_nat 1) with (k + 1) by lia. f_equal.
    rewrite <- (seq_shift m 1), map_map. apply map_ext.
    intros i. f_equal. lia.
Qed.

(** C2.  In a run of consecutive unexpected closures of a session that has
    a resumption handle and was not disconnected by the user, starting from
    no attempt made, the reconnections are scheduled after 1000, 2000,
    4000, 8000 and 10000 ms, that is after
    [min(10000, 1000 * 2^(attempts - 1))] for the attempts 1 to 5; the sixth
    closure sets the status to [error] and leaves no reconnection
    scheduled. *)
Theorem reconnect_backoff cl host st n :
  manualDisconnectRef st = false ->
  handle_truthy (resumeHandleRef st) = true ->
  reconnectAttemptsRef st = 0 ->
  timers st = [] ->
  (6 <= n)%nat ->
  (forall attempts, 1 <= attempts ->
     reconnectDelay attempts = Z.min 10000 (1000 * 2 ^ (attempts - 1))) /\
  fst (unexpected_closures n cl host st) = [1000; 2000; 4000; 8000; 10000] /\
  status (snd (unexpected_closures n cl host st)) = error /\
  timers (snd (unexpected_closures n cl host st)) = [] /\
  pending_reconnect (snd (unexpected_closures n cl host st)) = None.
Proof.
  intros Hm Hh Hk Ht Hn. split.
  - intros a Ha. unfold reconnectDelay. rewrite Z.max_r by lia. reflexivity.
  - apply (unexpected_closures_run 5 n cl host st 0); auto; lia.
Qed.

Lemma reconnect_backoff_witness :
  let st := App.core Sample.connected in
  (manualDisconnectRef st = false /\
   handle_truthy (resumeHandleRef st) = true /\
   reconnectAttemptsRef st = 0 /\ timers st = []) /\
  fst (unexpected_closures 6 Sample.cl0 Sample.host st)
  = [1000; 2000; 4000; 8000; 10000] /\
  status (snd (unexpected_closures 6 Sample.cl0 Sample.host st)) = error /\
  timers (snd (unexpected_closures 6 Sample.cl0 Sample.host st)) = [].
Proof.
  cbv zeta. split; [repeat split |].
  pose proof (reconnect_backoff Sample.cl0 Sample.host
                (App.core Sample.connected) 6
                eq_refl eq_refl eq_refl eq_refl (le_n 6)) as H.
  destruct H as (_ & Hd & Hs & Ht & _). repeat split; assumption.
Defined.

(** *** Terminal envelopes *)

Lemma App_dispatch_session_expired cl host data st :
  get "type" data = Some (JStr "session_expired") ->
  App.handleServerMessage cl host (Some data) st =
  App.on_core (App.on_session_expired data) st.
Proof. intros H. dispatch_case H. Qed.

Lemma Legacy_dispatch_session_expired cl host data st :
  get "type" data = Some (JStr "session_expired") ->
  LegacyApp.handleServerMessage cl host (Some data) st = st.
Proof. intros H. dispatch_case H. Qed.



(** Closing the socket of the session for a terminal envelope. *)
Lemma terminal_close args st st0 :
  websocketRef st = websocketRef st0 ->
  let st' := match websocketRef st with
             | Some ws => if is_open ws then close_socket (Some args) st else st
             | None => st
             end in
  (forall ws, websocketRef st0 = Some ws -> readyState ws = OPEN ->
     exists ws', websocketRef st' = Some ws' /\ readyState ws' = CLOSING /\
                 closeArgs ws' = Some (Some args)) /\
  (forall ws', websocketRef st' = Some ws' -> readyState ws' <> OPEN) /\
  manualDisconnectRef st' = manualDisconnectRef st /\
  resumeHandle st' = resumeHandle st /\
  resumeHandleRef st' = resumeHandleRef st /\
  reconnectTimeoutRef st' = reconnectTimeoutRef st /\
  reconnectAttemptsRef st' = reconnectAttemptsRef st /\
  timers st' = timers st.
Proof.
  intros Hws. cbv zeta. rewrite <- Hws.
  destruct (websocketRef st) as [ws |] eqn:E;
    [destruct (is_open ws) eqn:O; unfold is_open in O |].
  - (* an open socket: closed with [args] *)
    destruct (readyState ws) eqn:R; try discriminate O.
    unfold close_socket, WebSocket_close. rewrite E, R. cbn.
    split; [| split; [| repeat split]].
    + intros ws0 _ _. eexists. repeat split.
    + intros ws' [= <-]. discriminate.
  - (* a socket that is not open: left as it is *)
    split; [| split; [| repeat split]].
    + intros ws0 [= <-] R. rewrite R in O. discriminate O.
    + rewrite E. intros ws' [= <-] R. rewrite R in O. discriminate O.
  - split; [| split; [| repeat split]]; intros; congruence.
Qed.

(** What the [session_expired] case of the current copy leaves. *)
Lemma on_session_expired_spec data st :
  let st' := App.on_session_expired data st in
  resumeHandle st' = None /\ resumeHandleRef st' = None /\
  manualDisconnectRef st' = true /\ status st' = disconnected /\
  reconnectAttemptsRef st' = 0 /\
  (forall ws, websocketRef st = Some ws -> readyState ws = OPEN ->
     exists ws', websocketRef st' = Some ws' /\ readyState ws' = CLOSING /\
                 closeArgs ws' = Some (Some (1000, "session expired"))) /\
  (forall ws', websocketRef st' = Some ws' -> readyState ws' <> OPEN) /\
  timers st' = timers st /\ reconnectTimeoutRef st' = reconnectTimeoutRef st.
Proof.
  cbv zeta. unfold App.on_session_expired.
  set (m := match as_string (get "message" data) with Some m => m | None => _ end).
  destruct (appendMessage_frame system m st)
    as (_ & Hws & _ & _ & _ & Hrt & _ & _ & Htm & _).
  set (st1 := appendMessage system m st) in *.
  set (st2 := set_reconnectAttemptsRef 0 (set_manualDisconnectRef true
               (set_resumeHandleRef None (setResumeHandle None st1)))).
  assert (H2 : websocketRef st2 = websocketRef st) by exact Hws.
  destruct (terminal_close (1000, "session expired") st2 st H2)
    as (Hc1 & Hc2 & Hm & Hh & Hr & Ht & Ha & Htm2).
  cbv zeta in *.
  set (st3 := match websocketRef st2 with Some _ => _ | None => _ end) in *.
  cbn. repeat split; try assumption.
  all: first [rewrite Htm2; exact Htm | rewrite Ht; exact Hrt].
Qed.


(** A closure asked for (or of a session without a handle) schedules
    nothing. *)
Lemma ws_onclose_intentional host st :
  manualDisconnectRef st = true \/ handle_truthy (resumeHandleRef st) = false ->
  let st' := ws_onclose host st in
  status st' = disconnected /\ reconnectTimeoutRef st' = None /\
  websocketRef st' = None /\
  timers st' = timers (clearReconnectTimeout st) /\
  incl (timers st') (timers st).
Proof.
  intros H. cbv zeta. unfold ws_onclose.
  unfold clearReconnectTimeout, clearTimeout, cleanupMedia, stopVideoCapture,
    stopAudioCapture. cbn.
  assert (Hg : negb (manualDisconnectRef st) && handle_truthy (resumeHandleRef st)
               = false).
  { destruct H as [-> | ->]; [reflexivity | apply andb_false_r]. }
  destruct (reconnectTimeoutRef st) eqn:E; cbn; rewrite Hg; cbn;
    repeat split; auto using incl_refl.
  intros t Ht. apply filter_In in Ht. tauto.
Qed.



(** *** Audio frames *)

Lemma App_dispatch_audio cl host data st :
  get "type" data = Some (JStr "audio") ->
  App.handleServerMessage cl host (Some data) st =
  App.on_core (on_audio cl host data) st.
Proof. intros H. dispatch_case H. Qed.

Lemma Legacy_dispatch_audio cl host data st :
  get "type" data = Some (JStr "audio") ->
  LegacyApp.handleServerMessage cl host (Some data) st =
  LegacyApp.on_core (on_audio cl host data) st.
Proof. intros H. dispatch_case H. Qed.

Lemma odd_mod2 n : Nat.odd n = true -> (Z.of_nat n mod 2 =? 0) = false.
Proof.
  intros H. apply Z.eqb_neq. intros E.
  apply Nat.odd_spec in H. destruct H as [m Hm].
  assert (Hn : Z.of_nat n = 1 + Z.of_nat m * 2) by lia.
  rewrite Hn, Z.mod_add in E by lia. discriminate E.
Qed.

Lemma playAssistantAudio_odd cl host base64 rate st bytes :
  Base64.base64ToUint8Array base64 = Some bytes ->
  Nat.odd (List.length bytes) = true ->
  playAssistantAudio cl host base64 rate st = ensureAudioContext st.
Proof.
  intros Hb Ho. unfold playAssistantAudio. rewrite Hb, (odd_mod2 _ Ho).
  reflexivity.
Qed.

Lemma ensureAudioContext_frame st :
  status (ensureAudioContext st) = status st /\
  playbackTimeRef (ensureAudioContext st) = playbackTimeRef st /\
  websocketRef (ensureAudioContext st) = websocketRef st /\
  (forall ctx, audioContextRef st = Some ctx -> ensureAudioContext st = st) /\
  (audioContextRef st = None ->
   audioContextRef (ensureAudioContext st) = Some {| started := [] |}).
Proof.
  unfold ensureAudioContext.
  destruct (audioContextRef st) eqn:E; cbn; repeat split; congruence.
Qed.

(** *** The play cursor *)

Lemma Math_max_ge_l a b : (a <= Codec.Math_max a b)%Q.
Proof.
  unfold Codec.Math_max. destruct (Qle_bool a b) eqn:E.
  - apply Qle_bool_iff. exact E.
  - apply Qle_refl.
Qed.

Lemma Math_max_ge_r a b : (b <= Codec.Math_max a b)%Q.
Proof.
  unfold Codec.Math_max. destruct (Qle_bool a b) eqn:E.
  - apply Qle_refl.
  - apply Qlt_le_weak, Qnot_le_lt. intros H.
    apply Qle_bool_iff in H. congruence.
Qed.

(** A frame never starts before the margin after the clock reading, nor
    before a cursor that is set. *)
Lemma startAt_bounds now cursor :
  (now + (1 # 20) <= startAt now cursor)%Q /\
  (~ cursor == 0 -> cursor <= startAt now cursor)%Q.
Proof.
  unfold startAt. split.
  - apply Math_max_ge_l.
  - intros Hc. destruct (Qeq_bool cursor 0) eqn:E.
    + apply Qeq_bool_iff in E. contradiction.
    + apply Math_max_ge_r.
Qed.

Lemma startAt_cursor now cursor :
  (0 <= now)%Q -> (cursor <= startAt now cursor)%Q.
Proof.
  intros Hnow. destruct (startAt_bounds now cursor) as [H1 H2].
  destruct (Qeq_dec cursor 0) as [E | E].
  - rewrite E at 1. lra.
  - apply H2, E.
Qed.

Lemma duration_positive floats rate :
  floats <> [] -> (0 < rate)%Q -> (0 < duration floats rate)%Q.
Proof.
  intros Hf Hr. unfold duration.
  apply Qlt_shift_div_l; [exact Hr |]. rewrite Qmult_0_l.
  destruct floats as [| x l]; [congruence |].
  unfold Qlt. cbn. lia.
Qed.

(** The two outcomes of [playAssistantAudio]: the frame is dropped, or a
    source is started at [startAt] and the cursor moves to its end. *)
Lemma playAssistantAudio_cases cl host base64 rate st :
  playAssistantAudio cl host base64 rate st = ensureAudioContext st \/
  exists floats r,
    floats <> [] /\ (0 < r)%Q /\
    playAssistantAudio cl host base64 rate st =
    set_playbackTimeRef
      (startAt (currentTime host) (playbackTimeRef st) + duration floats r)%Q
      (start_source
         {| src_samples := floats; src_sampleRate := r;
            src_startAt := startAt (currentTime host) (playbackTimeRef st) |}
         (ensureAudioContext st)).
Proof.
  unfold playAssistantAudio.
  destruct (Base64.base64ToUint8Array base64) as [bytes |]; [| now left].
  destruct (negb (Z.of_nat (List.length bytes) mod 2 =? 0)); [now left |].
  destruct (Z.of_nat (List.length (Base64.Int16Array_of_bytes bytes)) =? 0)
    eqn:Elen; [now left |].
  destruct (Qle_bool (targetSampleRate cl host rate) 0) eqn:Erate; [now left |].
  right. eexists. eexists. split; [| split].
  - intros Hnil. apply Z.eqb_neq in Elen. apply Elen.
    unfold Codec.int16ToFloat32 in Hnil. apply map_eq_nil in Hnil.
    rewrite Hnil. reflexivity.
  - apply Qnot_le_lt. intros H. apply Qle_bool_iff in H.
    rewrite H in Erate. discriminate Erate.
  - destruct (ensureAudioContext_frame st) as (_ & Hp & _).
    rewrite Hp. reflexivity.
Qed.

Lemma started_sources_ensure st :
  started_sources (ensureAudioContext st) = started_sources st.
Proof.
  unfold started_sources, ensureAudioContext.
  destruct (audioContextRef st) eqn:E; cbn; rewrite ?E; reflexivity.
Qed.

Lemma started_sources_start s cursor st :
  started_sources (set_playbackTimeRef cursor (start_source s (ensureAudioContext st)))
  = started_sources st ++ [s].
Proof.
  unfold started_sources, start_source, ensureAudioContext.
  destruct (audioContextRef st) eqn:E; cbn; rewrite ?E; reflexivity.
Qed.

(** What a call that started a source did. *)
Lemma playAssistantAudio_started cl host base64 rate st s :
  started_sources (playAssistantAudio cl host base64 rate st) =
  started_sources st ++ [s] ->
  src_startAt s = startAt (currentTime host) (playbackTimeRef st) /\
  playbackTimeRef (playAssistantAudio cl host base64 rate st) =
  (src_startAt s + src_duration s)%Q /\
  (0 < src_duration s)%Q.
Proof.
  intros H.
  destruct (playAssistantAudio_cases cl host base64 rate st)
    as [E | (floats & r & Hf & Hr & E)]; rewrite E in *.
  - rewrite started_sources_ensure in H.
    exfalso. apply (f_equal (@List.length _)) in H.
    rewrite length_app in H. cbn in H. lia.
  - rewrite started_sources_start in H. apply app_inj_tail in H.
    destruct H as [_ <-]. cbn. repeat split.
    apply duration_positive; assumption.
Qed.

(** C4.  Two frames scheduled one after the other by [playAssistantAudio],
    whatever the clock readings at their arrival (the first one not
    negative): each starts at [max(now + 0.05, cursor)] and moves the cursor
    to its end, the second starts no earlier than the first ends, and the
    play cursor never decreases. *)
Theorem playback_back_to_back cl1 cl2 h1 h2 b1 r1 b2 r2 st0 s1 s2 :
  (0 <= currentTime h1)%Q ->
  let st1 := playAssistantAudio cl1 h1 b1 r1 st0 in
  let st2 := playAssistantAudio cl2 h2 b2 r2 st1 in
  started_sources st1 = started_sources st0 ++ [s1] ->
  started_sources st2 = started_sources st1 ++ [s2] ->
  src_startAt s1 = startAt (currentTime h1) (playbackTimeRef st0) /\
  playbackTimeRef st1 = (src_startAt s1 + src_duration s1)%Q /\
  src_startAt s2 = startAt (currentTime h2) (playbackTimeRef st1) /\
  playbackTimeRef st2 = (src_startAt s2 + src_duration s2)%Q /\
  (src_startAt s1 + src_duration s1 <= src_startAt s2)%Q /\
  (playbackTimeRef st0 <= playbackTimeRef st1)%Q /\
  (playbackTimeRef st1 <= playbackTimeRef st2)%Q.
Proof.
  intros Hnow st1 st2 H1 H2.
  destruct (playAssistantAudio_started _ _ _ _ _ _ H1) as (Hs1 & Hc1 & Hd1).
  destruct (playAssistantAudio_started _ _ _ _ _ _ H2) as (Hs2 & Hc2 & Hd2).
  fold st1 in Hc1, Hs2. fold st2 in Hc2.
  destruct (startAt_bounds (currentTime h1) (playbackTimeRef st0)) as [Hm1 _].
  pose proof (startAt_cursor _ (playbackTimeRef st0) Hnow) as Hk1.
  rewrite <- Hs1 in Hm1, Hk1.
  assert (Hpos : (0 < playbackTimeRef st1)%Q) by (rewrite Hc1; lra).
  destruct (startAt_bounds (currentTime h2) (playbackTimeRef st1)) as [_ Hk2].
  rewrite <- Hs2 in Hk2.
  assert (Hge : (playbackTimeRef st1 <= src_startAt s2)%Q).
  { apply Hk2. intros E. rewrite E in Hpos. lra. }
  repeat split; try assumption.
  - rewrite <- Hc1. exact Hge.
  - rewrite Hc1. lra.
  - rewrite Hc2. lra.
Qed.

(** *** The invariant of the state machine *)

Lemma quiet_refl c : quiet c c.
Proof. unfold quiet. auto. Qed.

Lemma quiet_trans c1 c2 c3 : quiet c1 c2 -> quiet c2 c3 -> quiet c1 c3.
Proof.
  unfold quiet. intros (A1 & B1 & C1 & D1 & E1) (A2 & B2 & C2 & D2 & E2).
  repeat split; try congruence; auto.
Qed.

Lemma quiet_appendMessage role text c : quiet c (appendMessage role text c).
Proof.
  unfold quiet, socket_in, appendMessage.
  destruct (Str.truthy text); cbn; auto.
Qed.

(** Setting fields that are neither the socket, the audio context nor the
    timeouts. *)
Lemma quiet_fields c c' :
  websocketRef c' = websocketRef c ->
  audioContextRef c' = audioContextRef c ->
  timers c' = timers c ->
  reconnectTimeoutRef c' = reconnectTimeoutRef c ->
  quiet c c'.
Proof.
  unfold quiet, socket_in. intros -> -> -> ->. auto.
Qed.

Lemma quiet_close args c :
  quiet c (match websocketRef c with
           | Some ws => if is_open ws then close_socket args c else c
           | None => c
           end).
Proof.
  destruct (websocketRef c) as [ws |] eqn:E; [| apply quiet_refl].
  destruct (is_open ws) eqn:O; [| apply quiet_refl].
  unfold quiet, socket_in, close_socket, WebSocket_close. rewrite E.
  unfold is_open in O.
  destruct (readyState ws) eqn:R; try discriminate O. cbn. rewrite ?E, ?R.
  repeat split; auto.
Qed.

Lemma quiet_on_status data c : quiet c (on_status data c).
Proof.
  unfold on_status. eapply quiet_trans; [| apply quiet_appendMessage].
  apply quiet_fields; unfold setResumeHandle;
    destruct (as_string (get "resumeHandle" data)) as [h |];
    try destruct (Str.truthy h); reflexivity.
Qed.

Lemma quiet_ensureAudioContext c : quiet c (ensureAudioContext c).
Proof.
  unfold quiet, socket_in, ensureAudioContext.
  destruct (audioContextRef c) eqn:E; cbn; rewrite ?E; repeat split; auto.
Qed.

Lemma quiet_playAssistantAudio cl host base64 rate c :
  quiet c (playAssistantAudio cl host base64 rate c).
Proof.
  destruct (playAssistantAudio_cases cl host base64 rate c)
    as [-> | (floats & r & _ & _ & ->)].
  - apply quiet_ensureAudioContext.
  - eapply quiet_trans; [apply quiet_ensureAudioContext |].
    unfold quiet, socket_in, start_source.
    destruct (audioContextRef (ensureAudioContext c)) eqn:E; cbn;
      rewrite ?E; repeat split; auto.
Qed.

Lemma quiet_on_audio cl host data c : quiet c (on_audio cl host data c).
Proof.
  unfold on_audio. destruct (as_string (get "data" data)).
  - apply quiet_playAssistantAudio.
  - apply quiet_refl.
Qed.

Lemma quiet_on_text data c : quiet c (on_text data c).
Proof.
  unfold on_text. destruct (as_string (get "text" data)).
  - apply quiet_appendMessage.
  - apply quiet_refl.
Qed.

Lemma quiet_on_monitor cl host data c : quiet c (on_monitor cl host data c).
Proof.
  unfold on_monitor.
  destruct (is_string "look_away_warning" (get "event" data));
    [| destruct (is_string "look_away_terminated" (get "event" data))];
    try apply quiet_refl;
    (eapply quiet_trans; [| apply quiet_appendMessage]);
    apply quiet_fields; reflexivity.
Qed.

Lemma quiet_on_recordings data c : quiet c (on_recordings data c).
Proof.
  unfold on_recordings.
  match goal with |- context [match ?l with [] => _ | _ => _ end] =>
    destruct l end.
  - apply quiet_refl.
  - apply quiet_appendMessage.
Qed.

Lemma quiet_on_session_complete data c :
  quiet c (on_session_complete data c).
Proof.
  unfold on_session_complete.
  set (m := ("Session complete (" ++ _)%string).
  eapply quiet_trans; [apply (quiet_appendMessage system m) |].
  set (c1 := appendMessage system m c).
  set (c2 := setResumeHandle None _).
  eapply quiet_trans; [apply (quiet_fields c1 c2); reflexivity |].
  eapply quiet_trans; [apply (quiet_close (Some (1000, "session complete"))) |].
  apply quiet_fields; reflexivity.
Qed.

Lemma quiet_on_session_expired data c :
  quiet c (App.on_session_expired data c).
Proof.
  unfold App.on_session_expired.
  set (m := match as_string (get "message" data) with Some m => m | None => _ end).
  eapply quiet_trans; [apply (quiet_appendMessage system m) |].
  set (c1 := appendMessage system m c).
  set (c2 := set_reconnectAttemptsRef 0 _).
  eapply quiet_trans; [apply (quiet_fields c1 c2); reflexivity |].
  eapply quiet_trans; [apply (quiet_close (Some (1000, "session expired"))) |].
  apply quiet_fields; reflexivity.
Qed.

Lemma quiet_on_context_ack host data c : quiet c (App.on_context_ack host data c).
Proof.
  unfold App.on_context_ack.
  destruct (match as_array (get "updated" data) with Some l => l | None => [] end);
    apply quiet_appendMessage.
Qed.

Lemma quiet_App_on_error data c : quiet c (App.on_error data c).
Proof.
  unfold App.on_error.
  eapply quiet_trans; [apply quiet_appendMessage |].
  apply quiet_fields; reflexivity.
Qed.

Lemma quiet_Legacy_on_error data c : quiet c (LegacyApp.on_error data c).
Proof.
  unfold LegacyApp.on_error.
  eapply quiet_trans; [apply quiet_appendMessage |].
  apply quiet_fields; reflexivity.
Qed.

Lemma quiet_Legacy_on_session_resumption data c :
  quiet c (LegacyApp.on_session_resumption data c).
Proof.
  unfold LegacyApp.on_session_resumption.
  destruct (as_string (get "handle" data)) as [h |]; [| apply quiet_refl].
  destruct (Str.truthy h); [| apply quiet_refl].
  eapply quiet_trans; [| apply quiet_appendMessage].
  apply quiet_fields; reflexivity.
Qed.

Lemma App_core_appendTranscript host role payload st :
  App.core (App.appendTranscript host role payload st) = App.core st.
Proof.
  unfold App.appendTranscript.
  destruct (_ || _); reflexivity.
Qed.

Lemma Legacy_core_appendTranscript host role payload st :
  LegacyApp.core (LegacyApp.appendTranscript host role payload st) =
  LegacyApp.core st.
Proof.
  unfold LegacyApp.appendTranscript, LegacyApp.appendTranscript_body.
  destruct (negb _); [reflexivity |]. destruct (negb _); reflexivity.
Qed.

Lemma quiet_App_on_transcript host data st :
  quiet (App.core st) (App.core (App.on_transcript host data st)).
Proof.
  unfold App.on_transcript. destruct (as_string (get "role" data)).
  - rewrite App_core_appendTranscript. apply quiet_refl.
  - apply quiet_refl.
Qed.

Lemma quiet_Legacy_on_transcript host data st :
  quiet (LegacyApp.core st) (LegacyApp.core (LegacyApp.on_transcript host data st)).
Proof.
  unfold LegacyApp.on_transcript. destruct (as_string (get "role" data)).
  - rewrite Legacy_core_appendTranscript. apply quiet_refl.
  - apply quiet_refl.
Qed.

Lemma quiet_App_on_session_resumption data st :
  quiet (App.core st) (App.core (App.on_session_resumption data st)).
Proof.
  unfold App.on_session_resumption.
  destruct (as_string (get "handle" data)) as [h |]; [| apply quiet_refl].
  destruct (Str.truthy h); [| apply quiet_refl].
  cbn [App.on_core App.core App.set_core App.set_aiSessionId].
  eapply quiet_trans; [| apply quiet_appendMessage].
  apply quiet_fields; reflexivity.
Qed.

Ltac dispatcher_cases :=
  repeat match goal with
         | |- context [if is_string ?s ?t then _ else _] =>
             destruct (is_string s t)
         end.

(** Every case of the dispatcher of the current copy is quiet. *)
Lemma quiet_App_handleServerMessage cl host parsed st :
  quiet (App.core st) (App.core (App.handleServerMessage cl host parsed st)).
Proof.
  unfold App.handleServerMessage.
  destruct parsed as [data |]; [| apply quiet_refl].
  destruct data; try apply quiet_refl.
  dispatcher_cases; try apply quiet_refl;
    cbn [App.on_core App.core App.set_core];
    auto using quiet_on_status, quiet_on_audio, quiet_on_text,
      quiet_on_monitor, quiet_on_recordings, quiet_on_session_complete,
      quiet_on_session_expired, quiet_on_context_ack, quiet_App_on_error,
      quiet_App_on_transcript, quiet_App_on_session_resumption.
Qed.

(** So is every case of the dispatcher of the earlier copy. *)
Lemma quiet_Legacy_handleServerMessage cl host parsed st :
  quiet (LegacyApp.core st)
    (LegacyApp.core (LegacyApp.handleServerMessage cl host parsed st)).
Proof.
  unfold LegacyApp.handleServerMessage.
  destruct parsed as [data |]; [| apply quiet_refl].
  destruct data; try apply quiet_refl.
  dispatcher_cases; try apply quiet_refl;
    cbn [LegacyApp.on_core LegacyApp.core LegacyApp.set_core];
    auto using quiet_on_status, quiet_on_audio, quiet_on_text,
      quiet_on_monitor, quiet_on_recordings, quiet_on_session_complete,
      quiet_Legacy_on_error, quiet_Legacy_on_transcript,
      quiet_Legacy_on_session_resumption.
Qed.

Lemma Invariant_initial url0 stored : Invariant (Core.initial url0 stored).
Proof.
  constructor; cbn; try discriminate; auto. intros t [].
Qed.

(** A quiet handler run on a session that has a socket keeps the
    invariant. *)
Lemma Invariant_quiet c c' :
  Invariant c -> quiet c c' ->
  is_some (websocketRef c) = true ->
  Invariant c'.
Proof.
  intros [I1 I2 I3 I4] (Qa & Qb & Qc & Qd & Qe) Hws.
  constructor.
  - intros _. rewrite Qa. exact Hws.
  - intros Ho. auto.
  - intros _. rewrite Qd. auto.
  - intros t. rewrite Qd, Qe. apply I4.
Qed.

Lemma socket_in_is_some rs c :
  socket_in rs c = true -> is_some (websocketRef c) = true.
Proof.
  unfold socket_in. destruct (websocketRef c); [reflexivity | discriminate].
Qed.

Lemma Invariant_resumeHandle_effect c :
  Invariant c -> Invariant (resumeHandle_effect c).
Proof.
  intros [I1 I2 I3 I4]. constructor; cbn; auto.
Qed.

(** The timeouts after [clearReconnectTimeout], under the invariant. *)
Lemma clearReconnectTimeout_clears c :
  (forall t, In t (timers c) ->
     timers c = [t] /\ reconnectTimeoutRef c = Some (timer_id t)) ->
  timers (clearReconnectTimeout c) = [].
Proof.
  intros I4. unfold clearReconnectTimeout, clearTimeout.
  destruct (timers c) as [| t l] eqn:Et.
  - destruct (reconnectTimeoutRef c); cbn; rewrite ?Et; reflexivity.
  - destruct (I4 t (or_introl eq_refl)) as [Hl Hr].
    injection Hl as ->. rewrite Hr. cbn. rewrite ?Et. cbn.
    rewrite Z.eqb_refl. reflexivity.
Qed.

Lemma Invariant_connect cl reconnect c :
  Invariant c -> (reconnect = true -> timers c = []) ->
  Invariant (connect cl reconnect c).
Proof.
  intros I Hre. unfold connect.
  destruct (is_some (websocketRef c) || connectionAttemptRef c); [exact I |].
  destruct I as [I1 I2 I3 I4].
  assert (Ht : timers (if negb reconnect then clearReconnectTimeout c else c) = []).
  { destruct reconnect; cbn; [auto | apply clearReconnectTimeout_clears, I4]. }
  constructor; cbn.
  - discriminate.
  - discriminate.
  - intros _. destruct reconnect; cbn in *; exact Ht.
  - intros t Hin. exfalso.
    destruct reconnect; cbn in *; rewrite Ht in Hin; exact Hin.
Qed.

Lemma Invariant_ws_onerror c :
  Invariant c -> Invariant (ws_onerror c).
Proof.
  intros [I1 I2 I3 I4]. constructor; cbn; auto. discriminate.
Qed.

Lemma Invariant_clearResumeHandle c :
  Invariant c -> Invariant (clearResumeHandle c).
Proof.
  intros [I1 I2 I3 I4]. unfold clearResumeHandle, appendMessage. cbn.
  constructor; cbn; auto.
Qed.

Lemma ws_onopen_facts cl payload audioOk videoOk c :
  is_some (websocketRef c) = true ->
  let c' := ws_onopen cl payload audioOk videoOk c in
  is_some (websocketRef c') = true /\
  timers c' = timers c /\
  is_some (audioContextRef c') = true.
Proof.
  intros Hws. cbv zeta. unfold ws_onopen.
  destruct (websocketRef c) as [ws |] eqn:E; [| discriminate Hws].
  unfold baseSend, ensureAudioContext, close_socket, appendMessage,
    WebSocket_close, WebSocket_opened, WebSocket_send, is_open.
  destruct payload; cbn; rewrite ?E; cbn;
    destruct (audioContextRef c) eqn:A; cbn; rewrite ?E, ?A; cbn;
    destruct audioOk; cbn; rewrite ?E, ?A; cbn;
    destruct (c_cameraEnabled cl && negb (videoStreamRef c)); cbn;
    rewrite ?E, ?A; cbn;
    destruct videoOk; cbn; rewrite ?E, ?A; cbn;
    try destruct (isReconnect ws); cbn; rewrite ?A; auto.
Qed.

(** A session without a socket satisfies the invariant when it is not
    connected and has at most the timeout its ref designates. *)
Lemma Invariant_no_socket c :
  websocketRef c = None ->
  status c <> connected ->
  (timers c = [] \/
   exists t, timers c = [t] /\ reconnectTimeoutRef c = Some (timer_id t)) ->
  Invariant c.
Proof.
  intros Hws Hs Ht. constructor.
  - intros H. contradiction.
  - unfold socket_in. rewrite Hws. discriminate.
  - rewrite Hws. discriminate.
  - intros t Hin. destruct Ht as [Ht | (t' & Ht & Hr)]; rewrite Ht in Hin.
    + destruct Hin.
    + destruct Hin as [<- | []]. auto.
Qed.

Lemma Invariant_ws_onclose host c :
  Invariant c -> is_some (websocketRef c) = true ->
  Invariant (ws_onclose host c).
Proof.
  intros [I1 I2 I3 I4] Hws. specialize (I3 Hws).
  destruct (clearReconnectTimeout_no_timers c I3) as [Hclear _].
  destruct (manualDisconnectRef c) eqn:Hm.
  { destruct (ws_onclose_intentional host c (or_introl Hm))
      as (Hs & _ & Hw & Ht & _).
    apply Invariant_no_socket; [exact Hw | congruence | left; congruence]. }
  destruct (handle_truthy (resumeHandleRef c)) eqn:Hh.
  2:{ destruct (ws_onclose_intentional host c (or_intror Hh))
        as (Hs & _ & Hw & Ht & _).
      apply Invariant_no_socket; [exact Hw | congruence | left; congruence]. }
  destruct (Z_le_gt_dec (reconnectAttemptsRef c + 1) 5) as [Hle | Hgt].
  - destruct (ws_onclose_schedules host c _ Hm Hh eq_refl Hle I3)
      as (Hs & Ht & Hr & _ & _ & _ & Hw & _).
    apply Invariant_no_socket; [exact Hw | congruence |].
    right. eexists. split; eassumption.
  - destruct (ws_onclose_gives_up host c _ Hm Hh eq_refl ltac:(lia))
      as (Hs & Ht & _ & _ & Hw & _).
    apply Invariant_no_socket; [exact Hw | congruence | left; congruence].
Qed.

Lemma Invariant_timer_fire cl id c :
  Invariant c -> Invariant (timer_fire cl id c).
Proof.
  intros I. unfold timer_fire.
  destruct (existsb (fun t => timer_id t =? id) (timers c)) eqn:Ex; [| exact I].
  assert (Ht : timers (clearTimeout id c) = []).
  { destruct I as [_ _ _ I4]. unfold clearTimeout. cbn.
    apply existsb_exists in Ex. destruct Ex as (t & Hin & Hid).
    destruct (I4 t Hin) as [-> _]. cbn. rewrite Hid. reflexivity. }
  apply Invariant_connect; [| intros _; exact Ht].
  destruct I as [I1 I2 I3 I4]. unfold clearTimeout in *.
  constructor; cbn in *; auto. rewrite Ht. intros t [].
Qed.

(** A session with a socket satisfies the invariant when no timeout is
    pending and an audio context exists if the socket is open. *)
Lemma Invariant_with_socket c :
  is_some (websocketRef c) = true ->
  (socket_in OPEN c = true -> is_some (audioContextRef c) = true) ->
  timers c = [] ->
  Invariant c.
Proof.
  intros Hws Ho Ht. constructor.
  - intros _. exact Hws.
  - exact Ho.
  - intros _. exact Ht.
  - rewrite Ht. intros t [].
Qed.

Lemma Invariant_ws_onopen cl payload audioOk videoOk c :
  Invariant c -> socket_in CONNECTING c = true ->
  Invariant (ws_onopen cl payload audioOk videoOk c).
Proof.
  intros I Hen.
  assert (Hws : is_some (websocketRef c) = true)
    by (eapply socket_in_is_some; eassumption).
  destruct (ws_onopen_facts cl payload audioOk videoOk c Hws) as (H1 & H2 & H3).
  apply Invariant_with_socket; [exact H1 | intros _; exact H3 |].
  rewrite H2. apply (socket_no_timer c I Hws).
Qed.

Lemma close_socket_not_open args c :
  socket_in OPEN (close_socket args c) = false /\
  is_some (websocketRef (close_socket args c)) = is_some (websocketRef c) /\
  timers (close_socket args c) = timers c.
Proof.
  unfold close_socket, socket_in, WebSocket_close.
  destruct (websocketRef c) as [ws |] eqn:E; [| rewrite E; auto].
  destruct (readyState ws) eqn:R; cbn; rewrite ?R; auto.
Qed.

Lemma baseSend_frame payload c :
  is_some (websocketRef (baseSend payload c)) = is_some (websocketRef c) /\
  timers (baseSend payload c) = timers c.
Proof.
  unfold baseSend. destruct (websocketRef c) as [ws |] eqn:E; [| rewrite E; auto].
  destruct (is_open ws); cbn; rewrite ?E; auto.
Qed.

Lemma Invariant_disconnect c :
  Invariant c -> Invariant (disconnect c).
Proof.
  intros [I1 I2 I3 I4]. unfold disconnect.
  set (c1 := set_reconnectAttemptsRef 0
               (clearReconnectTimeout (set_manualDisconnectRef true c))).
  assert (Ht : timers c1 = []).
  { apply (clearReconnectTimeout_clears (set_manualDisconnectRef true c)), I4. }
  assert (Hw : websocketRef c1 = websocketRef c).
  { unfold c1, clearReconnectTimeout. cbn.
    destruct (reconnectTimeoutRef c); reflexivity. }
  assert (Hs : status c1 = status c).
  { unfold c1, clearReconnectTimeout. cbn.
    destruct (reconnectTimeoutRef c); reflexivity. }
  destruct (websocketRef c1) as [ws |] eqn:E.
  - assert (Hsome : is_some (websocketRef c1) = true) by (rewrite E; reflexivity).
    destruct (is_open ws).
    + set (payload := JObj _).
      destruct (baseSend_frame payload c1) as [Hb1 Hb2].
      destruct (close_socket_not_open None (baseSend payload c1))
        as (Hc1 & Hc2 & Hc3).
      apply Invariant_with_socket; congruence.
    + destruct (close_socket_not_open None c1) as (Hc1 & Hc2 & Hc3).
      apply Invariant_with_socket; congruence.
  - apply Invariant_no_socket; cbn; [exact E | discriminate | left; exact Ht].
Qed.

(** Every handler keeps the invariant. *)
Lemma Invariant_handle e payload c :
  Invariant c -> enabled e c = true -> Invariant (handle e payload c).
Proof.
  intros I Hen. destruct e; cbn [handle enabled] in *.
  - apply Invariant_connect; [exact I | discriminate].
  - apply Invariant_ws_onopen; assumption.
  - exact I.
  - apply Invariant_ws_onerror, I.
  - apply Invariant_ws_onclose; assumption.
  - apply Invariant_timer_fire, I.
  - apply Invariant_disconnect, I.
  - apply Invariant_clearResumeHandle, I.
Qed.

Lemma Invariant_App_step e st :
  Invariant (App.core st) -> enabled e (App.core st) = true ->
  Invariant (App.core (App_step e st)).
Proof.
  intros I Hen. unfold App_step, App.render.
  cbn [App.transcripts_effect App.core App.set_transcriptsFormatted
       App.on_core App.set_core].
  apply Invariant_resumeHandle_effect.
  destruct e; cbn [App.on_core App.core App.set_core];
    try (apply Invariant_handle; assumption).
  eapply Invariant_quiet;
    [exact I | apply quiet_App_handleServerMessage
    | eapply socket_in_is_some; exact Hen].
Qed.

Lemma Invariant_Legacy_step e st :
  Invariant (LegacyApp.core st) -> enabled e (LegacyApp.core st) = true ->
  Invariant (LegacyApp.core (Legacy_step e st)).
Proof.
  intros I Hen. unfold Legacy_step, LegacyApp.render.
  cbn [LegacyApp.on_core LegacyApp.core LegacyApp.set_core].
  apply Invariant_resumeHandle_effect.
  destruct e; cbn [LegacyApp.on_core LegacyApp.core LegacyApp.set_core];
    try (apply Invariant_handle; assumption).
  eapply Invariant_quiet;
    [exact I | apply quiet_Legacy_handleServerMessage
    | eapply socket_in_is_some; exact Hen].
Qed.

Lemma Invariant_App_run events : forall st st',
  Invariant (App.core st) -> App_run events st = Some st' ->
  Invariant (App.core st').
Proof.
  induction events as [| e rest IH]; intros st st' I Hrun; cbn in Hrun.
  - injection Hrun as <-. exact I.
  - destruct (enabled e (App.core st)) eqn:Hen; [| discriminate Hrun].
    eapply IH; [| exact Hrun]. apply Invariant_App_step; assumption.
Qed.

Lemma Invariant_Legacy_run events : forall st st',
  Invariant (LegacyApp.core st) -> Legacy_run events st = Some st' ->
  Invariant (LegacyApp.core st').
Proof.
  induction events as [| e rest IH]; intros st st' I Hrun; cbn in Hrun.
  - injection Hrun as <-. exact I.
  - destruct (enabled e (LegacyApp.core st)) eqn:Hen; [| discriminate Hrun].
    eapply IH; [| exact Hrun]. apply Invariant_Legacy_step; assumption.
Qed.

(** The invariant holds of every state the component goes through. *)
Lemma reachable_Invariant c : reachable c -> Invariant c.
Proof.
  intros [url0 stored events st Hrun <- | url0 stored events st Hrun <-].
  - eapply Invariant_App_run; [| exact Hrun]. apply Invariant_initial.
  - eapply Invariant_Legacy_run; [| exact Hrun]. apply Invariant_initial.
Qed.

(** *** The reconnection policy in the states the component goes through *)


(** C8.  When either copy of the component dispatches an [audio] envelope
    whose data decode to an odd number of bytes, the frame is dropped: the
    status, the play cursor and the sources started are those of before,
    and the whole session state is unchanged when an audio context exists
    (the handler creates an empty one when there is none), which is the
    case in every state in which the component can receive a message. *)
Theorem odd_audio_dropped cl host data base64 bytes c c' :
  get "type" data = Some (JStr "audio") ->
  get "data" data = Some (JStr base64) ->
  Base64.base64ToUint8Array base64 = Some bytes ->
  Nat.odd (List.length bytes) = true ->
  (exists st, App.core st = c /\
     c' = App.core (App.handleServerMessage cl host (Some data) st)) \/
  (exists st, LegacyApp.core st = c /\
     c' = LegacyApp.core (LegacyApp.handleServerMessage cl host (Some data) st)) ->
  status c' = status c /\
  playbackTimeRef c' = playbackTimeRef c /\
  started_sources c' = started_sources c /\
  c' = ensureAudioContext c /\
  (forall ctx, audioContextRef c = Some ctx -> c' = c) /\
  (reachable c -> socket_in OPEN c = true -> c' = c).
Proof.
  intros Htype Hdata Hbytes Hodd Hdispatch.
  assert (Hc' : c' = ensureAudioContext c).
  { assert (H : on_audio cl host data c = ensureAudioContext c).
    { unfold on_audio. rewrite Hdata. cbn [as_string].
      eapply playAssistantAudio_odd; eassumption. }
    destruct Hdispatch as [[st [<- ->]] | [st [<- ->]]].
    - rewrite App_dispatch_audio by assumption. exact H.
    - rewrite Legacy_dispatch_audio by assumption. exact H. }
  destruct (ensureAudioContext_frame c) as (Hs & Hp & _ & Hsame & Hnew).
  rewrite Hc'. repeat split; try assumption.
  - unfold started_sources.
    destruct (audioContextRef c) as [ctx |] eqn:E.
    + rewrite (Hsame ctx eq_refl), E. reflexivity.
    + rewrite (Hnew eq_refl). reflexivity.
  - intros Hreach Hopen.
    pose proof (open_has_context c (reachable_Invariant c Hreach) Hopen) as Hctx.
    destruct (audioContextRef c) as [ctx |] eqn:E; [| discriminate Hctx].
    exact (Hsame ctx eq_refl).
Qed.

(** *** Negotiated rates *)

Lemma App_dispatch_status cl host data st :
  get "type" data = Some (JStr "status") ->
  App.handleServerMessage cl host (Some data) st =
  App.on_core (on_status data) st.
Proof. intros H. dispatch_case H. Qed.

Lemma Legacy_dispatch_status cl host data st :
  get "type" data = Some (JStr "status") ->
  LegacyApp.handleServerMessage cl host (Some data) st =
  LegacyApp.on_core (on_status data) st.
Proof. intros H. dispatch_case H. Qed.



(** *** connect *)


(** The sample states are states the component goes through. *)
Lemma connected_reachable : reachable (App.core Sample.connected).
Proof.
  apply (reachable_App _ Sample.url0 None
           [Connect Sample.cl0;
            Open Sample.cl0 EmptyString EmptyString true true;
            Message Sample.cl0 Sample.host (Some Sample.status_envelope)]
           Sample.connected); vm_compute; reflexivity.
Qed.



(** *** Witnesses and the earlier copy's dispatcher *)


Lemma odd_audio_dropped_witness :
  let c := App.core Sample.connected in
  let c' := App.core (App.handleServerMessage Sample.cl0 Sample.host
                        (Some Sample.odd_audio_envelope) Sample.connected) in
  (Base64.base64ToUint8Array "AAEC" = Some [0; 1; 2] /\
   Nat.odd (List.length [0; 1; 2]) = true) /\
  c' = c.
Proof.
  cbv zeta. split; [split; reflexivity |].
  pose proof (odd_audio_dropped Sample.cl0 Sample.host
                Sample.odd_audio_envelope "AAEC" [0; 1; 2]
                (App.core Sample.connected) _
                eq_refl eq_refl eq_refl eq_refl
                (or_introl (ex_intro _ Sample.connected (conj eq_refl eq_refl))))
    as (_ & _ & _ & _ & Hsame & _).
  exact (Hsame _ eq_refl).
Defined.



Lemma playback_back_to_back_witness :
  let st0 := App.core Sample.connected in
  let st1 := playAssistantAudio Sample.cl0 Sample.host "AAECAw==" None st0 in
  let st2 := playAssistantAudio Sample.cl0 Sample.host "AAECAw==" None st1 in
  let s1 := {| src_samples := [256 # 32768; 770 # 32768]%Q;
               src_sampleRate := 48000%Q; src_startAt := (1 # 20)%Q |} in
  let s2 := {| src_samples := [256 # 32768; 770 # 32768]%Q;
               src_sampleRate := 48000%Q;
               src_startAt := (48040 # 960000)%Q |} in
  ((0 <= currentTime Sample.host)%Q /\
   started_sources st1 = started_sources st0 ++ [s1] /\
   started_sources st2 = started_sources st1 ++ [s2]) /\
  (src_startAt s1 + src_duration s1 <= src_startAt s2)%Q /\
  (playbackTimeRef st1 <= playbackTimeRef st2)%Q.
Proof.
  cbv zeta.
  assert (Hnow : (0 <= currentTime Sample.host)%Q) by discriminate.
  assert (H1 : started_sources
                 (playAssistantAudio Sample.cl0 Sample.host "AAECAw==" None
                    (App.core Sample.connected)) =
               started_sources (App.core Sample.connected) ++
               [{| src_samples := [256 # 32768; 770 # 32768]%Q;
                   src_sampleRate := 48000%Q; src_startAt := (1 # 20)%Q |}])
    by (vm_compute; reflexivity).
  assert (H2 : started_sources
                 (playAssistantAudio Sample.cl0 Sample.host "AAECAw==" None
                    (playAssistantAudio Sample.cl0 Sample.host "AAECAw==" None
                       (App.core Sample.connected))) =
               started_sources
                 (playAssistantAudio Sample.cl0 Sample.host "AAECAw==" None
                    (App.core Sample.connected)) ++
               [{| src_samples := [256 # 32768; 770 # 32768]%Q;
                   src_sampleRate := 48000%Q;
                   src_startAt := (48040 # 960000)%Q |}])
    by (vm_compute; reflexivity).
  split; [auto |].
  pose proof (playback_back_to_back Sample.cl0 Sample.cl0 Sample.host
                Sample.host "AAECAw==" None "AAECAw==" None
                (App.core Sample.connected) _ _ Hnow H1 H2)
    as (_ & _ & _ & _ & Hgap & _ & Hmono).
  split; assumption.
Defined.


(** The [session_expired] case of the current copy: the handle is cleared
    (state and ref), the disconnect is marked as intentional, an open
    channel is closed, and the status is [disconnected]. *)
Lemma App_session_expired cl host data st :
  get "type" data = Some (JStr "session_expired") ->
  let c := App.core st in
  let c' := App.core (App.handleServerMessage cl host (Some data) st) in
  resumeHandle c' = None /\ resumeHandleRef c' = None /\
  manualDisconnectRef c' = true /\
  (forall ws, websocketRef c = Some ws -> readyState ws = OPEN ->
     exists ws', websocketRef c' = Some ws' /\ readyState ws' = CLOSING /\
                 closeArgs ws' = Some (Some (1000, "session expired"))) /\
  (forall ws', websocketRef c' = Some ws' -> readyState ws' <> OPEN) /\
  status c' = disconnected /\
  pending_reconnect (ws_onclose host c') = None.
Proof.
  intros Htype. cbv zeta.
  rewrite App_dispatch_session_expired by assumption. cbn [App.on_core App.core App.set_core].
  destruct (on_session_expired_spec data (App.core st))
    as (Hh & Hr & Hm & Hs & _ & Hc1 & Hc2 & _).
  cbv zeta in *.
  destruct (ws_onclose_intentional host _ (or_introl Hm)) as (_ & Hrt & _).
  repeat split; try assumption.
  unfold pending_reconnect. rewrite Hrt. reflexivity.
Qed.

(** The earlier copy ignores an envelope of type [session_expired]. *)
Lemma Legacy_session_expired_ignored cl host data st :
  get "type" data = Some (JStr "session_expired") ->
  LegacyApp.handleServerMessage cl host (Some data) st = st.
Proof. apply Legacy_dispatch_session_expired. Qed.

(** C3.  The earlier copy of the component, connected with the handle [h1],
    receives an envelope of type [session_expired]: its state is unchanged.
    The handle is kept, the disconnect is not marked as intentional, the
    channel stays open and the status stays [connected]; when the channel
    closes afterwards, a reconnection with the expired handle is
    scheduled. *)
Theorem legacy_session_expired_not_handled :
  let st := Sample.legacy_connected in
  let st' := LegacyApp.render
               (LegacyApp.handleServerMessage Sample.cl0 Sample.host
                  (Some Sample.session_expired_envelope) st) in
  st' = st /\
  resumeHandle (LegacyApp.core st') = Some "h1" /\
  resumeHandleRef (LegacyApp.core st') = Some "h1" /\
  manualDisconnectRef (LegacyApp.core st') = false /\
  option_map readyState (websocketRef (LegacyApp.core st')) = Some OPEN /\
  status (LegacyApp.core st') = connected /\
  pending_reconnect (ws_onclose Sample.host (LegacyApp.core st')) =
    Some {| timer_id := 1; timer_delay := 1000 |} /\
  status (ws_onclose Sample.host (LegacyApp.core st')) = connecting.
Proof. cbv zeta. repeat apply conj; vm_compute; reflexivity. Qed.

End SessionFacts.
(** ** More on the codec *)

Module CodecMore.
Import Codec CodecFacts.
Local Open Scope Z_scope.

(** Clamping brings every sample into [[-1, 1]]. *)
Lemma clamp_bounds x :
  (-1 <= Math_max (-1) (Math_min 1 x) <= 1)%Q.
Proof.
  unfold Math_max, Math_min.
  destruct (Qle_bool 1 x) eqn:E1.
  - cbn. split; discriminate.
  - destruct (Qle_bool (-1) x) eqn:E2.
    + apply Qle_bool_iff in E2. split; [exact E2 |].
      apply Qlt_le_weak, Qnot_le_lt. intros H.
      apply Qle_bool_iff in H. congruence.
    + split; [apply Qle_refl | discriminate].
Qed.

(** Clamping is monotone. *)
Lemma clamp_monotone x y :
  (x <= y)%Q ->
  (Math_max (-1) (Math_min 1 x) <= Math_max (-1) (Math_min 1 y))%Q.
Proof.
  intros Hxy.
  assert (Hmin : forall z, (Math_min 1 z <= 1 /\ Math_min 1 z <= z /\
                            (Math_min 1 z == 1 \/ Math_min 1 z == z))%Q).
  { intros z. unfold Math_min. destruct (Qle_bool 1 z) eqn:E.
    - apply Qle_bool_iff in E. split; [lra | split; [lra | left; reflexivity]].
    - assert (z < 1)%Q.
      { apply Qnot_le_lt. intros H. apply Qle_bool_iff in H. congruence. }
      split; [lra | split; [lra | right; reflexivity]]. }
  assert (Hmax : forall z, (-1 <= Math_max (-1) z /\ z <= Math_max (-1) z /\
                            (Math_max (-1) z == -1 \/ Math_max (-1) z == z))%Q).
  { intros z. unfold Math_max. destruct (Qle_bool (-1) z) eqn:E.
    - apply Qle_bool_iff in E. split; [lra | split; [lra | right; reflexivity]].
    - assert (z < -1)%Q.
      { apply Qnot_le_lt. intros H. apply Qle_bool_iff in H. congruence. }
      split; [lra | split; [lra | left; reflexivity]]. }
  destruct (Hmin x) as (A1 & A2 & A3), (Hmin y) as (B1 & B2 & B3).
  destruct (Hmax (Math_min 1 x)) as (C1 & C2 & C3).
  destruct (Hmax (Math_min 1 y)) as (D1 & D2 & D3).
  destruct A3, B3, C3, D3; lra.
Qed.

(** Comparisons of integers read off their images among the fractions. *)
Lemma Zle_of_Qlt_succ a b : (inject_Z a < inject_Z b + 1)%Q -> a <= b.
Proof.
  intros H.
  assert (H' : (inject_Z a < inject_Z (b + 1))%Q)
    by (rewrite inject_Z_plus; change (inject_Z 1) with 1%Q; exact H).
  rewrite <- Zlt_Qlt in H'. lia.
Qed.

Lemma Zle_of_Qlt_pred a b : (inject_Z a - 1 < inject_Z b)%Q -> a <= b.
Proof. intros H. apply Zle_of_Qlt_succ. lra. Qed.

(** Truncation is monotone and respects the equality of fractions. *)
Lemma trunc_monotone a b : (a <= b)%Q -> trunc a <= trunc b.
Proof.
  intros Hab.
  destruct (Qlt_le_dec a 0) as [Ha | Ha], (Qlt_le_dec b 0) as [Hb | Hb].
  - destruct (trunc_nonpos a ltac:(lra)) as [_ A], (trunc_nonpos b ltac:(lra)) as [B _].
    apply Zle_of_Qlt_pred. lra.
  - destruct (trunc_nonpos a ltac:(lra)) as [_ A], (trunc_nonneg b Hb) as [_ B].
    assert (H0 : trunc a <= 0).
    { apply Zle_of_Qlt_pred. change (inject_Z 0) with 0%Q. lra. }
    assert (H1 : 0 <= trunc b).
    { apply Zle_of_Qlt_succ. change (inject_Z 0) with 0%Q. lra. }
    lia.
  - lra.
  - destruct (trunc_nonneg a Ha) as [A _], (trunc_nonneg b Hb) as [_ B].
    apply Zle_of_Qlt_succ. lra.
Qed.

Lemma trunc_Qeq a b : (a == b)%Q -> trunc a = trunc b.
Proof.
  intros H. apply Z.le_antisymm; apply trunc_monotone; lra.
Qed.

(** The truncation of a number that lies between an integer and the next
    one, on either side of zero. *)
Lemma trunc_floor_nonneg r z :
  (0 <= r)%Q -> (inject_Z z <= r)%Q -> (r < inject_Z z + 1)%Q -> trunc r = z.
Proof.
  intros H0 H1 H2. destruct (trunc_nonneg r H0) as [A B].
  apply Z.le_antisymm; apply Zle_of_Qlt_succ; lra.
Qed.

Lemma trunc_inject_Z z : trunc (inject_Z z) = z.
Proof.
  unfold trunc, inject_Z. cbn. apply Z.quot_1_r.
Qed.

Lemma trunc_int16_range r :
  (-32768 <= r)%Q -> (r <= 32767)%Q -> -32768 <= trunc r <= 32767.
Proof.
  intros Hlo Hhi.
  pose proof (trunc_monotone _ _ Hlo) as A.
  pose proof (trunc_monotone _ _ Hhi) as B.
  change (-32768)%Q with (inject_Z (-32768)) in A.
  change 32767%Q with (inject_Z 32767) in B.
  rewrite trunc_inject_Z in A, B. lia.
Qed.

(** The 16-bit sample of a clamped value. *)
Lemma quantized_range x :
  -32768 <= floatTo16BitPCM_sample x <= 32767.
Proof.
  unfold floatTo16BitPCM_sample. cbv zeta.
  destruct (clamp_bounds x) as [Hlo Hhi].
  set (s := Math_max (-1) (Math_min 1 x)) in *.
  destruct (Qlt_bool s 0) eqn:E.
  - apply Qlt_bool_true in E.
    destruct (quantize_negative s Hlo E) as [H _]. lia.
  - apply Qlt_bool_false in E.
    destruct (quantize_nonnegative s E Hhi) as [H _]. lia.
Qed.

(** X1.  [floatTo16BitPCM] saturates and never wraps: whatever the sample,
    the 16-bit value lies in [[-32768, 32767]]; a sample of 1 or more gives
    32767, a sample of -1 or less gives -32768, and silence gives 0. *)
Theorem quantize_saturates x :
  -32768 <= floatTo16BitPCM_sample x <= 32767 /\
  ((1 <= x)%Q -> floatTo16BitPCM_sample x = 32767) /\
  ((x <= -1)%Q -> floatTo16BitPCM_sample x = -32768) /\
  floatTo16BitPCM_sample 0 = 0.
Proof.
  split; [apply quantized_range |]. split; [| split; [| reflexivity]].
  - intros Hx. unfold floatTo16BitPCM_sample, Math_min.
    apply Qle_bool_iff in Hx. rewrite Hx. reflexivity.
  - intros Hx. unfold floatTo16BitPCM_sample. cbv zeta.
    destruct (clamp_bounds x) as [Hlo Hhi].
    assert (Hs : (Math_max (-1) (Math_min 1 x) == -1)%Q).
    { pose proof (clamp_monotone x (-1) Hx) as H.
      change (Math_max (-1) (Math_min 1 (-1))) with (-1)%Q in H. lra. }
    set (s := Math_max (-1) (Math_min 1 x)) in *.
    assert (E : Qlt_bool s 0 = true) by (apply Qlt_bool_true; lra).
    rewrite E.
    destruct (quantize_negative s Hlo ltac:(lra)) as [Hr [H1 H2]].
    set (t := ToInt16 (s * 32768)) in *.
    assert (U : t <= -32768).
    { apply Zle_of_Qlt_pred. change (inject_Z (-32768)) with (-32768)%Q. lra. }
    lia.
Qed.

Lemma quantize_saturates_witness :
  (1 <= 3 # 2)%Q /\ floatTo16BitPCM_sample (3 # 2) = 32767 /\
  (- (5 # 1) <= -1)%Q /\ floatTo16BitPCM_sample (- (5 # 1)) = -32768.
Proof.
  destruct (quantize_saturates (3 # 2)) as (_ & Hhi & _).
  destruct (quantize_saturates (- (5 # 1))) as (_ & _ & Hlo & _).
  split; [discriminate |]. split; [apply Hhi; discriminate |].
  split; [discriminate |]. apply Hlo. discriminate.
Defined.

(** X2.  [floatTo16BitPCM] keeps the order of the samples: a louder
    sample never gets a smaller 16-bit value, across the change of scale at
    zero and across the clamp. *)
Theorem quantize_monotone x y :
  (x <= y)%Q -> floatTo16BitPCM_sample x <= floatTo16BitPCM_sample y.
Proof.
  intros Hxy. unfold floatTo16BitPCM_sample. cbv zeta.
  pose proof (clamp_monotone x y Hxy) as Hs.
  destruct (clamp_bounds x) as [Hxlo Hxhi], (clamp_bounds y) as [Hylo Hyhi].
  set (s := Math_max (-1) (Math_min 1 x)) in *.
  set (u := Math_max (-1) (Math_min 1 y)) in *.
  destruct (Qlt_bool s 0) eqn:Es, (Qlt_bool u 0) eqn:Eu.
  - apply Qlt_bool_true in Es, Eu.
    rewrite !ToInt16_in_range by (apply trunc_int16_range; lra).
    apply trunc_monotone. lra.
  - apply Qlt_bool_true in Es. apply Qlt_bool_false in Eu.
    destruct (quantize_negative s Hxlo Es) as [Rs _].
    destruct (quantize_nonnegative u Eu Hyhi) as [Ru _]. lia.
  - apply Qlt_bool_false in Es. apply Qlt_bool_true in Eu. lra.
  - apply Qlt_bool_false in Es, Eu.
    rewrite !ToInt16_in_range by (apply trunc_int16_range; lra).
    apply trunc_monotone. lra.
Qed.

Lemma quantize_monotone_witness :
  ((1 # 3) <= (1 # 2))%Q /\
  floatTo16BitPCM_sample (1 # 3) <= floatTo16BitPCM_sample (1 # 2).
Proof.
  split; [discriminate |]. apply quantize_monotone. discriminate.
Defined.

Lemma requantize_sample v :
  -32768 <= v <= 32767 ->
  floatTo16BitPCM_sample (inject_Z v / 32768) = if 0 <? v then v - 1 else v.
Proof.
  intros Hv. unfold floatTo16BitPCM_sample. cbv zeta.
  assert (Hq : (-32768 <= inject_Z v)%Q /\ (inject_Z v <= 32767)%Q).
  { change (-32768)%Q with (inject_Z (-32768)).
    change 32767%Q with (inject_Z 32767). rewrite <- !Zle_Qle. lia. }
  destruct Hq as [Hq1 Hq2].
  assert (Hx : (-1 <= inject_Z v / 32768 <= 1)%Q).
  { unfold Qdiv. change (/ 32768)%Q with (1 # 32768)%Q. split; lra. }
  pose proof (clamp_in_range _ Hx) as Hs.
  set (s := Math_max (-1) (Math_min 1 (inject_Z v / 32768))) in *.
  assert (Hs' : (s * 32768 == inject_Z v)%Q).
  { rewrite Hs. unfold Qdiv. change (/ 32768)%Q with (1 # 32768)%Q. lra. }
  destruct (0 <? v) eqn:Ev.
  - apply Z.ltb_lt in Ev.
    assert (Hp : (1 <= inject_Z v)%Q)
      by (change 1%Q with (inject_Z 1); rewrite <- Zle_Qle; lia).
    assert (E : Qlt_bool s 0 = false) by (apply Qlt_bool_false; lra).
    rewrite E.
    assert (T : trunc (s * 32767) = v - 1).
    { apply trunc_floor_nonneg.
      - lra.
      - unfold Z.sub. rewrite inject_Z_plus, inject_Z_opp.
        change (inject_Z 1) with 1%Q. lra.
      - unfold Z.sub. rewrite inject_Z_plus, inject_Z_opp.
        change (inject_Z 1) with 1%Q. lra. }
    rewrite ToInt16_in_range; rewrite T; lia.
  - apply Z.ltb_ge in Ev.
    assert (Hp : (inject_Z v <= 0)%Q)
      by (change 0%Q with (inject_Z 0); rewrite <- Zle_Qle; lia).
    destruct (Qlt_bool s 0) eqn:E.
    + assert (T : trunc (s * 32768) = v).
      { rewrite (trunc_Qeq _ _ Hs'). apply trunc_inject_Z. }
      rewrite ToInt16_in_range; rewrite T; lia.
    + apply Qlt_bool_false in E.
      assert (Z0 : (inject_Z v == 0)%Q) by lra.
      assert (V0 : v = 0).
      { apply Z.le_antisymm; [lia |]. rewrite Zle_Qle.
        change (inject_Z 0) with 0%Q. lra. }
      subst v.
      assert (T : trunc (s * 32767) = 0).
      { rewrite (trunc_Qeq _ 0); [reflexivity |].
        change (inject_Z 0) with 0%Q in Hs'. lra. }
      rewrite ToInt16_in_range; rewrite T; lia.
Qed.

(** X3.  A buffer of 16-bit samples that goes through [int16ToFloat32] and
    back through [floatTo16BitPCM] keeps its samples that are zero or
    negative and loses one unit on each positive sample: the two scales,
    32768 down and 32767 up, do not match. *)
Theorem requantize_drift pcm :
  Forall (fun v => -32768 <= v <= 32767) pcm ->
  floatTo16BitPCM (int16ToFloat32 pcm) =
  map (fun v => if 0 <? v then v - 1 else v) pcm.
Proof.
  unfold floatTo16BitPCM, int16ToFloat32. rewrite map_map.
  induction 1 as [| v pcm Hv _ IH]; [reflexivity |].
  cbn [map]. rewrite IH. f_equal. apply requantize_sample, Hv.
Qed.

Lemma requantize_drift_witness :
  Forall (fun v => -32768 <= v <= 32767) [-32768; -1; 0; 1; 32767] /\
  floatTo16BitPCM (int16ToFloat32 [-32768; -1; 0; 1; 32767]) =
  [-32768; -1; 0; 0; 32766].
Proof.
  assert (H : Forall (fun v => -32768 <= v <= 32767) [-32768; -1; 0; 1; 32767])
    by (repeat constructor; lia).
  split; [exact H |]. exact (requantize_drift _ H).
Defined.

End CodecMore.
(** ** The transport of audio *)

Module WireFacts.
Import Json Core Wire.
Local Open Scope string_scope.
Local Open Scope list_scope.
Local Open Scope Z_scope.

(** *** Bit operations as arithmetic *)

Lemma lor_shiftl_add y x k :
  0 <= k -> 0 <= x < 2 ^ k -> Z.lor (Z.shiftl y k) x = y * 2 ^ k + x.
Proof.
  intros Hk Hx.
  assert (Hland : Z.land (Z.shiftl y k) x = 0).
  { apply Z.bits_inj'. intros n Hn.
    rewrite Z.land_spec, Z.bits_0.
    destruct (Z.lt_ge_cases n k) as [Hlt | Hge].
    - rewrite Z.shiftl_spec_low by assumption. reflexivity.
    - destruct (Z.eq_dec x 0) as [-> | Hx0].
      + rewrite Z.bits_0. apply andb_false_r.
      + rewrite (Z.bits_above_log2 x n); [apply andb_false_r | lia |].
        apply Z.lt_le_trans with k; [| assumption].
        apply Z.log2_lt_pow2; lia. }
  rewrite <- Z.lxor_lor by assumption.
  rewrite <- Z.add_nocarry_lxor by assumption.
  rewrite Z.shiftl_mul_pow2 by assumption. reflexivity.
Qed.

Lemma lor_disjoint m x k :
  0 <= k -> m mod 2 ^ k = 0 -> 0 <= x < 2 ^ k -> Z.lor m x = m + x.
Proof.
  intros Hk Hm Hx.
  assert (E : m = (m / 2 ^ k) * 2 ^ k).
  { pose proof (Z.div_mod m (2 ^ k)) as D.
    rewrite Hm in D. rewrite D at 1 by lia. lia. }
  rewrite E at 1 2. rewrite <- Z.shiftl_mul_pow2 by assumption.
  rewrite lor_shiftl_add by assumption.
  rewrite Z.shiftl_mul_pow2 by assumption. reflexivity.
Qed.

Lemma land_255 n : Z.land n 255 = n mod 256.
Proof. change 255 with (Z.ones 8). rewrite Z.land_ones by lia. reflexivity. Qed.

Lemma land_63 n : Z.land n 63 = n mod 64.
Proof. change 63 with (Z.ones 6). rewrite Z.land_ones by lia. reflexivity. Qed.

(** *** The base64 alphabet *)

Lemma alphabet_table :
  forallb
    (fun n =>
       let c := b64_char (Z.of_nat n) in
       match Base64.sextet c with
       | Some u => u =? Z.of_nat n
       | None => false
       end
       && negb (Base64.is_pad c) && negb (Base64.is_ascii_whitespace c))
    (seq 0 64) = true.
Proof. vm_compute. reflexivity. Qed.

Lemma alphabet v :
  0 <= v <= 63 ->
  Base64.sextet (b64_char v) = Some v /\
  Base64.is_pad (b64_char v) = false /\
  Base64.is_ascii_whitespace (b64_char v) = false.
Proof.
  intros Hv.
  pose proof alphabet_table as T. rewrite forallb_forall in T.
  specialize (T (Z.to_nat v)).
  rewrite Z2Nat.id in T by lia.
  assert (Hin : In (Z.to_nat v) (seq 0 64)) by (apply in_seq; lia).
  specialize (T Hin). cbv zeta in T.
  apply andb_true_iff in T. destruct T as [T T3].
  apply andb_true_iff in T. destruct T as [T1 T2].
  destruct (Base64.sextet (b64_char v)) as [u |]; [| discriminate].
  apply Z.eqb_eq in T1. subst u.
  apply negb_true_iff in T2, T3. auto.
Qed.

Lemma alphabet_not_white v :
  0 <= v <= 63 -> Base64.is_ascii_whitespace (b64_char v) = false.
Proof. intros Hv. apply (alphabet v Hv). Qed.

Lemma pad_facts :
  Base64.is_pad pad = true /\ Base64.is_ascii_whitespace pad = false.
Proof. split; reflexivity. Qed.

(** *** Groups of bytes and of six-bit values *)

Ltac bits_to_arith :=
  rewrite ?Z.shiftl_mul_pow2, ?Z.shiftr_div_pow2, ?land_255, ?land_63 by lia;
  change (2 ^ 18) with 262144; change (2 ^ 16) with 65536;
  change (2 ^ 12) with 4096; change (2 ^ 8) with 256;
  change (2 ^ 6) with 64; change (2 ^ 4) with 16; change (2 ^ 2) with 4.

Lemma lor3_bytes a b c :
  0 <= a <= 255 -> 0 <= b <= 255 -> 0 <= c <= 255 ->
  Z.lor (Z.lor (Z.shiftl a 16) (Z.shiftl b 8)) c = a * 65536 + b * 256 + c.
Proof.
  intros Ha Hb Hc. bits_to_arith.
  rewrite (lor_disjoint (a * 65536) (b * 256) 16);
    [| lia | change (2 ^ 16) with 65536; apply Z.mod_mul; lia
     | change (2 ^ 16) with 65536; lia].
  rewrite (lor_disjoint _ c 8);
    [reflexivity | lia | | change (2 ^ 8) with 256; lia].
  change (2 ^ 8) with 256.
  replace (a * 65536 + b * 256) with ((a * 256 + b) * 256) by lia.
  apply Z.mod_mul. lia.
Qed.

Lemma lor4_sextets a b c d :
  0 <= a <= 63 -> 0 <= b <= 63 -> 0 <= c <= 63 -> 0 <= d <= 63 ->
  Z.lor (Z.lor (Z.shiftl a 18) (Z.shiftl b 12)) (Z.lor (Z.shiftl c 6) d) =
  a * 262144 + b * 4096 + c * 64 + d.
Proof.
  intros Ha Hb Hc Hd. bits_to_arith.
  rewrite (lor_disjoint (c * 64) d 6);
    [| lia | change (2 ^ 6) with 64; apply Z.mod_mul; lia
     | change (2 ^ 6) with 64; lia].
  rewrite (lor_disjoint (a * 262144) (b * 4096) 18);
    [| lia | change (2 ^ 18) with 262144; apply Z.mod_mul; lia
     | change (2 ^ 18) with 262144; lia].
  rewrite (lor_disjoint _ (c * 64 + d) 12);
    [lia | lia | | change (2 ^ 12) with 4096; lia].
  change (2 ^ 12) with 4096.
  replace (a * 262144 + b * 4096) with ((a * 64 + b) * 4096) by lia.
  apply Z.mod_mul. lia.
Qed.

Lemma lor3_sextets a b c :
  0 <= a <= 63 -> 0 <= b <= 63 -> 0 <= c <= 63 ->
  Z.lor (Z.lor (Z.shiftl a 12) (Z.shiftl b 6)) c = a * 4096 + b * 64 + c.
Proof.
  intros Ha Hb Hc. bits_to_arith.
  rewrite (lor_disjoint (a * 4096) (b * 64) 12);
    [| lia | change (2 ^ 12) with 4096; apply Z.mod_mul; lia
     | change (2 ^ 12) with 4096; lia].
  rewrite (lor_disjoint _ c 6);
    [reflexivity | lia | | change (2 ^ 6) with 64; lia].
  change (2 ^ 6) with 64.
  replace (a * 4096 + b * 64) with ((a * 64 + b) * 64) by lia.
  apply Z.mod_mul. lia.
Qed.

Lemma lor2_sextets a b :
  0 <= a <= 63 -> 0 <= b <= 63 ->
  Z.lor (Z.shiftl a 6) b = a * 64 + b.
Proof.
  intros Ha Hb. bits_to_arith.
  apply (lor_disjoint (a * 64) b 6);
    [lia | change (2 ^ 6) with 64; apply Z.mod_mul; lia
     | change (2 ^ 6) with 64; lia].
Qed.

Lemma lor2_bytes a b :
  0 <= a <= 255 -> 0 <= b <= 255 ->
  Z.lor (Z.shiftl a 16) (Z.shiftl b 8) = a * 65536 + b * 256.
Proof.
  intros Ha Hb. bits_to_arith.
  apply (lor_disjoint (a * 65536) (b * 256) 16);
    [lia | change (2 ^ 16) with 65536; apply Z.mod_mul; lia
     | change (2 ^ 16) with 65536; lia].
Qed.

Lemma list_ind3 {A : Type} (P : list A -> Prop) :
  P [] -> (forall a, P [a]) -> (forall a b, P [a; b]) ->
  (forall a b c l, P l -> P (a :: b :: c :: l)) ->
  forall l, P l.
Proof.
  intros H0 H1 H2 H3.
  fix IH 1.
  intros [| a [| b [| c l]]];
    [exact H0 | apply H1 | apply H2 | apply H3, IH].
Qed.

Lemma group3_arith a b c n :
  0 <= a <= 255 -> 0 <= b <= 255 -> 0 <= c <= 255 ->
  n = a * 65536 + b * 256 + c ->
  let v1 := n / 262144 in
  let v2 := (n / 4096) mod 64 in
  let v3 := (n / 64) mod 64 in
  let v4 := n mod 64 in
  (0 <= v1 <= 63 /\ 0 <= v2 <= 63 /\ 0 <= v3 <= 63 /\ 0 <= v4 <= 63) /\
  v1 * 262144 + v2 * 4096 + v3 * 64 + v4 = n /\
  (n / 65536) mod 256 = a /\ (n / 256) mod 256 = b /\ n mod 256 = c.
Proof.
  intros Ha Hb Hc Hn. cbv zeta. Z.div_mod_to_equations. lia.
Qed.

Lemma group2_arith a b n :
  0 <= a <= 255 -> 0 <= b <= 255 ->
  n = a * 65536 + b * 256 ->
  let v1 := n / 262144 in
  let v2 := (n / 4096) mod 64 in
  let v3 := (n / 64) mod 64 in
  (0 <= v1 <= 63 /\ 0 <= v2 <= 63 /\ 0 <= v3 <= 63) /\
  let m := (v1 * 4096 + v2 * 64 + v3) / 4 in
  (m / 256) mod 256 = a /\ m mod 256 = b.
Proof.
  intros Ha Hb Hn. cbv zeta. Z.div_mod_to_equations. lia.
Qed.

Lemma group1_arith a n :
  0 <= a <= 255 ->
  n = a * 65536 ->
  let v1 := n / 262144 in
  let v2 := (n / 4096) mod 64 in
  (0 <= v1 <= 63 /\ 0 <= v2 <= 63) /\
  ((v1 * 64 + v2) / 16) mod 256 = a.
Proof.
  intros Ha Hn. cbv zeta. Z.div_mod_to_equations. lia.
Qed.

(** The six-bit values [btoa] emits for a list of bytes, before they are
    turned into characters, and the number of padding characters. *)
Lemma encode_shape bytes :
  Forall (fun b => 0 <= b <= 255) bytes ->
  exists vs npad,
    Base64.strip_whitespace (encode_groups bytes) =
      map b64_char vs ++ repeat pad npad /\
    Forall (fun v => 0 <= v <= 63) vs /\
    Base64.decode_groups vs = bytes /\
    (npad = 0%nat /\ Z.of_nat (List.length vs) mod 4 = 0 \/
     npad = 1%nat /\ Z.of_nat (List.length vs) mod 4 = 3 \/
     npad = 2%nat /\ Z.of_nat (List.length vs) mod 4 = 2).
Proof.
  induction bytes as [| a | a b | a b c l IH] using list_ind3; intros HB.
  - exists [], 0%nat. repeat split; auto.
  - inversion HB as [| ? ? Ha _]; subst.
    destruct (group1_arith a (a * 65536) Ha eq_refl) as [[R1 R2] D].
    exists [a * 65536 / 262144; (a * 65536 / 4096) mod 64], 2%nat.
    split; [| split; [| split]].
    + cbn [encode_groups Base64.strip_whitespace]. bits_to_arith.
      rewrite !alphabet_not_white by assumption.
      reflexivity.
    + repeat constructor; lia.
    + cbn [Base64.decode_groups]. rewrite lor2_sextets by assumption.
      bits_to_arith. rewrite D. reflexivity.
    + right. right. split; reflexivity.
  - inversion HB as [| ? ? Ha HB']; subst.
    inversion HB' as [| ? ? Hb _]; subst.
    pose proof (lor2_bytes a b Ha Hb) as E.
    destruct (group2_arith a b _ Ha Hb eq_refl) as [[R1 [R2 R3]] [D1 D2]].
    exists [(a * 65536 + b * 256) / 262144;
            ((a * 65536 + b * 256) / 4096) mod 64;
            ((a * 65536 + b * 256) / 64) mod 64], 1%nat.
    split; [| split; [| split]].
    + cbn [encode_groups Base64.strip_whitespace]. rewrite E. bits_to_arith.
      rewrite !alphabet_not_white by assumption.
      reflexivity.
    + repeat constructor; lia.
    + cbn [Base64.decode_groups]. rewrite lor3_sextets by assumption.
      bits_to_arith. cbv zeta in D1, D2. rewrite D1, D2. reflexivity.
    + right. left. split; reflexivity.
  - inversion HB as [| ? ? Ha HB1]; subst.
    inversion HB1 as [| ? ? Hb HB2]; subst.
    inversion HB2 as [| ? ? Hc HB3]; subst.
    destruct (IH HB3) as (vs & npad & S1 & S2 & S3 & S4).
    pose proof (lor3_bytes a b c Ha Hb Hc) as E.
    destruct (group3_arith a b c _ Ha Hb Hc eq_refl)
      as [(R1 & R2 & R3 & R4) (D0 & D1 & D2 & D3)].
    set (n := a * 65536 + b * 256 + c) in *.
    exists (n / 262144 :: (n / 4096) mod 64 :: (n / 64) mod 64 :: n mod 64 :: vs),
           npad.
    split; [| split; [| split]].
    + cbn [encode_groups Base64.strip_whitespace]. rewrite E. bits_to_arith.
      rewrite !alphabet_not_white by assumption.
      rewrite S1. reflexivity.
    + repeat (constructor; [lia |]). exact S2.
    + cbn [Base64.decode_groups]. rewrite lor4_sextets by assumption.
      bits_to_arith. rewrite D0, D1, D2, D3, S3. reflexivity.
    + cbn [List.length]. rewrite !Nat2Z.inj_succ.
      replace (Z.succ (Z.succ (Z.succ (Z.succ (Z.of_nat (List.length vs))))))
        with (Z.of_nat (List.length vs) + 1 * 4) by lia.
      rewrite Z.mod_add by lia. exact S4.
Qed.

Lemma sextets_alphabet vs :
  Forall (fun v => 0 <= v <= 63) vs -> Base64.sextets (map b64_char vs) = Some vs.
Proof.
  induction 1 as [| v vs Hv _ IH]; [reflexivity |].
  cbn [map Base64.sextets].
  rewrite (proj1 (alphabet v Hv)), IH. reflexivity.
Qed.

Lemma last_not_pad vs :
  Forall (fun v => 0 <= v <= 63) vs -> vs <> [] ->
  exists c rest, rev (map b64_char vs) = c :: rest /\ Base64.is_pad c = false.
Proof.
  intros Hvs Hne.
  destruct (exists_last Hne) as (front & v & ->).
  rewrite map_app, rev_app_distr. cbn.
  exists (b64_char v), (rev (map b64_char front)). split; [reflexivity |].
  apply Forall_app in Hvs. destruct Hvs as [_ Hv].
  inversion Hv; subst. apply (alphabet v); assumption.
Qed.

Lemma strip_padding_encoded vs npad :
  Forall (fun v => 0 <= v <= 63) vs ->
  (npad = 0%nat /\ Z.of_nat (List.length vs) mod 4 = 0 \/
   npad = 1%nat /\ Z.of_nat (List.length vs) mod 4 = 3 \/
   npad = 2%nat /\ Z.of_nat (List.length vs) mod 4 = 2) ->
  Base64.strip_padding (map b64_char vs ++ repeat pad npad) = map b64_char vs.
Proof.
  intros Hvs Hpad. unfold Base64.strip_padding.
  assert (Hne : forall k, Z.of_nat (List.length vs) mod 4 = k -> k <> 0 -> vs <> [])
    by (intros k Hk Hk0 ->; cbn in Hk; congruence).
  rewrite length_app, length_map, repeat_length, Nat2Z.inj_add.
  destruct Hpad as [[-> Hm] | [[-> Hm] | [-> Hm]]].
  - cbn [repeat]. rewrite app_nil_r, Z.add_0_r, Hm. cbn [Z.eqb].
    destruct vs as [| v vs']; [reflexivity |].
    destruct (last_not_pad (v :: vs') Hvs ltac:(discriminate)) as (c & rest & E & P).
    rewrite E. destruct rest; [reflexivity |]. rewrite P. reflexivity.
  - rewrite <- Zplus_mod_idemp_l, Hm.
    change ((3 + Z.of_nat 1) mod 4 =? 0) with true. cbv iota.
    rewrite rev_app_distr. change (rev (repeat pad 1)) with [pad].
    destruct (last_not_pad vs Hvs (Hne 3 Hm ltac:(lia))) as (c & rest & E & P).
    rewrite E. cbn [app]. rewrite (proj1 pad_facts), P.
    rewrite <- E. apply rev_involutive.
  - rewrite <- Zplus_mod_idemp_l, Hm.
    change ((2 + Z.of_nat 2) mod 4 =? 0) with true. cbv iota.
    rewrite rev_app_distr. change (rev (repeat pad 2)) with [pad; pad].
    cbn [app]. rewrite !(proj1 pad_facts). apply rev_involutive.
Qed.

Lemma atob_encoded bytes :
  Forall (fun b => 0 <= b <= 255) bytes -> Base64.atob (encode_groups bytes) = Some bytes.
Proof.
  intros HB. destruct (encode_shape bytes HB) as (vs & npad & S1 & S2 & S3 & S4).
  unfold Base64.atob. cbv zeta. rewrite S1.
  rewrite strip_padding_encoded by assumption.
  rewrite length_map.
  assert (Hm : (Z.of_nat (List.length vs) mod 4 =? 1) = false).
  { apply Z.eqb_neq. destruct S4 as [[_ H] | [[_ H] | [_ H]]]; rewrite H; lia. }
  rewrite Hm, sextets_alphabet by assumption.
  cbn [option_map]. rewrite S3. reflexivity.
Qed.

(** *** The chunks of [arrayBufferToBase64] *)

Lemma chunkSize_positive : (0 < chunkSize)%nat.
Proof. unfold chunkSize. lia. Qed.

Lemma chunks_concat fuel : forall bytes,
  (List.length bytes <= fuel)%nat -> List.concat (chunks fuel bytes) = bytes.
Proof.
  induction fuel as [| fuel IH]; intros bytes Hlen.
  - destruct bytes; [reflexivity | cbn in Hlen; lia].
  - destruct bytes as [| b bytes]; [reflexivity |].
    cbn [chunks List.concat].
    rewrite IH.
    + apply firstn_skipn.
    + rewrite length_skipn. pose proof chunkSize_positive.
      cbn [List.length] in *. lia.
Qed.

Lemma is_byte_forallb bytes :
  Forall (fun b => 0 <= b <= 255) bytes ->
  forallb (fun c => (0 <=? c) && (c <=? 255)) bytes = true.
Proof.
  intros HB. apply forallb_forall. intros x Hx.
  rewrite Forall_forall in HB. specialize (HB x Hx). cbv beta in HB.
  apply andb_true_iff. split; apply Z.leb_le; lia.
Qed.

Lemma arrayBufferToBase64_encode bytes :
  Forall (fun b => 0 <= b <= 255) bytes ->
  arrayBufferToBase64 bytes = Some (encode_groups bytes).
Proof.
  intros HB. unfold arrayBufferToBase64.
  rewrite chunks_concat by lia.
  unfold btoa. rewrite is_byte_forallb by assumption. reflexivity.
Qed.

Lemma encoded_decodes bytes :
  Forall (fun b => 0 <= b <= 255) bytes ->
  arrayBufferToBase64 bytes = Some (encode_groups bytes) /\
  Base64.base64ToUint8Array (encode_groups bytes) = Some bytes.
Proof.
  intros HB. split; [apply arrayBufferToBase64_encode, HB |].
  unfold Base64.base64ToUint8Array. rewrite atob_encoded by assumption.
  cbn [option_map]. f_equal.
  induction HB as [| b bytes Hb _ IH]; [reflexivity |].
  cbn [map]. rewrite IH. f_equal.
  unfold Codec.ToUint8. apply Z.mod_small. lia.
Qed.

(** X4.  What [arrayBufferToBase64] makes of the bytes of a buffer,
    [base64ToUint8Array] turns back into the same bytes: the encoding never
    fails on bytes, is assembled from the chunks without loss, and the
    decoding of its padded output is exact. *)
Theorem base64_roundtrip bytes :
  Forall (fun b => 0 <= b <= 255) bytes ->
  exists text,
    arrayBufferToBase64 bytes = Some text /\
    Base64.base64ToUint8Array text = Some bytes.
Proof.
  intros HB. exists (encode_groups bytes).
  destruct (encoded_decodes bytes HB) as [E1 E2].
  split; assumption.
Qed.

Lemma base64_roundtrip_witness :
  Forall (fun b => 0 <= b <= 255) [72; 101; 108; 108; 111] /\
  exists text,
    arrayBufferToBase64 [72; 101; 108; 108; 111] = Some text /\
    Base64.base64ToUint8Array text = Some [72; 101; 108; 108; 111].
Proof.
  assert (H : Forall (fun b => 0 <= b <= 255) [72; 101; 108; 108; 111])
    by (repeat constructor; lia).
  split; [exact H |]. exact (base64_roundtrip _ H).
Defined.

(** *** The bytes of 16-bit samples *)

Lemma Int16Array_bytes_are_bytes pcm :
  Forall (fun b => 0 <= b <= 255) (Int16Array_bytes pcm) /\
  List.length (Int16Array_bytes pcm) = (2 * List.length pcm)%nat.
Proof.
  unfold Int16Array_bytes. induction pcm as [| v pcm [IH1 IH2]].
  - split; [constructor | reflexivity].
  - cbn [flat_map int16_bytes app List.length]. split.
    + constructor; [| constructor; [| exact IH1]];
        cbv beta zeta; Z.div_mod_to_equations; lia.
    + rewrite IH2. lia.
Qed.

Lemma Int16Array_roundtrip pcm :
  Forall (fun v => -32768 <= v <= 32767) pcm ->
  Base64.Int16Array_of_bytes (Int16Array_bytes pcm) = pcm.
Proof.
  unfold Int16Array_bytes.
  induction 1 as [| v pcm Hv _ IH]; [reflexivity |].
  cbn [flat_map int16_bytes app Base64.Int16Array_of_bytes].
  rewrite IH. f_equal. cbv zeta.
  assert (E : (v mod 65536) mod 256 + 256 * (v mod 65536 / 256) = v mod 65536)
    by (Z.div_mod_to_equations; lia).
  rewrite E.
  destruct (v mod 65536 <? 32768) eqn:C.
  - apply Z.ltb_lt in C. Z.div_mod_to_equations. lia.
  - apply Z.ltb_ge in C. Z.div_mod_to_equations. lia.
Qed.


(** *** Sending *)

Lemma baseSend_open payload st ws :
  websocketRef st = Some ws -> is_open ws = true ->
  baseSend payload st = set_websocketRef (Some (WebSocket_send payload ws)) st.
Proof. intros H1 H2. unfold baseSend. rewrite H1, H2. reflexivity. Qed.

Lemma baseSend_not_open payload st :
  (forall ws, websocketRef st = Some ws -> is_open ws = false) ->
  baseSend payload st = st.
Proof.
  intros H. unfold baseSend.
  destruct (websocketRef st) as [ws |]; [| reflexivity].
  rewrite (H ws eq_refl). reflexivity.
Qed.

(** X5.  [sendAudio] puts one envelope on an open socket, whose [data]
    decode, by the functions of the receiving path, to the samples given;
    it does nothing without an open socket. *)
Theorem sendAudio_delivers pcm st :
  Forall (fun v => -32768 <= v <= 32767) pcm ->
  ((forall ws, websocketRef st = Some ws -> is_open ws = false) ->
   sendAudio pcm st = st) /\
  (forall ws, websocketRef st = Some ws -> is_open ws = true ->
   exists data,
     sendAudio pcm st =
     set_websocketRef
       (Some (WebSocket_send
                (JObj [("type", JStr "audio"); ("data", JStr data)]) ws)) st /\
     option_map Base64.Int16Array_of_bytes (Base64.base64ToUint8Array data) =
     Some pcm).
Proof.
  intros Hpcm.
  destruct (Int16Array_bytes_are_bytes pcm) as [HB _].
  destruct (encoded_decodes _ HB) as (E1 & E2).
  set (data := encode_groups _) in *.
  unfold sendAudio. rewrite E1. split.
  - apply baseSend_not_open.
  - intros ws Hws Hopen. exists data. split.
    + apply baseSend_open; assumption.
    + rewrite E2. cbn [option_map]. rewrite Int16Array_roundtrip by assumption.
      reflexivity.
Qed.

Lemma sendAudio_delivers_witness :
  let st := App.core Sample.connected in
  Forall (fun v => -32768 <= v <= 32767) [-1; 256] /\
  exists ws data,
    websocketRef st = Some ws /\ is_open ws = true /\
    sendAudio [-1; 256] st =
    set_websocketRef
      (Some (WebSocket_send
               (JObj [("type", JStr "audio"); ("data", JStr data)]) ws)) st /\
    option_map Base64.Int16Array_of_bytes (Base64.base64ToUint8Array data) =
    Some [-1; 256].
Proof.
  cbv zeta.
  assert (H : Forall (fun v => -32768 <= v <= 32767) [-1; 256])
    by (repeat constructor; lia).
  split; [exact H |].
  destruct (websocketRef (App.core Sample.connected)) as [ws |] eqn:Ews;
    [| vm_compute in Ews; discriminate].
  assert (Hopen : is_open ws = true)
    by (vm_compute in Ews; injection Ews as <-; reflexivity).
  destruct (proj2 (sendAudio_delivers [-1; 256] (App.core Sample.connected) H)
              ws Ews Hopen) as (data & E1 & E2).
  exists ws, data. auto.
Defined.

(** *** Playing *)

Lemma playAssistantAudio_schedules cl host base64 rate st bytes :
  Base64.base64ToUint8Array base64 = Some bytes ->
  Z.of_nat (List.length bytes) mod 2 = 0 ->
  Base64.Int16Array_of_bytes bytes <> [] ->
  (0 < targetSampleRate cl host rate)%Q ->
  let floats := Codec.int16ToFloat32 (Base64.Int16Array_of_bytes bytes) in
  let r := targetSampleRate cl host rate in
  let start := startAt (currentTime host) (playbackTimeRef st) in
  playAssistantAudio cl host base64 rate st =
  set_playbackTimeRef (start + duration floats r)%Q
    (start_source
       {| src_samples := floats; src_sampleRate := r; src_startAt := start |}
       (ensureAudioContext st)).
Proof.
  intros Hb Heven Hne Hr. cbv zeta. unfold playAssistantAudio. cbv zeta.
  rewrite Hb, Heven. cbn [Z.eqb negb].
  destruct (Base64.Int16Array_of_bytes bytes) as [| v pcm] eqn:E;
    [congruence |].
  assert (L : (Z.of_nat (List.length (v :: pcm)) =? 0) = false)
    by (apply Z.eqb_neq; cbn [List.length]; lia).
  rewrite L.
  assert (R : Qle_bool (targetSampleRate cl host rate) 0 = false).
  { destruct (Qle_bool (targetSampleRate cl host rate) 0) eqn:C; [| reflexivity].
    apply Qle_bool_iff in C. lra. }
  rewrite R.
  rewrite (proj1 (proj2 (SessionFacts.ensureAudioContext_frame st))).
  reflexivity.
Qed.

(** X6.  Loop-back: the envelope [sendAudio] emits for a non-empty block of
    samples is one the dispatcher of either copy accepts, and what it plays
    is the block itself, each sample divided by 32768, at the rate of the
    receiving side. *)
Theorem audio_loopback cl host pcm st ws :
  pcm <> [] ->
  Forall (fun v => -32768 <= v <= 32767) pcm ->
  websocketRef st = Some ws -> is_open ws = true ->
  (0 < targetSampleRate cl host None)%Q ->
  exists envelope,
    option_map sent (websocketRef (sendAudio pcm st)) =
      Some (sent ws ++ [envelope]) /\
    let played (c : Core.State) : Core.State :=
      let start := startAt (currentTime host) (playbackTimeRef c) in
      let floats := Codec.int16ToFloat32 pcm in
      let r := targetSampleRate cl host None in
      set_playbackTimeRef (start + duration floats r)%Q
        (start_source
           {| src_samples := floats; src_sampleRate := r;
              src_startAt := start |}
           (ensureAudioContext c)) in
    (forall receiver,
       App.core (App.handleServerMessage cl host (Some envelope) receiver) =
       played (App.core receiver)) /\
    (forall receiver,
       LegacyApp.core
         (LegacyApp.handleServerMessage cl host (Some envelope) receiver) =
       played (LegacyApp.core receiver)).
Proof.
  intros Hne Hpcm Hws Hopen Hr.
  destruct (Int16Array_bytes_are_bytes pcm) as [HB HL].
  destruct (encoded_decodes _ HB) as (E1 & E2).
  set (data := encode_groups _) in *.
  exists (JObj [("type", JStr "audio"); ("data", JStr data)]).
  split.
  - unfold sendAudio. rewrite E1.
    rewrite (baseSend_open _ _ _ Hws Hopen). reflexivity.
  - cbv zeta.
    assert (P : forall c,
      on_audio cl host (JObj [("type", JStr "audio"); ("data", JStr data)]) c =
      set_playbackTimeRef
        (startAt (currentTime host) (playbackTimeRef c)
         + duration (Codec.int16ToFloat32 pcm) (targetSampleRate cl host None))%Q
        (start_source
           {| src_samples := Codec.int16ToFloat32 pcm;
              src_sampleRate := targetSampleRate cl host None;
              src_startAt := startAt (currentTime host) (playbackTimeRef c) |}
           (ensureAudioContext c))).
    { intros c. unfold on_audio.
      change (as_string (get "data" (JObj [("type", JStr "audio"); ("data", JStr data)])))
        with (Some data).
      change (as_number (get "sampleRate" (JObj [("type", JStr "audio"); ("data", JStr data)])))
        with (@None Q).
      cbv beta iota.
      rewrite (playAssistantAudio_schedules cl host data None c _ E2).
      - rewrite Int16Array_roundtrip by assumption. reflexivity.
      - rewrite HL. rewrite Nat2Z.inj_mul. rewrite Z.mul_comm.
        apply Z.mod_mul. lia.
      - rewrite Int16Array_roundtrip by assumption. assumption.
      - assumption. }
    split; intros receiver.
    + rewrite SessionFacts.App_dispatch_audio by reflexivity. apply P.
    + rewrite SessionFacts.Legacy_dispatch_audio by reflexivity. apply P.
Qed.

Lemma audio_loopback_witness :
  let st := App.core Sample.connected in
  ([-1; 256] <> [] /\
   Forall (fun v => -32768 <= v <= 32767) [-1; 256] /\
   (0 < targetSampleRate Sample.cl0 Sample.host None)%Q) /\
  exists envelope,
    option_map (fun ws => List.length (sent ws)) (websocketRef (sendAudio [-1; 256] st))
      = Some 1%nat /\
    Scenario.started_sources
      (App.core (App.handleServerMessage Sample.cl0 Sample.host (Some envelope)
                   Sample.connected)) =
    [{| src_samples := Codec.int16ToFloat32 [-1; 256];
        src_sampleRate := 48000%Q; src_startAt := (1 # 20)%Q |}].
Proof.
  cbv zeta.
  assert (H1 : [-1; 256] <> []) by discriminate.
  assert (H2 : Forall (fun v => -32768 <= v <= 32767) [-1; 256])
    by (repeat constructor; lia).
  assert (H3 : (0 < targetSampleRate Sample.cl0 Sample.host None)%Q)
    by reflexivity.
  split; [auto |].
  destruct (websocketRef (App.core Sample.connected)) as [ws |] eqn:Ews;
    [| vm_compute in Ews; discriminate].
  assert (Hopen : is_open ws = true /\ sent ws = [])
    by (vm_compute in Ews; injection Ews as <-; split; reflexivity).
  destruct Hopen as [Hopen Hsent].
  destruct (audio_loopback Sample.cl0 Sample.host [-1; 256]
              (App.core Sample.connected) ws H1 H2 Ews Hopen H3)
    as (envelope & E1 & E2 & _).
  exists envelope. split.
  - destruct (websocketRef (sendAudio [-1; 256] (App.core Sample.connected)))
      as [ws' |]; [| discriminate].
    cbn [option_map] in *. injection E1 as ->. rewrite Hsent. reflexivity.
  - rewrite E2. vm_compute. reflexivity.
Defined.

End WireFacts.
(** ** Resampling of the captured audio *)

Module ResampleFacts.
Import Core Wire.
Local Open Scope list_scope.
Local Open Scope Z_scope.

Lemma Qfloor_unique x z :
  (inject_Z z <= x)%Q -> (x < inject_Z z + 1)%Q -> Qfloor x = z.
Proof.
  intros H1 H2.
  pose proof (Qfloor_le x) as F1. pose proof (Qlt_floor x) as F2.
  rewrite inject_Z_plus in F2. change (inject_Z 1) with 1%Q in F2.
  apply Z.le_antisymm; apply CodecMore.Zle_of_Qlt_succ; lra.
Qed.

Lemma Math_round_comp x y : (x == y)%Q -> Math_round x = Math_round y.
Proof. intros H. unfold Math_round. rewrite H. reflexivity. Qed.

Lemma Math_round_Z z : Math_round (inject_Z z) = z.
Proof. unfold Math_round. apply Qfloor_unique; lra. Qed.

Lemma Math_round_half z : Math_round (inject_Z z + (1 # 2)) = z + 1.
Proof.
  unfold Math_round. apply Qfloor_unique;
    rewrite inject_Z_plus; change (inject_Z 1) with 1%Q; lra.
Qed.

(** *** Length and range *)








(** *** Integer ratios *)

Lemma downsample_loop_comp ratio ratio' buffer n : forall r b,
  (ratio == ratio')%Q ->
  downsample_loop n r b ratio buffer = downsample_loop n r b ratio' buffer.
Proof.
  induction n as [| n IH]; intros r b Hr; [reflexivity |].
  cbn [downsample_loop]. cbv zeta.
  rewrite (Math_round_comp (inject_Z (r + 1) * ratio) (inject_Z (r + 1) * ratio'))
    by (rewrite Hr; reflexivity).
  rewrite (IH _ _ Hr). reflexivity.
Qed.





(** *** Doubling the rate *)

Lemma block_mean_one x : block_mean [x] = x.
Proof.
  destruct x as [n d].
  unfold block_mean, Qdiv, Qinv, inject_Z, Qmult, Qplus. cbn.
  f_equal; lia.
Qed.

Lemma slice_one {A : Type} (buffer : list A) x rest j :
  skipn j buffer = x :: rest ->
  slice (Z.of_nat j) (Z.min (Z.of_nat j + 1) (Z.of_nat (List.length buffer)))
    buffer = [x] /\
  skipn (S j) buffer = rest.
Proof.
  intros Hs.
  assert (Hlen : (j < List.length buffer)%nat).
  { destruct (Nat.lt_ge_cases j (List.length buffer)) as [H | H]; [exact H |].
    rewrite skipn_all2 in Hs by assumption. discriminate. }
  unfold slice. rewrite Nat2Z.id, Hs.
  rewrite Z.min_l by lia.
  replace (Z.to_nat (Z.of_nat j + 1 - Z.of_nat j)) with 1%nat by lia.
  split; [reflexivity |].
  change (S j) with (1 + j)%nat. rewrite <- skipn_skipn, Hs. reflexivity.
Qed.

Lemma slice_empty {A : Type} (buffer : list A) a b :
  b <= a -> slice a b buffer = [].
Proof.
  intros H. unfold slice. replace (Z.to_nat (b - a)) with 0%nat by lia.
  reflexivity.
Qed.

Lemma upsample_loop buffer m : forall j,
  (j + m = List.length buffer)%nat ->
  downsample_loop (2 * m) (2 * Z.of_nat j) (Z.of_nat j) (1 # 2) buffer =
  flat_map (fun x => [x; 0%Q]) (skipn j buffer).
Proof.
  induction m as [| m IH]; intros j Hj.
  - rewrite skipn_all2 by lia. reflexivity.
  - replace (2 * S m)%nat with (S (S (2 * m))) by lia.
    destruct (skipn j buffer) as [| x rest] eqn:Hs.
    { assert (List.length (skipn j buffer) = S m)
        by (rewrite length_skipn; lia).
      rewrite Hs in H. discriminate. }
    destruct (slice_one buffer x rest j Hs) as [S1 S2].
    cbn [downsample_loop flat_map app]. cbv zeta.
    assert (E1 : Math_round (inject_Z (2 * Z.of_nat j + 1) * (1 # 2))
                 = Z.of_nat j + 1).
    { rewrite (Math_round_comp _ (inject_Z (Z.of_nat j) + (1 # 2))).
      - apply Math_round_half.
      - rewrite inject_Z_plus, inject_Z_mult.
        change (inject_Z 2) with 2%Q. change (inject_Z 1) with 1%Q. lra. }
    assert (E2 : Math_round (inject_Z (2 * Z.of_nat j + 1 + 1) * (1 # 2))
                 = Z.of_nat j + 1).
    { rewrite (Math_round_comp _ (inject_Z (Z.of_nat j + 1))).
      - apply Math_round_Z.
      - rewrite !inject_Z_plus, inject_Z_mult.
        change (inject_Z 2) with 2%Q. change (inject_Z 1) with 1%Q. lra. }
    rewrite E1, E2, S1, block_mean_one.
    rewrite slice_empty by lia. f_equal. f_equal.
    specialize (IH (S j) ltac:(lia)).
    rewrite S2 in IH. rewrite <- IH.
    f_equal; lia.
Qed.

(** X9.  When the rate asked for is twice the rate of the device, every
    input sample is followed by a zero: the blocks of odd rank are empty and
    an empty block yields 0, nothing is interpolated. *)
Theorem upsample_inserts_zeros buffer inputRate targetRate :
  (0 < inputRate)%Q -> (targetRate == 2 * inputRate)%Q ->
  downsampleBuffer buffer inputRate targetRate =
  flat_map (fun x => [x; 0%Q]) buffer.
Proof.
  intros Hi Hrate.
  assert (Hratio : (inputRate / targetRate == 1 # 2)%Q).
  { rewrite Hrate. field. lra. }
  unfold downsampleBuffer. cbv zeta.
  assert (E : Qeq_bool targetRate inputRate = false).
  { destruct (Qeq_bool targetRate inputRate) eqn:C; [| reflexivity].
    apply Qeq_bool_iff in C. rewrite Hrate in C. lra. }
  rewrite E.
  assert (N : Math_round (inject_Z (Z.of_nat (List.length buffer))
                          / (inputRate / targetRate))
              = 2 * Z.of_nat (List.length buffer)).
  { rewrite (Math_round_comp _ (inject_Z (2 * Z.of_nat (List.length buffer)))).
    - apply Math_round_Z.
    - rewrite Hratio, inject_Z_mult. change (inject_Z 2) with 2%Q. field. }
  rewrite N.
  destruct buffer as [| x buffer]; [reflexivity |].
  assert (L : (2 * Z.of_nat (List.length (x :: buffer)) <=? 0) = false)
    by (apply Z.leb_gt; cbn [List.length]; lia).
  rewrite L.
  rewrite (downsample_loop_comp _ (1 # 2)) by assumption.
  replace (Z.to_nat (2 * Z.of_nat (List.length (x :: buffer))))
    with (2 * List.length (x :: buffer))%nat by lia.
  exact (upsample_loop (x :: buffer) (List.length (x :: buffer)) 0 eq_refl).
Qed.

Lemma upsample_inserts_zeros_witness :
  ((0 < 8000)%Q /\ (16000 == 2 * 8000)%Q) /\
  downsampleBuffer [1; 2; 3]%Q 8000 16000 = [1; 0; 2; 0; 3; 0]%Q.
Proof.
  assert (H1 : (0 < 8000)%Q) by reflexivity.
  assert (H2 : (16000 == 2 * 8000)%Q) by reflexivity.
  split; [auto |]. exact (upsample_inserts_zeros _ 8000 16000 H1 H2).
Defined.

(** *** The capture callback *)



End ResampleFacts.
(** ** Invariants of the session *)

Module ReachFacts.
Import Json Core Scenario Machine Bookkeeping.
Local Open Scope string_scope.
Local Open Scope list_scope.
Local Open Scope Z_scope.

Lemma App_run_app events1 : forall events2 st,
  App_run (events1 ++ events2) st =
  match App_run events1 st with
  | Some st1 => App_run events2 st1
  | None => None
  end.
Proof.
  induction events1 as [| e events1 IH]; intros events2 st; [reflexivity |].
  cbn [app App_run]. destruct (enabled e (App.core st)); [apply IH | reflexivity].
Qed.

Lemma Legacy_run_app events1 : forall events2 st,
  Legacy_run (events1 ++ events2) st =
  match Legacy_run events1 st with
  | Some st1 => Legacy_run events2 st1
  | None => None
  end.
Proof.
  induction events1 as [| e events1 IH]; intros events2 st; [reflexivity |].
  cbn [app Legacy_run].
  destruct (enabled e (LegacyApp.core st)); [apply IH | reflexivity].
Qed.

Lemma App_step_core e st :
  App.core (App_step e st) =
  resumeHandle_effect
    (match e with
     | Message cl host parsed =>
         App.core (App.handleServerMessage cl host parsed st)
     | Open _ resumeText jobDescriptionText _ _ =>
         handle e (App.contextPayload resumeText jobDescriptionText) (App.core st)
     | _ => handle e None (App.core st)
     end).
Proof. destruct e; reflexivity. Qed.

Lemma Legacy_step_core e st :
  LegacyApp.core (Legacy_step e st) =
  resumeHandle_effect
    (match e with
     | Message cl host parsed =>
         LegacyApp.core (LegacyApp.handleServerMessage cl host parsed st)
     | _ => handle e None (LegacyApp.core st)
     end).
Proof. destruct e; reflexivity. Qed.


(** *** The message log *)

Lemma numbered_S n : numbered (S n) = numbered n ++ [Z.of_nat (S n)].
Proof. unfold numbered. rewrite seq_S, map_app. reflexivity. Qed.












(** The cases of the dispatchers. *)



Lemma App_core_on_transcript host data st :
  App.core (App.on_transcript host data st) = App.core st.
Proof.
  unfold App.on_transcript. destruct (as_string _); [| reflexivity].
  apply SessionFacts.App_core_appendTranscript.
Qed.

Lemma Legacy_core_on_transcript host data st :
  LegacyApp.core (LegacyApp.on_transcript host data st) = LegacyApp.core st.
Proof.
  unfold LegacyApp.on_transcript. destruct (as_string _); [| reflexivity].
  apply SessionFacts.Legacy_core_appendTranscript.
Qed.

Lemma App_core_on_session_resumption data st :
  App.core (App.on_session_resumption data st) =
  LegacyApp.on_session_resumption data (App.core st).
Proof.
  unfold App.on_session_resumption, LegacyApp.on_session_resumption.
  destruct (as_string _); [| reflexivity].
  destruct (Str.truthy _); reflexivity.
Qed.

(** What every case of the two dispatchers establishes, the dispatchers
    establish. *)
Lemma dispatch_principle (Q : Core.State -> Prop) cl host c :
  Q c ->
  (forall data, Q (on_status data c)) ->
  (forall data, Q (on_audio cl host data c)) ->
  (forall data, Q (on_text data c)) ->
  (forall data, Q (on_monitor cl host data c)) ->
  (forall data, Q (on_recordings data c)) ->
  (forall data, Q (on_session_complete data c)) ->
  (forall data, Q (LegacyApp.on_session_resumption data c)) ->
  (forall data, Q (App.on_context_ack host data c)) ->
  (forall data, Q (App.on_error data c)) ->
  (forall data, Q (LegacyApp.on_error data c)) ->
  (forall data, Q (App.on_session_expired data c)) ->
  (forall parsed st, App.core st = c ->
     Q (App.core (App.handleServerMessage cl host parsed st))) /\
  (forall parsed st, LegacyApp.core st = c ->
     Q (LegacyApp.core (LegacyApp.handleServerMessage cl host parsed st))).
Proof.
  intros H0 H1 H2 H3 H4 H5 H6 H7 H8 H9 H10 H11. split.
  - intros parsed st <-. unfold App.handleServerMessage.
    destruct parsed as [data |]; [| exact H0].
    destruct data; try exact H0;
      SessionFacts.dispatcher_cases;
      cbn [App.core App.on_core App.set_core];
      [apply H1 | apply H2 | apply H3
      | rewrite App_core_on_transcript; exact H0
      | apply H4 | apply H5 | apply H6
      | rewrite App_core_on_session_resumption; apply H7
      | apply H8 | apply H9 | apply H11 | exact H0].
  - intros parsed st <-. unfold LegacyApp.handleServerMessage.
    destruct parsed as [data |]; [| exact H0].
    destruct data; try exact H0;
      SessionFacts.dispatcher_cases;
      cbn [LegacyApp.core LegacyApp.on_core LegacyApp.set_core];
      [apply H1 | apply H2 | apply H3
      | rewrite Legacy_core_on_transcript; exact H0
      | apply H4 | apply H5 | apply H6 | apply H7 | apply H10 | exact H0].
Qed.




(** *** The reconnection counter *)











Lemma connect_fields cl reconnect c :
  is_some (websocketRef c) || connectionAttemptRef c = false ->
  reconnectAttemptsRef (connect cl reconnect c) =
    (if reconnect then reconnectAttemptsRef c else 0) /\
  timers (connect cl reconnect c) =
    timers (if reconnect then c else clearReconnectTimeout c) /\
  websocketRef (connect cl reconnect c) =
    Some (WebSocket_new
            (buildConnectionUrl (c_wsUrl cl) (resumeHandleRef c)) reconnect).
Proof.
  intros Hg. unfold connect. rewrite Hg.
  destruct reconnect; cbn; [repeat split; reflexivity |].
  unfold clearReconnectTimeout. destruct (reconnectTimeoutRef c);
    repeat split; reflexivity.
Qed.









Lemma disconnect_fields c :
  reconnectAttemptsRef (disconnect c) = 0 /\
  timers (disconnect c) = timers (clearReconnectTimeout c) /\
  manualDisconnectRef (disconnect c) = true /\
  reconnectTimeoutRef (disconnect c) = None /\
  resumeHandleRef (disconnect c) = resumeHandleRef c /\
  is_some (websocketRef (disconnect c)) = is_some (websocketRef c).
Proof.
  destruct c as [s1 s2 s3 s4 s5 s6 s7 s8 ws s10 s11 s12 s13 s14 s15 s16 rt
                 s18 s19 s20 s21 s22].
  unfold disconnect, clearReconnectTimeout, clearTimeout, baseSend,
    close_socket.
  destruct rt; destruct ws as [[u r rs sent0 ca] |]; try destruct rs;
    cbn; repeat split; reflexivity.
Qed.







End ReachFacts.
(** ** The life of a connection *)

Module LifecycleFacts.
Import Json Core Scenario Machine Bookkeeping.
Local Open Scope string_scope.
Local Open Scope list_scope.
Local Open Scope Z_scope.



(** *** Disconnecting *)

(** X14.  [disconnect] is idempotent: a second call changes nothing, and in
    particular the [stop] control envelope is not sent twice. *)
Theorem disconnect_idempotent c :
  disconnect (disconnect c) = disconnect c.
Proof.
  destruct c as [s1 s2 s3 s4 s5 s6 s7 s8 ws s10 s11 s12 s13 s14 s15 s16 rt
                 s18 s19 s20 s21 s22].
  destruct rt; destruct ws as [[u r rs sent0 ca] |]; try destruct rs;
    vm_compute; reflexivity.
Qed.

(** X15.  A manual disconnection is final.  After [disconnect], in any
    state the component goes through, no timeout is pending and the counter
    is reset; a socket that was open has received the [stop] envelope and is
    closing; and when that socket closes the session is [disconnected] with
    nothing scheduled, whether or not a handle is stored.  The handle itself
    is kept. *)
Theorem disconnect_is_final host c :
  reachable c ->
  let c1 := disconnect c in
  timers c1 = [] /\ reconnectAttemptsRef c1 = 0 /\
  manualDisconnectRef c1 = true /\
  resumeHandleRef c1 = resumeHandleRef c /\
  (websocketRef c = None -> status c1 = disconnected /\ websocketRef c1 = None) /\
  (forall ws, websocketRef c = Some ws ->
     exists ws',
       websocketRef c1 = Some ws' /\ is_open ws' = false /\
       readyState ws' <> CONNECTING /\
       (readyState ws = OPEN ->
        sent ws' =
        sent ws ++ [JObj [("type", JStr "control"); ("action", JStr "stop")]]) /\
       (readyState ws <> OPEN -> sent ws' = sent ws) /\
       let c2 := ws_onclose host c1 in
       status c2 = disconnected /\ websocketRef c2 = None /\
       timers c2 = [] /\ pending_reconnect c2 = None /\
       resumeHandleRef c2 = resumeHandleRef c).
Proof.
  intros R. cbv zeta.
  pose proof (SessionFacts.reachable_Invariant c R) as I.
  destruct (ReachFacts.disconnect_fields c) as (Fa & Ft & Fm & Fr & Fh & Fw).
  assert (T : timers (disconnect c) = []).
  { rewrite Ft. apply SessionFacts.clearReconnectTimeout_clears.
    apply (timer_designated c I). }
  split; [exact T |]. split; [exact Fa |]. split; [exact Fm |].
  split; [exact Fh |]. split.
  - intros Hnone.
    destruct c as [s1 s2 s3 s4 s5 s6 s7 s8 ws s10 s11 s12 s13 s14 s15 s16 rt
                   s18 s19 s20 s21 s22].
    cbn in Hnone. subst ws.
    unfold disconnect, clearReconnectTimeout, clearTimeout.
    destruct rt; split; reflexivity.
  - intros ws Hws.
    destruct (SessionFacts.ws_onclose_intentional host (disconnect c)
                (or_introl Fm)) as (C1 & C2 & C3 & C4 & _).
    assert (C5 : timers (ws_onclose host (disconnect c)) = []).
    { rewrite C4. apply SessionFacts.clearReconnectTimeout_no_timers, T. }
    assert (C6 : pending_reconnect (ws_onclose host (disconnect c)) = None)
      by (unfold pending_reconnect; rewrite C2; reflexivity).
    assert (C7 : resumeHandleRef (ws_onclose host (disconnect c))
                 = resumeHandleRef c).
    { rewrite <- Fh. generalize (disconnect c). intros d.
      unfold ws_onclose, clearReconnectTimeout, clearTimeout, cleanupMedia,
        stopVideoCapture, stopAudioCapture, setTimeout. cbn.
      destruct (reconnectTimeoutRef d); cbn;
        destruct (negb (manualDisconnectRef d)
                  && handle_truthy (resumeHandleRef d)); cbn;
        try reflexivity;
        destruct (reconnectAttemptsRef d + 1 >? 5); cbn;
        try reflexivity;
        match goal with
        | |- resumeHandleRef (appendMessage ?r ?t ?x) = _ =>
            rewrite (proj1 (proj2 (proj2 (proj2
                       (SessionFacts.appendMessage_frame r t x)))));
            reflexivity
        end. }
    clear Fa Ft Fm Fr Fh Fw T I R.
    destruct c as [s1 s2 s3 s4 s5 s6 s7 s8 ws0 s10 s11 s12 s13 s14 s15 s16 rt
                   s18 s19 s20 s21 s22].
    cbn in Hws. subst ws0.
    revert C1 C2 C3 C4 C5 C6 C7.
    unfold disconnect, clearReconnectTimeout, clearTimeout, baseSend,
      close_socket.
    destruct ws as [u r rs sent0 ca].
    destruct rt; destruct rs; cbn; intros;
      eexists; (split; [reflexivity |]); cbn;
      repeat split; try discriminate; try reflexivity; try assumption;
      try (intros; congruence).
Qed.

Lemma disconnect_is_final_witness :
  let c := App.core Sample.connected in
  reachable c /\
  timers (disconnect c) = [] /\
  status (ws_onclose Sample.host (disconnect c)) = disconnected /\
  resumeHandleRef (ws_onclose Sample.host (disconnect c)) = Some "h1".
Proof.
  cbv zeta. split; [exact SessionFacts.connected_reachable |].
  destruct (disconnect_is_final Sample.host _ SessionFacts.connected_reachable)
    as (T & _ & _ & _ & _ & W).
  split; [exact T |].
  destruct (websocketRef (App.core Sample.connected)) as [ws |] eqn:Ews;
    [| vm_compute in Ews; discriminate].
  destruct (W ws eq_refl) as (ws' & _ & _ & _ & _ & _ & S & _ & _ & _ & H).
  split; [exact S |]. rewrite H. vm_compute. reflexivity.
Defined.

(** *** Opening *)

Lemma ws_onopen_fails cl payload audioOk videoOk c ws :
  websocketRef c = Some ws ->
  audioOk = false \/
  (c_cameraEnabled cl = true /\ videoStreamRef c = false /\ videoOk = false) ->
  let c1 := ws_onopen cl payload audioOk videoOk c in
  status c1 = error /\ connectionAttemptRef c1 = false /\
  reconnectAttemptsRef c1 = reconnectAttemptsRef c /\
  timers c1 = timers c /\
  manualDisconnectRef c1 = manualDisconnectRef c /\
  resumeHandleRef c1 = resumeHandleRef c /\
  nextTimerId c1 = nextTimerId c /\
  exists ws',
    websocketRef c1 = Some ws' /\ readyState ws' = CLOSING /\
    closeArgs ws' = Some None /\
    sent ws' = sent ws ++ match payload with Some p => [p] | None => [] end.
Proof.
  intros Hws Hfail. cbv zeta.
  destruct c as [s1 s2 s3 s4 s5 s6 s7 s8 ws0 ac s11 vs s13 s14 s15 s16 rt
                 s18 s19 s20 s21 s22].
  destruct cl as [k1 cam k3 k4].
  cbn in Hws, Hfail. subst ws0.
  destruct ws as [u r rs sent0 ca].
  assert (E : forall l : list json, l ++ [] = l) by apply app_nil_r.
  destruct Hfail as [-> | (-> & -> & ->)];
    destruct payload, ac; try destruct audioOk; try destruct cam;
    try destruct vs; try destruct videoOk;
    vm_compute;
    (repeat (split; [reflexivity |])); eexists;
    (repeat (split; [reflexivity |])); try reflexivity;
    symmetry; apply (E sent0).
Qed.

Lemma ws_onopen_succeeds cl payload videoOk c ws :
  websocketRef c = Some ws ->
  videoOk = true \/ c_cameraEnabled cl = false \/ videoStreamRef c = true ->
  let c1 := ws_onopen cl payload true videoOk c in
  status c1 = connected /\ reconnectAttemptsRef c1 = 0 /\
  connectionAttemptRef c1 = false /\ micStreamRef c1 = true /\
  videoStreamRef c1 = (c_cameraEnabled cl || videoStreamRef c) /\
  timers c1 = timers c /\ resumeHandleRef c1 = resumeHandleRef c /\
  (exists ws',
     websocketRef c1 = Some ws' /\ readyState ws' = OPEN /\
     url ws' = url ws /\ isReconnect ws' = isReconnect ws /\
     sent ws' = sent ws ++ match payload with Some p => [p] | None => [] end) /\
  messages c1 =
  messages c ++
  (if isReconnect ws
   then [{| msg_id := messageIdRef c + 1; msg_role := system;
            msg_text := "Reconnected to interview session using stored handle." |}]
   else []).
Proof.
  intros Hws Hvideo. cbv zeta.
  destruct c as [s1 s2 s3 s4 s5 s6 s7 s8 ws0 ac s11 vs s13 s14 s15 s16 rt
                 s18 s19 s20 s21 s22].
  destruct cl as [k1 cam k3 k4].
  cbn in Hws, Hvideo. subst ws0.
  destruct ws as [u r rs sent0 ca].
  assert (E : forall {A} (l : list A), l ++ [] = l) by (intros; apply app_nil_r).
  destruct Hvideo as [-> | [-> | ->]];
    destruct payload, ac, r; try destruct cam; try destruct vs;
    try destruct videoOk;
    vm_compute;
    (repeat (split; [reflexivity |]));
    (split; [eexists; (repeat (split; [reflexivity |])); try reflexivity;
             symmetry; apply (E _ sent0) |]);
    try reflexivity; symmetry; apply (E _ s3).
Qed.

(** X16.  When the microphone (or the camera that is asked for) cannot be
    acquired as the socket opens, the status becomes [error] and the socket
    is closed by the component; the counter and the handle are left alone.
    The closure that follows is treated as an unexpected one: with a handle
    stored the status goes back to [connecting] and a reconnection is
    scheduled, without a handle the status ends as [disconnected]: the
    [error] status set on opening does not last.  Only when the attempts
    are exhausted does the closure set [error] itself. *)
Theorem media_failure_on_open cl payload audioOk videoOk host c :
  reachable c -> socket_in CONNECTING c = true ->
  manualDisconnectRef c = false ->
  audioOk = false \/
  (c_cameraEnabled cl = true /\ videoStreamRef c = false /\ videoOk = false) ->
  let c1 := ws_onopen cl payload audioOk videoOk c in
  let c2 := ws_onclose host c1 in
  (status c1 = error /\
   reconnectAttemptsRef c1 = reconnectAttemptsRef c /\
   resumeHandleRef c1 = resumeHandleRef c /\
   exists ws', websocketRef c1 = Some ws' /\ readyState ws' = CLOSING /\
               closeArgs ws' = Some None) /\
  websocketRef c2 = None /\
  (handle_truthy (resumeHandleRef c) = false ->
   status c2 = disconnected /\ timers c2 = []) /\
  (handle_truthy (resumeHandleRef c) = true ->
   reconnectAttemptsRef c < 5 ->
   status c2 = connecting /\
   timers c2 =
   [{| timer_id := nextTimerId c;
       timer_delay := reconnectDelay (reconnectAttemptsRef c + 1) |}]) /\
  (handle_truthy (resumeHandleRef c) = true ->
   reconnectAttemptsRef c = 5 ->
   status c2 = error /\ timers c2 = []).
Proof.
  intros R Hen Hm Hfail. cbv zeta.
  pose proof (SessionFacts.reachable_Invariant c R) as I.
  assert (Hw : is_some (websocketRef c) = true)
    by (eapply SessionFacts.socket_in_is_some; exact Hen).
  pose proof (socket_no_timer c I Hw) as Ht.
  destruct (websocketRef c) as [ws |] eqn:Ews; [| discriminate].
  destruct (ws_onopen_fails cl payload audioOk videoOk c ws Ews Hfail)
    as (F1 & F2 & F3 & F4 & F5 & F6 & F7 & ws' & F8 & F9 & F10 & _).
  set (c1 := ws_onopen cl payload audioOk videoOk c) in *.
  rewrite Ht in F4. rewrite Hm in F5.
  destruct (SessionFacts.clearReconnectTimeout_no_timers c1 F4) as [Hct _].
  split; [| split; [| split; [| split]]].
  - split; [exact F1 |]. split; [exact F3 |]. split; [exact F6 |].
    exists ws'. auto.
  - unfold ws_onclose, clearReconnectTimeout, clearTimeout, cleanupMedia,
      stopVideoCapture, stopAudioCapture, setTimeout. cbn.
    destruct (reconnectTimeoutRef c1); cbn;
      destruct (negb (manualDisconnectRef c1)
                && handle_truthy (resumeHandleRef c1)); cbn;
      try reflexivity;
      destruct (reconnectAttemptsRef c1 + 1 >? 5); cbn;
      try reflexivity;
      match goal with
      | |- websocketRef (appendMessage ?r ?t ?x) = _ =>
          rewrite (proj1 (proj2 (SessionFacts.appendMessage_frame r t x)));
          reflexivity
      end.
  - intros Hh. rewrite <- F6 in Hh.
    destruct (SessionFacts.ws_onclose_intentional host c1 (or_intror Hh))
      as (S1 & _ & _ & S4 & _).
    split; [exact S1 | congruence].
  - intros Hh Hlt. rewrite <- F6 in Hh.
    destruct (SessionFacts.ws_onclose_schedules host c1 _ F5 Hh F3
                ltac:(lia) F4) as (S1 & S2 & _).
    rewrite F7 in S2. split; assumption.
  - intros Hh H5. rewrite <- F6 in Hh.
    destruct (SessionFacts.ws_onclose_gives_up host c1 _ F5 Hh F3 ltac:(lia))
      as (S1 & S2 & _).
    split; [exact S1 | congruence].
Qed.

Lemma media_failure_on_open_witness :
  let c := connect Sample.cl0 false (Core.initial Sample.url0 (Some "h1")) in
  (reachable c /\ socket_in CONNECTING c = true /\
   manualDisconnectRef c = false) /\
  status (ws_onopen Sample.cl0 None false true c) = error /\
  status (ws_onclose Sample.host (ws_onopen Sample.cl0 None false true c))
  = connecting /\
  timers (ws_onclose Sample.host (ws_onopen Sample.cl0 None false true c))
  = [{| timer_id := 1; timer_delay := 1000 |}].
Proof.
  cbv zeta.
  assert (R : reachable
                (connect Sample.cl0 false (Core.initial Sample.url0 (Some "h1")))).
  { apply (reachable_App _ Sample.url0 (Some "h1") [Connect Sample.cl0]
             (App_step (Connect Sample.cl0)
                (App.initial Sample.url0 (Some "h1"))));
      vm_compute; reflexivity. }
  assert (H1 : socket_in CONNECTING
                 (connect Sample.cl0 false (Core.initial Sample.url0 (Some "h1")))
               = true) by (vm_compute; reflexivity).
  assert (H2 : manualDisconnectRef
                 (connect Sample.cl0 false (Core.initial Sample.url0 (Some "h1")))
               = false) by (vm_compute; reflexivity).
  split; [auto |].
  destruct (media_failure_on_open Sample.cl0 None false true Sample.host _
              R H1 H2 (or_introl eq_refl))
    as ((S1 & _) & _ & _ & S4 & _).
  split; [exact S1 |].
  apply S4; vm_compute; reflexivity.
Defined.

End LifecycleFacts.
(** ** Envelopes *)

Module DispatchFacts.
Import Json Core Scenario Machine Bookkeeping.
Local Open Scope string_scope.
Local Open Scope list_scope.
Local Open Scope Z_scope.

(** X17.  The dispatchers leave the whole component as it is for a message
    that does not parse, for [null], and for a value whose [type] is none
    of the types of the [switch] (a missing or non-string [type], a number,
    a string, an array).  The earlier copy does the same with
    [context_ack], which the current copy answers with a message. *)
Theorem unknown_envelope_ignored cl host parsed :
  (forall data, parsed = Some data ->
     Forall (fun t => is_string t (get "type" data) = false)
       ["status"; "audio"; "text"; "transcript"; "monitor"; "recordings";
        "session_complete"; "session_resumption"; "context_ack"; "error";
        "session_expired"]) ->
  (forall st, App.handleServerMessage cl host parsed st = st) /\
  (forall st, LegacyApp.handleServerMessage cl host parsed st = st) /\
  (forall data,
     get "type" data = Some (JStr "context_ack") ->
     (forall st, LegacyApp.handleServerMessage cl host (Some data) st = st) /\
     (forall st, exists text,
        Str.truthy text = true /\
        messages (App.core (App.handleServerMessage cl host (Some data) st)) =
        messages (App.core st) ++
        [{| msg_id := messageIdRef (App.core st) + 1; msg_role := system;
            msg_text := text |}])).
Proof.
  intros H. split; [| split].
  - intros st. unfold App.handleServerMessage.
    destruct parsed as [data |]; [| reflexivity].
    specialize (H data eq_refl).
    repeat match goal with
           | H : Forall _ (_ :: _) |- _ =>
               let E := fresh "E" in
               inversion H as [| ? ? E ?]; subst; clear H
           end.
    destruct data; try reflexivity.
    cbv zeta.
    rewrite E, E0, E1, E2, E3, E4, E5, E6, E7, E8, E9. reflexivity.
  - intros st. unfold LegacyApp.handleServerMessage.
    destruct parsed as [data |]; [| reflexivity].
    specialize (H data eq_refl).
    repeat match goal with
           | H : Forall _ (_ :: _) |- _ =>
               let E := fresh "E" in
               inversion H as [| ? ? E ?]; subst; clear H
           end.
    destruct data; try reflexivity.
    cbv zeta.
    rewrite E, E0, E1, E2, E3, E4, E5, E6, E8. reflexivity.
  - intros data Ht. split; intros st.
    + SessionFacts.dispatch_case Ht.
    + assert (D : App.handleServerMessage cl host (Some data) st =
                  App.on_core (App.on_context_ack host data) st)
        by (SessionFacts.dispatch_case Ht).
      rewrite D. cbn [App.core App.on_core App.set_core].
      unfold App.on_context_ack.
      destruct (match as_array (get "updated" data) with
                | Some l => l
                | None => []
                end) as [| field updated].
      * eexists. split; [| reflexivity]. reflexivity.
      * eexists. split; [| reflexivity]. reflexivity.
Qed.

Lemma unknown_envelope_ignored_witness :
  App.handleServerMessage Sample.cl0 Sample.host
    (Some (JObj [("type", JStr "ping")])) Sample.connected = Sample.connected /\
  LegacyApp.handleServerMessage Sample.cl0 Sample.host (Some (JNum 3))
    Sample.legacy_connected = Sample.legacy_connected.
Proof.
  split.
  - refine (proj1 (unknown_envelope_ignored Sample.cl0 Sample.host
                     (Some (JObj [("type", JStr "ping")])) _) _).
    intros data E. injection E as <-.
    repeat (constructor; [reflexivity |]). constructor.
  - refine (proj1 (proj2 (unknown_envelope_ignored Sample.cl0 Sample.host
                            (Some (JNum 3)) _)) _).
    intros data E. injection E as <-.
    repeat (constructor; [reflexivity |]). constructor.
Defined.

(** *** The resume handle *)

Lemma App_render_core st :
  App.core (App.render st) = resumeHandle_effect (App.core st).
Proof. reflexivity. Qed.

Lemma Legacy_render_core st :
  LegacyApp.core (LegacyApp.render st) = resumeHandle_effect (LegacyApp.core st).
Proof. reflexivity. Qed.

Lemma adopted_after_message h text c0 c :
  Str.truthy h = true ->
  resumeHandle c0 = Some h ->
  manualDisconnectRef c0 = manualDisconnectRef c ->
  reconnectAttemptsRef c0 = reconnectAttemptsRef c ->
  timers c0 = timers c -> nextTimerId c0 = nextTimerId c ->
  let c1 := resumeHandle_effect (appendMessage system text c0) in
  resumeHandle c1 = Some h /\ resumeHandleRef c1 = Some h /\
  storedResumeHandle c1 = Some h /\
  manualDisconnectRef c1 = manualDisconnectRef c /\
  reconnectAttemptsRef c1 = reconnectAttemptsRef c /\
  timers c1 = timers c /\ nextTimerId c1 = nextTimerId c.
Proof.
  intros Ht H1 H2 H3 H4 H5. cbv zeta.
  destruct (SessionFacts.appendMessage_frame system text c0)
    as (_ & _ & Fh & _ & Fm & _ & Fa & _ & Ft & Fn & _).
  cbv zeta in *.
  unfold resumeHandle_effect. cbn. rewrite Fh, H1. cbn. rewrite Ht.
  rewrite Fm, Fa, Ft, Fn. repeat split; assumption.
Qed.

Lemma handle_adopting_case cl host data h :
  Str.truthy h = true ->
  (get "type" data = Some (JStr "status") /\
   get "resumeHandle" data = Some (JStr h)) \/
  (get "type" data = Some (JStr "session_resumption") /\
   get "handle" data = Some (JStr h)) ->
  exists f : Core.State -> Core.State,
    (forall st,
       App.core (App.handleServerMessage cl host (Some data) st) =
       f (App.core st)) /\
    (forall st,
       LegacyApp.core (LegacyApp.handleServerMessage cl host (Some data) st) =
       f (LegacyApp.core st)) /\
    (forall c,
       let c1 := resumeHandle_effect (f c) in
       resumeHandle c1 = Some h /\ resumeHandleRef c1 = Some h /\
       storedResumeHandle c1 = Some h /\
       manualDisconnectRef c1 = manualDisconnectRef c /\
       reconnectAttemptsRef c1 = reconnectAttemptsRef c /\
       timers c1 = timers c /\ nextTimerId c1 = nextTimerId c).
Proof.
  intros Ht [[Htype Hh] | [Htype Hh]].
  - exists (on_status data). split; [| split].
    + intros st. rewrite SessionFacts.App_dispatch_status by assumption.
      reflexivity.
    + intros st. rewrite SessionFacts.Legacy_dispatch_status by assumption.
      reflexivity.
    + intros c. unfold on_status, setResumeHandle. rewrite Hh.
      cbn [as_string]. rewrite Ht.
      apply adopted_after_message; [exact Ht | reflexivity..].
  - exists (LegacyApp.on_session_resumption data). split; [| split].
    + intros st.
      assert (D : App.handleServerMessage cl host (Some data) st =
                  App.on_session_resumption data st)
        by (SessionFacts.dispatch_case Htype).
      rewrite D. apply ReachFacts.App_core_on_session_resumption.
    + intros st.
      assert (D : LegacyApp.handleServerMessage cl host (Some data) st =
                  LegacyApp.on_core (LegacyApp.on_session_resumption data) st)
        by (SessionFacts.dispatch_case Htype).
      rewrite D. reflexivity.
    + intros c. unfold LegacyApp.on_session_resumption, setResumeHandle.
      rewrite Hh. cbn [as_string]. rewrite Ht.
      apply adopted_after_message; [exact Ht | reflexivity..].
Qed.

(** X18.  A handle issued by the server, in a [status] envelope or in a
    [session_resumption] envelope, is adopted by either copy: once the
    render that follows has run, the state, the reference and the stored
    item hold it.  The connection made next carries it: the reconnection
    scheduled when the channel closes unexpectedly opens a socket whose
    address has [resume] set to that handle. *)
Theorem issued_handle_is_resumed cl host data h c c1 :
  Str.truthy h = true ->
  (get "type" data = Some (JStr "status") /\
   get "resumeHandle" data = Some (JStr h)) \/
  (get "type" data = Some (JStr "session_resumption") /\
   get "handle" data = Some (JStr h)) ->
  (exists st, App.core st = c /\
     c1 = App.core (App.render (App.handleServerMessage cl host (Some data) st))) \/
  (exists st, LegacyApp.core st = c /\
     c1 = LegacyApp.core
            (LegacyApp.render
               (LegacyApp.handleServerMessage cl host (Some data) st))) ->
  resumeHandle c1 = Some h /\ resumeHandleRef c1 = Some h /\
  storedResumeHandle c1 = Some h /\
  (manualDisconnectRef c = false -> reconnectAttemptsRef c = 0 ->
   timers c = [] ->
   forall host' cl',
     let c2 := ws_onclose host' c1 in
     let t := {| timer_id := nextTimerId c; timer_delay := 1000 |} in
     timers c2 = [t] /\
     websocketRef (timer_fire cl' (timer_id t) c2) =
     Some (WebSocket_new {| baseUrl := c_wsUrl cl'; resume := Some h |} true)).
Proof.
  intros Ht Hcase Hc1.
  destruct (handle_adopting_case cl host data h Ht Hcase)
    as (f & HA & HL & HF).
  assert (E : c1 = resumeHandle_effect (f c)).
  { destruct Hc1 as [(st & <- & ->) | (st & <- & ->)].
    - rewrite App_render_core, HA. reflexivity.
    - rewrite Legacy_render_core, HL. reflexivity. }
  destruct (HF c) as (F1 & F2 & F3 & F4 & F5 & F6 & F7).
  cbv zeta in *. rewrite <- E in *.
  split; [exact F1 |]. split; [exact F2 |]. split; [exact F3 |].
  intros Hm Ha Htm host' cl'. cbv zeta.
  assert (Hh : handle_truthy (resumeHandleRef c1) = true)
    by (rewrite F2; exact Ht).
  destruct (SessionFacts.ws_onclose_schedules host' c1 0
              ltac:(congruence) Hh ltac:(congruence) ltac:(lia)
              ltac:(congruence))
    as (_ & T & _ & _ & _ & R & W & A).
  rewrite F7 in T. change (reconnectDelay (0 + 1)) with 1000 in T.
  split; [exact T |].
  set (c2 := ws_onclose host' c1) in *.
  unfold timer_fire. rewrite T. cbn [existsb timer_id].
  rewrite Z.eqb_refl. cbn [orb].
  destruct (ReachFacts.connect_fields cl' true (clearTimeout (nextTimerId c) c2))
    as (_ & _ & Hw).
  { change (is_some (websocketRef c2) || connectionAttemptRef c2 = false).
    rewrite W, A. reflexivity. }
  rewrite Hw. change (resumeHandleRef (clearTimeout (nextTimerId c) c2))
    with (resumeHandleRef c2).
  rewrite R, F2. unfold buildConnectionUrl. cbn [handle_truthy].
  rewrite Ht. reflexivity.
Qed.

Lemma issued_handle_is_resumed_witness :
  let st := App.on_core (ws_onopen Sample.cl0 None true true)
              (App.on_core (connect Sample.cl0 false) Sample.fresh) in
  let c1 := App.core (App.render (App.handleServerMessage Sample.cl0 Sample.host
                                    (Some Sample.status_envelope) st)) in
  Str.truthy "h1" = true /\
  storedResumeHandle c1 = Some "h1" /\
  option_map url
    (websocketRef (timer_fire Sample.cl0 1 (ws_onclose Sample.host c1))) =
  Some {| baseUrl := Sample.url0; resume := Some "h1" |}.
Proof.
  cbv zeta. split; [reflexivity |].
  set (st := App.on_core (ws_onopen Sample.cl0 None true true)
               (App.on_core (connect Sample.cl0 false) Sample.fresh)).
  destruct (issued_handle_is_resumed Sample.cl0 Sample.host
              Sample.status_envelope "h1" (App.core st) _ eq_refl
              (or_introl (conj eq_refl eq_refl))
              (or_introl (ex_intro _ st (conj eq_refl eq_refl))))
    as (_ & _ & S & N).
  split; [exact S |].
  destruct (N eq_refl eq_refl eq_refl Sample.host Sample.cl0) as [_ W].
  cbv zeta in W. cbn [timer_id] in W.
  change (nextTimerId _) with 1 in W. rewrite W. reflexivity.
Defined.

(** X19.  Clearing the handle leaves the connection alone but ends
    resumption: once the render has run, the state, the reference and the
    stored item are empty; an unexpected closure then ends in
    [disconnected] with nothing scheduled; and any connection made next has
    no [resume] parameter.  A reconnection already pending is not cancelled:
    when its timeout expires the socket opens a fresh session, and the
    component, which opened it as a reconnection, still reports that it
    reconnected using the stored handle. *)
Theorem cleared_handle_not_resumed host c :
  let c1 := resumeHandle_effect (clearResumeHandle c) in
  (resumeHandle c1 = None /\ resumeHandleRef c1 = None /\
   storedResumeHandle c1 = None /\
   websocketRef c1 = websocketRef c /\ status c1 = status c /\
   timers c1 = timers c) /\
  (let c2 := ws_onclose host c1 in
   status c2 = disconnected /\ pending_reconnect c2 = None) /\
  (forall cl reconnect,
     is_some (websocketRef c) || connectionAttemptRef c = false ->
     websocketRef (connect cl reconnect c1) =
     Some (WebSocket_new {| baseUrl := c_wsUrl cl; resume := None |} reconnect)) /\
  (forall cl t payload,
     timers c = [t] -> websocketRef c = None -> connectionAttemptRef c = false ->
     let c3 := ws_onopen cl payload true true (timer_fire cl (timer_id t) c1) in
     option_map url (websocketRef c3) =
       Some {| baseUrl := c_wsUrl cl; resume := None |} /\
     status c3 = connected /\
     App.lastOf (map msg_text (messages c3)) =
       Some "Reconnected to interview session using stored handle.").
Proof.
  cbv zeta. unfold clearResumeHandle.
  match goal with
  | |- context [appendMessage ?r ?t ?x] =>
      destruct (SessionFacts.appendMessage_frame r t x)
        as (Fs & Fw & Fh & _ & Fm & _ & Fa & Fc & Ft & Fn & _);
      cbv zeta in Fs, Fw, Fh, Fm, Fa, Fc, Ft, Fn;
      set (c0 := appendMessage r t x) in *; clearbody c0
  end.
  cbn in Fs, Fw, Fh, Fm, Fa, Fc, Ft, Fn.
  assert (G1 : resumeHandle (resumeHandle_effect c0) = None) by exact Fh.
  assert (G2 : resumeHandleRef (resumeHandle_effect c0) = None) by exact Fh.
  assert (G3 : storedResumeHandle (resumeHandle_effect c0) = None).
  { unfold resumeHandle_effect. cbn. rewrite Fh. reflexivity. }
  assert (G4 : websocketRef (resumeHandle_effect c0) = websocketRef c) by exact Fw.
  assert (G5 : status (resumeHandle_effect c0) = status c) by exact Fs.
  assert (G6 : timers (resumeHandle_effect c0) = timers c) by exact Ft.
  assert (G7 : connectionAttemptRef (resumeHandle_effect c0)
               = connectionAttemptRef c) by exact Fc.
  set (c1 := resumeHandle_effect c0) in *.
  split; [auto 10 |]. split; [| split].
  - assert (Hh : handle_truthy (resumeHandleRef c1) = false)
      by (rewrite G2; reflexivity).
    destruct (SessionFacts.ws_onclose_intentional host c1 (or_intror Hh))
      as (S1 & S2 & _).
    split; [exact S1 |]. unfold pending_reconnect. rewrite S2. reflexivity.
  - intros cl reconnect Hg.
    destruct (ReachFacts.connect_fields cl reconnect c1) as (_ & _ & Hw).
    { rewrite G4, G7. exact Hg. }
    rewrite Hw, G2. reflexivity.
  - intros cl t payload Htm Hnone Hca.
    unfold timer_fire. rewrite G6, Htm. cbn [existsb timer_id].
    rewrite Z.eqb_refl. cbn [orb].
    set (c2 := clearTimeout (timer_id t) c1).
    destruct (ReachFacts.connect_fields cl true c2) as (_ & _ & Hw).
    { change (is_some (websocketRef c1) || connectionAttemptRef c1 = false).
      rewrite G4, G7, Hnone, Hca. reflexivity. }
    change (resumeHandleRef c2) with (resumeHandleRef c1) in Hw.
    rewrite G2 in Hw. change (buildConnectionUrl (c_wsUrl cl) None)
      with {| baseUrl := c_wsUrl cl; resume := None |} in Hw.
    destruct (LifecycleFacts.ws_onopen_succeeds cl payload true
                (connect cl true c2) _ Hw (or_introl eq_refl))
      as (O1 & _ & _ & _ & _ & _ & _ & (ws' & O2 & _ & O3 & _) & O4).
    cbv zeta in *. split; [rewrite O2; cbn; rewrite O3; reflexivity |].
    split; [exact O1 |].
    rewrite O4. cbn [isReconnect WebSocket_new].
    rewrite map_app. apply TranscriptFacts.lastOf_snoc.
Qed.

Lemma cleared_handle_not_resumed_witness :
  let c := Sample.waiting_to_reconnect in
  let c1 := resumeHandle_effect (clearResumeHandle c) in
  let c3 := ws_onopen Sample.cl0 None true true (timer_fire Sample.cl0 1 c1) in
  (timers c = [{| timer_id := 1; timer_delay := 1000 |}] /\
   websocketRef c = None /\ connectionAttemptRef c = false) /\
  storedResumeHandle c1 = None /\
  option_map url (websocketRef c3) =
    Some {| baseUrl := Sample.url0; resume := None |} /\
  App.lastOf (map msg_text (messages c3)) =
    Some "Reconnected to interview session using stored handle.".
Proof.
  cbv zeta.
  assert (H1 : timers Sample.waiting_to_reconnect =
               [{| timer_id := 1; timer_delay := 1000 |}])
    by (vm_compute; reflexivity).
  assert (H2 : websocketRef Sample.waiting_to_reconnect = None)
    by (vm_compute; reflexivity).
  assert (H3 : connectionAttemptRef Sample.waiting_to_reconnect = false)
    by (vm_compute; reflexivity).
  split; [auto |].
  destruct (cleared_handle_not_resumed Sample.host Sample.waiting_to_reconnect)
    as ((_ & _ & S & _) & _ & _ & W).
  split; [exact S |].
  destruct (W Sample.cl0 _ None H1 H2 H3) as (W1 & _ & W3).
  split; [exact W1 | exact W3].
Defined.

End DispatchFacts.
(** ** The text form and the interview context *)

Module FormFacts.
Import Json Core Wire.
Local Open Scope string_scope.
Local Open Scope list_scope.
Local Open Scope Z_scope.

(** X20.  [handleSubmit] ignores an input that is blank once trimmed.
    Otherwise it appends the trimmed text to the log as a [user] message
    and empties the input, whether or not a socket is open; the [text]
    envelope goes out on an open socket only, so that a text typed while
    the channel is down is logged and dropped. *)
Theorem handleSubmit_cases inputText c :
  (Str.trim inputText = EmptyString -> handleSubmit inputText c = (inputText, c)) /\
  (Str.trim inputText <> EmptyString ->
   let c' := snd (handleSubmit inputText c) in
   let envelope := JObj [("type", JStr "text");
                         ("text", JStr (Str.trim inputText));
                         ("turn_complete", JBool true)] in
   fst (handleSubmit inputText c) = EmptyString /\
   messages c' =
   messages c ++
   [{| msg_id := messageIdRef c + 1; msg_role := user;
       msg_text := Str.trim inputText |}] /\
   status c' = status c /\
   (forall ws, websocketRef c = Some ws -> is_open ws = true ->
      websocketRef c' = Some (WebSocket_send envelope ws)) /\
   ((forall ws, websocketRef c = Some ws -> is_open ws = false) ->
      websocketRef c' = websocketRef c)).
Proof.
  unfold handleSubmit. split.
  - intros ->. reflexivity.
  - intros Hne. cbv zeta.
    assert (Ht : Str.truthy (Str.trim inputText) = true)
      by (apply TranscriptFacts.truthy_true_iff, Hne).
    rewrite Ht. cbn [negb fst snd].
    destruct (SessionFacts.appendMessage_frame user (Str.trim inputText) c)
      as (Fs & Fw & _).
    cbv zeta in Fs, Fw.
    assert (Fm : messages (appendMessage user (Str.trim inputText) c) =
                 messages c ++
                 [{| msg_id := messageIdRef c + 1; msg_role := user;
                     msg_text := Str.trim inputText |}])
      by (unfold appendMessage; rewrite Ht; reflexivity).
    set (c0 := appendMessage user (Str.trim inputText) c) in *.
    clearbody c0.
    split; [reflexivity |].
    unfold baseSend. rewrite Fw.
    destruct (websocketRef c) as [ws |] eqn:Ews.
    + destruct (is_open ws) eqn:Eo.
      * cbn. repeat split; try assumption.
        -- intros ws' E _. injection E as <-. reflexivity.
        -- intros Hc. specialize (Hc ws eq_refl). congruence.
      * repeat split; try assumption.
        -- intros ws' E Ho. injection E as <-. congruence.
        -- intros _. rewrite Fw. reflexivity.
    + repeat split; try assumption.
      * intros ws' E. discriminate.
      * intros _. rewrite Fw. reflexivity.
Qed.

Lemma handleSubmit_cases_witness :
  Str.trim "  hello " <> EmptyString /\
  fst (handleSubmit "  hello " (App.core Sample.fresh)) = EmptyString /\
  map msg_text (messages (snd (handleSubmit "  hello " (App.core Sample.fresh))))
  = ["hello"] /\
  websocketRef (snd (handleSubmit "  hello " (App.core Sample.fresh))) = None.
Proof.
  assert (H : Str.trim "  hello " <> EmptyString) by (vm_compute; discriminate).
  split; [exact H |].
  destruct (proj2 (handleSubmit_cases "  hello " (App.core Sample.fresh)) H)
    as (E1 & E2 & _ & _ & E5).
  split; [exact E1 |]. split.
  - rewrite E2. vm_compute. reflexivity.
  - rewrite E5; [reflexivity |]. intros ws E. vm_compute in E. discriminate.
Defined.

(** X21.  The interview context.  The envelope sent as the socket opens and
    the one [sendContextUpdate] sends are the same, built from the trimmed
    fields: on a socket just created by [connect] it is the first envelope
    sent, and none is sent when both fields are blank.  [sendContextUpdate]
    with two blank fields sends nothing and logs a request for input;
    with a field given it logs nothing and sends only on an open socket. *)
Theorem context_envelope cl reconnect resumeText jobDescriptionText c :
  let envelope := JObj [("type", JStr "context");
                        ("resumeText", JStr (Str.trim resumeText));
                        ("jobDescriptionText", JStr (Str.trim jobDescriptionText))] in
  let blank := negb (Str.truthy (Str.trim resumeText))
               && negb (Str.truthy (Str.trim jobDescriptionText)) in
  (is_some (websocketRef c) || connectionAttemptRef c = false ->
   option_map sent
     (websocketRef
        (ws_onopen cl (App.contextPayload resumeText jobDescriptionText)
           true true (connect cl reconnect c))) =
   Some (if blank then [] else [envelope])) /\
  (blank = true ->
   websocketRef (sendContextUpdate resumeText jobDescriptionText c) =
     websocketRef c /\
   messages (sendContextUpdate resumeText jobDescriptionText c) =
   messages c ++
   [{| msg_id := messageIdRef c + 1; msg_role := system;
       msg_text :=
         "Provide a resume and/or job description before sending context." |}]) /\
  (blank = false ->
   messages (sendContextUpdate resumeText jobDescriptionText c) = messages c /\
   (forall ws, websocketRef c = Some ws -> is_open ws = true ->
      websocketRef (sendContextUpdate resumeText jobDescriptionText c) =
      Some (WebSocket_send envelope ws)) /\
   ((forall ws, websocketRef c = Some ws -> is_open ws = false) ->
      sendContextUpdate resumeText jobDescriptionText c = c)).
Proof.
  cbv zeta. split; [| split].
  - intros Hg.
    destruct (ReachFacts.connect_fields cl reconnect c Hg) as (_ & _ & Hw).
    destruct (LifecycleFacts.ws_onopen_succeeds cl
                (App.contextPayload resumeText jobDescriptionText) true
                (connect cl reconnect c) _ Hw (or_introl eq_refl))
      as (_ & _ & _ & _ & _ & _ & _ & (ws' & O1 & _ & _ & _ & O2) & _).
    cbv zeta in O1, O2. rewrite O1. cbn [option_map]. rewrite O2.
    unfold App.contextPayload. cbn [sent WebSocket_new app].
    destruct (Str.truthy (Str.trim resumeText)),
             (Str.truthy (Str.trim jobDescriptionText)); reflexivity.
  - intros Hb. unfold sendContextUpdate. cbv zeta. rewrite Hb.
    destruct (SessionFacts.appendMessage_frame system
                "Provide a resume and/or job description before sending context." c)
      as (_ & Fw & _).
    split; [exact Fw | reflexivity].
  - intros Hb. unfold sendContextUpdate. cbv zeta. rewrite Hb.
    unfold baseSend. split; [| split].
    + destruct (websocketRef c) as [ws |]; [destruct (is_open ws) |];
        reflexivity.
    + intros ws -> ->. reflexivity.
    + intros Hc. destruct (websocketRef c) as [ws |]; [| reflexivity].
      rewrite (Hc ws eq_refl). reflexivity.
Qed.

Lemma context_envelope_witness :
  let c := App.core Sample.fresh in
  is_some (websocketRef c) || connectionAttemptRef c = false /\
  option_map sent
    (websocketRef
       (ws_onopen Sample.cl0 (App.contextPayload " CV " EmptyString) true true
          (connect Sample.cl0 false c))) =
  Some [JObj [("type", JStr "context"); ("resumeText", JStr "CV");
              ("jobDescriptionText", JStr EmptyString)]] /\
  sendContextUpdate " CV " EmptyString c = c.
Proof.
  cbv zeta.
  assert (H : is_some (websocketRef (App.core Sample.fresh))
              || connectionAttemptRef (App.core Sample.fresh) = false)
    by reflexivity.
  split; [exact H |].
  destruct (context_envelope Sample.cl0 false " CV " EmptyString
              (App.core Sample.fresh)) as (E1 & _ & E3).
  split.
  - rewrite (E1 H). vm_compute. reflexivity.
  - apply E3; [vm_compute; reflexivity |].
    intros ws E. vm_compute in E. discriminate.
Defined.

End FormFacts.
(** ** The transcript of the current copy *)

Module TranscriptMore.
Import Json Core Machine Bookkeeping TranscriptFacts.
Local Open Scope string_scope.
Local Open Scope list_scope.
Local Open Scope Z_scope.

Lemma append_empty_r (s : string) : (s ++ EmptyString)%string = s.
Proof. induction s as [| c s IH]; [reflexivity |]. cbn. rewrite IH. reflexivity. Qed.

Lemma append_assoc (a b c : string) :
  ((a ++ b) ++ c)%string = (a ++ (b ++ c))%string.
Proof. induction a as [| x a IH]; [reflexivity |]. cbn. rewrite IH. reflexivity. Qed.

Lemma all_text_app l1 l2 :
  all_text (l1 ++ l2) = (all_text l1 ++ all_text l2)%string.
Proof.
  unfold all_text. induction l1 as [| x l1 IH]; [reflexivity |].
  cbn [app map fold_right]. rewrite IH, append_assoc. reflexivity.
Qed.

Lemma all_text_one x : all_text [x] = t_text x.
Proof. unfold all_text. cbn. apply append_empty_r. Qed.

Lemma alternating_snoc l x :
  alternating (l ++ [x]) =
  alternating l &&
  match App.lastOf l with
  | Some y => negb (Role_eqb (t_role y) (t_role x))
  | None => true
  end.
Proof.
  induction l as [| a l IH]; [reflexivity |].
  destruct l as [| b l].
  - cbn. rewrite andb_true_r. reflexivity.
  - change (alternating ((a :: b :: l) ++ [x]))
      with (negb (Role_eqb (t_role a) (t_role b)) && alternating ((b :: l) ++ [x])).
    rewrite IH.
    change (alternating (a :: b :: l))
      with (negb (Role_eqb (t_role a) (t_role b)) && alternating (b :: l)).
    assert (L : App.lastOf (a :: b :: l) = App.lastOf (b :: l)).
    { unfold App.lastOf. cbn [rev].
      destruct (rev l ++ [b]) eqn:E; [| reflexivity].
      destruct (rev l); discriminate. }
    rewrite L, andb_assoc. reflexivity.
Qed.

(** One step of the formatting loop keeps what has been established. *)
Lemma format_item_step formatted item :
  alternating formatted = true ->
  alternating (App.format_item formatted item) = true /\
  all_text (App.format_item formatted item) =
    (all_text formatted ++ t_text item)%string /\
  (List.length (App.format_item formatted item) <= S (List.length formatted))%nat.
Proof.
  intros Halt. unfold App.format_item.
  destruct (App.lastOf formatted) as [last |] eqn:E.
  - pose proof (lastOf_Some _ _ E) as Hsplit.
    destruct (Role_eqb (t_role last) (t_role item)) eqn:R.
    + split; [| split].
      * rewrite Hsplit, alternating_snoc in Halt.
        rewrite alternating_snoc. cbn [t_role]. exact Halt.
      * rewrite all_text_app, all_text_one. cbn [t_text].
        rewrite Hsplit at 2. rewrite all_text_app, all_text_one.
        rewrite append_assoc. reflexivity.
      * rewrite Hsplit at 2. rewrite !length_app. cbn. lia.
    + split; [| split].
      * rewrite alternating_snoc, Halt, E, R. reflexivity.
      * rewrite all_text_app, all_text_one. reflexivity.
      * rewrite length_app. cbn. lia.
  - split; [| split].
    + rewrite alternating_snoc, Halt, E. reflexivity.
    + rewrite all_text_app, all_text_one. reflexivity.
    + rewrite length_app. cbn. lia.
Qed.

Lemma format_item_distinct formatted item :
  match App.lastOf formatted with
  | Some y => Role_eqb (t_role y) (t_role item) = false
  | None => True
  end ->
  App.format_item formatted item = formatted ++ [item].
Proof.
  unfold App.format_item. destruct (App.lastOf formatted); [| reflexivity].
  intros ->. reflexivity.
Qed.

Lemma formatTranscripts_spec items :
  alternating (App.formatTranscripts items) = true /\
  all_text (App.formatTranscripts items) = all_text items /\
  (List.length (App.formatTranscripts items) <= List.length items)%nat /\
  (alternating items = true -> App.formatTranscripts items = items).
Proof.
  induction items as [| item items (I1 & I2 & I3 & I4)] using rev_ind.
  - repeat split; auto.
  - rewrite formatTranscripts_snoc.
    destruct (format_item_step (App.formatTranscripts items) item I1)
      as (S1 & S2 & S3).
    split; [exact S1 |]. split; [| split].
    + rewrite S2, I2, all_text_app, all_text_one. reflexivity.
    + rewrite length_app. cbn. lia.
    + intros Halt. rewrite alternating_snoc in Halt.
      apply andb_true_iff in Halt. destruct Halt as [A1 A2].
      rewrite (I4 A1). apply format_item_distinct.
      destruct (App.lastOf items); [| exact I].
      apply negb_true_iff, A2.
Qed.

(** X22.  The list the formatting effect shows merges each run of
    consecutive entries of one role into one entry: no two neighbours of
    the result have the same role, the texts in order are those of the
    transcript joined without separator, the result is no longer than the
    transcript, and a transcript whose roles already alternate, for
    instance a formatted one, is shown as it is. *)
Theorem formatting_merges_runs items :
  alternating (App.formatTranscripts items) = true /\
  all_text (App.formatTranscripts items) = all_text items /\
  (List.length (App.formatTranscripts items) <= List.length items)%nat /\
  (alternating items = true -> App.formatTranscripts items = items) /\
  App.formatTranscripts (App.formatTranscripts items) =
  App.formatTranscripts items.
Proof.
  destruct (formatTranscripts_spec items) as (H1 & H2 & H3 & H4).
  split; [exact H1 |]. split; [exact H2 |]. split; [exact H3 |].
  split; [exact H4 |].
  apply (formatTranscripts_spec (App.formatTranscripts items)), H1.
Qed.

(** *** Numbering *)

Lemma appendTranscript_numbered host role payload st :
  numbered_transcript (App.transcripts st) ->
  numbered_transcript (App.transcripts (App.appendTranscript host role payload st)).
Proof.
  intros H. unfold App.appendTranscript. cbv zeta.
  destruct (negb _ || _); [exact H |].
  cbn [App.transcripts App.set_transcripts].
  destruct (App.lastOf (App.transcripts st)) as [last |] eqn:E.
  - unfold numbered_transcript in *.
    rewrite map_app, length_app, H. cbn [map List.length t_id].
    rewrite Nat.add_1_r, ReachFacts.numbered_S. f_equal. f_equal.
    pose proof (lastOf_Some _ _ E) as Hsplit.
    assert (Hlast : App.lastOf (map t_id (App.transcripts st)) = Some (t_id last)).
    { rewrite Hsplit, map_app. apply lastOf_snoc. }
    rewrite H in Hlast.
    destruct (List.length (App.transcripts st)) as [| n] eqn:L.
    + discriminate.
    + rewrite ReachFacts.numbered_S, lastOf_snoc in Hlast.
      injection Hlast as <-. lia.
  - reflexivity.
Qed.

Lemma App_handleServerMessage_transcripts cl host parsed st :
  App.transcripts (App.handleServerMessage cl host parsed st) = App.transcripts st \/
  exists role payload,
    App.handleServerMessage cl host parsed st =
    App.appendTranscript host role payload st.
Proof.
  unfold App.handleServerMessage.
  destruct parsed as [data |]; [| left; reflexivity].
  destruct data; try (left; reflexivity).
  SessionFacts.dispatcher_cases; try (left; reflexivity).
  - unfold App.on_transcript. destruct (as_string _); [| left; reflexivity].
    right. eexists. eexists. reflexivity.
  - left. unfold App.on_session_resumption.
    destruct (as_string _); [| reflexivity].
    destruct (Str.truthy _); reflexivity.
Qed.

Lemma App_step_transcripts e st :
  numbered_transcript (App.transcripts st) ->
  numbered_transcript (App.transcripts (App_step e st)) /\
  App.transcriptsFormatted (App_step e st) =
  App.formatTranscripts (App.transcripts (App_step e st)).
Proof.
  intros H. split; [| reflexivity].
  unfold App_step, App.render.
  cbn [App.transcripts App.transcripts_effect App.set_transcriptsFormatted
       App.on_core App.set_core].
  destruct e; try exact H.
  destruct (App_handleServerMessage_transcripts cl host parsed st)
    as [-> | (role & payload & ->)]; [exact H |].
  apply appendTranscript_numbered, H.
Qed.

(** X23.  Along every run of the current copy the entries of the
    transcript are numbered 1, 2, 3, ... in the order they arrived, and
    the list shown is the formatting of the transcript: its roles
    alternate and its text is the text received. *)
Theorem transcript_numbered_and_shown url0 stored events st :
  App_run events (App.initial url0 stored) = Some st ->
  map t_id (App.transcripts st) = numbered (List.length (App.transcripts st)) /\
  App.transcriptsFormatted st = App.formatTranscripts (App.transcripts st) /\
  alternating (App.transcriptsFormatted st) = true /\
  all_text (App.transcriptsFormatted st) = all_text (App.transcripts st).
Proof.
  intros Hrun.
  assert (H : numbered_transcript (App.transcripts st) /\
              App.transcriptsFormatted st =
              App.formatTranscripts (App.transcripts st)).
  { revert st Hrun. induction events as [| e events IH] using rev_ind;
      intros st Hrun.
    - cbn in Hrun. injection Hrun as <-. split; reflexivity.
    - rewrite ReachFacts.App_run_app in Hrun.
      destruct (App_run events (App.initial url0 stored)) as [st1 |];
        [| discriminate].
      cbn [App_run] in Hrun.
      destruct (enabled e (App.core st1)); [| discriminate].
      injection Hrun as <-.
      apply App_step_transcripts, (IH st1 eq_refl). }
  destruct H as [H1 H2]. split; [exact H1 |]. split; [exact H2 |].
  rewrite H2. split; apply (formatTranscripts_spec (App.transcripts st)).
Qed.

Lemma transcript_numbered_and_shown_witness :
  exists st,
    App_run
      [Connect Sample.cl0; Open Sample.cl0 EmptyString EmptyString true true;
       Message Sample.cl0 Sample.host
         (Some (JObj [("type", JStr "transcript"); ("role", JStr "user");
                      ("payload", JStr "Hel")]));
       Message Sample.cl0 Sample.host
         (Some (JObj [("type", JStr "transcript"); ("role", JStr "user");
                      ("payload", JStr "lo")]));
       Message Sample.cl0 Sample.host
         (Some (JObj [("type", JStr "transcript"); ("role", JStr "assistant");
                      ("payload", JStr "Hi")]))]
      (App.initial Sample.url0 None) = Some st /\
    map t_id (App.transcripts st) = [1; 2; 3] /\
    map t_text (App.transcriptsFormatted st) = ["Hello"; "Hi"].
Proof.
  eexists. split; [vm_compute; reflexivity |].
  match goal with
  | |- map t_id (App.transcripts ?s) = _ /\ _ =>
      pose proof (transcript_numbered_and_shown Sample.url0 None
                    [Connect Sample.cl0;
                     Open Sample.cl0 EmptyString EmptyString true true;
                     Message Sample.cl0 Sample.host
                       (Some (JObj [("type", JStr "transcript");
                                    ("role", JStr "user");
                                    ("payload", JStr "Hel")]));
                     Message Sample.cl0 Sample.host
                       (Some (JObj [("type", JStr "transcript");
                                    ("role", JStr "user");
                                    ("payload", JStr "lo")]));
                     Message Sample.cl0 Sample.host
                       (Some (JObj [("type", JStr "transcript");
                                    ("role", JStr "assistant");
                                    ("payload", JStr "Hi")]))]
                    s ltac:(vm_compute; reflexivity)) as (H1 & H2 & _)
  end.
  split; [rewrite H1 | rewrite H2]; vm_compute; reflexivity.
Defined.

End TranscriptMore.
(** ** Playback over a whole session *)

Module PlaybackFacts.
Import Json Core Scenario Machine Bookkeeping.
Local Open Scope string_scope.
Local Open Scope list_scope.
Local Open Scope Z_scope.

Lemma Playback_frame c c' :
  Playback c ->
  audioContextRef c' = audioContextRef c ->
  playbackTimeRef c' = playbackTimeRef c ->
  Playback c'.
Proof.
  unfold Playback, started_sources. intros H Ha Hp. rewrite Ha, Hp. exact H.
Qed.

Lemma Playback_no_context c : audioContextRef c = None -> Playback c.
Proof.
  intros H. unfold Playback, started_sources. rewrite H.
  split; [exact I | constructor].
Qed.

Lemma Playback_appendMessage role text c :
  Playback c -> Playback (appendMessage role text c).
Proof.
  intros H.
  destruct (SessionFacts.appendMessage_frame role text c)
    as (_ & _ & _ & _ & _ & _ & _ & _ & _ & _ & _ & Fa & Fp & _).
  apply (Playback_frame c); assumption.
Qed.

Lemma Playback_helpers c :
  Playback c ->
  Playback (clearReconnectTimeout c) /\
  Playback (ensureAudioContext c) /\
  (forall args, Playback (close_socket args c)) /\
  (forall payload, Playback (baseSend payload c)) /\
  (forall id, Playback (clearTimeout id c)) /\
  (forall delay, Playback (snd (setTimeout delay c))).
Proof.
  intros H.
  assert (F : forall c', audioContextRef c' = audioContextRef c ->
                         playbackTimeRef c' = playbackTimeRef c -> Playback c')
    by (intros c'; apply Playback_frame, H).
  refine (conj _ (conj _ (conj _ (conj _ (conj _ _))))); intros.
  - unfold clearReconnectTimeout. destruct (reconnectTimeoutRef c); [| exact H].
    apply F; reflexivity.
  - unfold ensureAudioContext.
    destruct (audioContextRef c) eqn:E; [exact H |].
    unfold Playback, started_sources. cbn. split; [exact I | constructor].
  - unfold close_socket. destruct (websocketRef c); [| exact H].
    apply F; reflexivity.
  - unfold baseSend. destruct (websocketRef c) as [ws |]; [| exact H].
    destruct (is_open ws); [| exact H]. apply F; reflexivity.
  - apply F; reflexivity.
  - apply F; reflexivity.
Qed.

Lemma Playback_cleanupMedia c : Playback (cleanupMedia c).
Proof. apply Playback_no_context. reflexivity. Qed.

Ltac play_step :=
  repeat first
    [ assumption
    | apply Playback_appendMessage
    | apply Playback_cleanupMedia
    | match goal with
      | |- Playback (clearReconnectTimeout ?c) =>
          refine (proj1 (Playback_helpers c _))
      | |- Playback (ensureAudioContext ?c) =>
          refine (proj1 (proj2 (Playback_helpers c _)))
      | |- Playback (close_socket ?a ?c) =>
          refine (proj1 (proj2 (proj2 (Playback_helpers c _))) a)
      | |- Playback (baseSend ?a ?c) =>
          refine (proj1 (proj2 (proj2 (proj2 (Playback_helpers c _)))) a)
      | |- Playback (clearTimeout ?a ?c) =>
          refine (proj1 (proj2 (proj2 (proj2 (proj2 (Playback_helpers c _))))) a)
      | |- Playback (snd (setTimeout ?a ?c)) =>
          refine (proj2 (proj2 (proj2 (proj2 (proj2 (Playback_helpers c _))))) a)
      | |- Playback (let st := ?v in @?body st) =>
          match type of v with
          | State =>
              let H := fresh "Hst" in
              let s := fresh "st" in
              assert (H : Playback v);
              [| change (Playback (body v));
                 revert H; generalize v; intros s H; cbv beta]
          | _ =>
              change (Playback (body v)); cbv beta
          end
      | |- Playback (let (_, _) := setTimeout ?d ?c in _) =>
          let H := fresh "Hst" in
          assert (H : Playback (snd (setTimeout d c)));
          [| destruct (setTimeout d c); cbn [snd] in H]
      | |- Playback (if ?b then _ else _) => destruct b
      | |- Playback (match ?x with _ => _ end) => destruct x
      | |- Playback (?f ?X) =>
          apply (Playback_frame X); [| reflexivity | reflexivity]
      end ].

Lemma back_to_back_snoc l s :
  back_to_back l ->
  Forall (fun a => (src_startAt a + src_duration a <= src_startAt s)%Q) l ->
  back_to_back (l ++ [s]).
Proof.
  induction l as [| a l IH]; intros Hb Hf; [exact I |].
  destruct l as [| b l].
  - cbn. split; [| exact I]. inversion Hf; assumption.
  - change (back_to_back ((a :: b :: l) ++ [s]))
      with ((src_startAt a + src_duration a <= src_startAt b)%Q /\
            back_to_back ((b :: l) ++ [s])).
    destruct Hb as [H1 H2]. split; [exact H1 |].
    apply IH; [exact H2 | inversion Hf; assumption].
Qed.

Lemma Playback_playAssistantAudio cl host base64 rate c :
  (0 <= currentTime host)%Q ->
  Playback c -> Playback (playAssistantAudio cl host base64 rate c).
Proof.
  intros Hclock H.
  destruct (SessionFacts.playAssistantAudio_cases cl host base64 rate c)
    as [-> | (floats & r & Hne & Hr & ->)]; [play_step |].
  destruct H as [Hb Hf].
  pose proof (SessionFacts.startAt_cursor (currentTime host) (playbackTimeRef c)
                Hclock) as Hstart.
  pose proof (SessionFacts.duration_positive floats r Hne Hr) as Hdur.
  set (start := startAt (currentTime host) (playbackTimeRef c)) in *.
  unfold Playback.
  rewrite SessionFacts.started_sources_start.
  cbn [playbackTimeRef set_playbackTimeRef].
  split.
  - apply back_to_back_snoc; [exact Hb |].
    eapply Forall_impl; [| exact Hf]. cbv beta. intros a Ha.
    cbn [src_startAt]. lra.
  - apply Forall_app. split.
    + eapply Forall_impl; [| exact Hf]. cbv beta. intros a Ha. lra.
    + constructor; [| constructor].
      unfold src_duration. cbn [src_startAt src_samples src_sampleRate].
      apply Qle_refl.
Qed.

Lemma Playback_handle e payload c :
  Playback c -> Playback (handle e payload c).
Proof.
  intros H. destruct e; cbn [handle]; try assumption;
    try (unfold timer_fire; destruct (existsb _ _); [| assumption]);
    cbv beta delta [connect ws_onopen ws_onclose disconnect clearResumeHandle];
    play_step.
Qed.

Lemma Playback_dispatch cl host c :
  (0 <= currentTime host)%Q ->
  Playback c ->
  (forall parsed st, App.core st = c ->
     Playback (App.core (App.handleServerMessage cl host parsed st))) /\
  (forall parsed st, LegacyApp.core st = c ->
     Playback (LegacyApp.core (LegacyApp.handleServerMessage cl host parsed st))).
Proof.
  intros Hclock H.
  apply ReachFacts.dispatch_principle; try exact H; intros data.
  - cbv beta delta [on_status setResumeHandle]. play_step.
  - cbv beta delta [on_audio]. destruct (as_string _); [| assumption].
    apply Playback_playAssistantAudio; assumption.
  - cbv beta delta [on_text]. play_step.
  - cbv beta delta [on_monitor]. play_step.
  - cbv beta delta [on_recordings]. play_step.
  - cbv beta delta [on_session_complete setResumeHandle]. play_step.
  - cbv beta delta [LegacyApp.on_session_resumption setResumeHandle]. play_step.
  - cbv beta delta [App.on_context_ack]. play_step.
  - cbv beta delta [App.on_error]. play_step.
  - cbv beta delta [LegacyApp.on_error]. play_step.
  - cbv beta delta [App.on_session_expired setResumeHandle]. play_step.
Qed.

Lemma Playback_effect c : Playback c -> Playback (resumeHandle_effect c).
Proof. intros H. apply (Playback_frame c); [exact H | reflexivity..]. Qed.

Lemma Playback_App_run url0 stored events : forall st,
  App_run events (App.initial url0 stored) = Some st ->
  Forall clock_started events ->
  Playback (App.core st).
Proof.
  induction events as [| e events IH] using rev_ind; intros st Hrun Hclock.
  - cbn in Hrun. injection Hrun as <-. apply Playback_no_context. reflexivity.
  - rewrite ReachFacts.App_run_app in Hrun.
    destruct (App_run events (App.initial url0 stored)) as [st1 |];
      [| discriminate].
    cbn [App_run] in Hrun.
    destruct (enabled e (App.core st1)); [| discriminate].
    injection Hrun as <-.
    apply Forall_app in Hclock. destruct Hclock as [Hc1 Hc2].
    inversion Hc2 as [| ? ? He _]; subst.
    specialize (IH st1 eq_refl Hc1).
    rewrite ReachFacts.App_step_core. apply Playback_effect.
    destruct e; try (apply Playback_handle; assumption).
    apply (Playback_dispatch cl host (App.core st1) He IH). reflexivity.
Qed.

Lemma Playback_Legacy_run url0 stored events : forall st,
  Legacy_run events (LegacyApp.initial url0 stored) = Some st ->
  Forall clock_started events ->
  Playback (LegacyApp.core st).
Proof.
  induction events as [| e events IH] using rev_ind; intros st Hrun Hclock.
  - cbn in Hrun. injection Hrun as <-. apply Playback_no_context. reflexivity.
  - rewrite ReachFacts.Legacy_run_app in Hrun.
    destruct (Legacy_run events (LegacyApp.initial url0 stored)) as [st1 |];
      [| discriminate].
    cbn [Legacy_run] in Hrun.
    destruct (enabled e (LegacyApp.core st1)); [| discriminate].
    injection Hrun as <-.
    apply Forall_app in Hclock. destruct Hclock as [Hc1 Hc2].
    inversion Hc2 as [| ? ? He _]; subst.
    specialize (IH st1 eq_refl Hc1).
    rewrite ReachFacts.Legacy_step_core. apply Playback_effect.
    destruct e; try (apply Playback_handle; assumption).
    apply (Playback_dispatch cl host (LegacyApp.core st1) He IH). reflexivity.
Qed.

(** X24.  Over a whole session of either copy, whatever the events, as long
    as the clock of the audio context never reads below zero: the sources
    started on the current audio context play back to back, each starting
    no earlier than the one before it ends, and all of them end by the play
    cursor. *)
Theorem playback_never_overlaps url0 stored events c :
  Forall clock_started events ->
  (exists st, App_run events (App.initial url0 stored) = Some st /\
              App.core st = c) \/
  (exists st, Legacy_run events (LegacyApp.initial url0 stored) = Some st /\
              LegacyApp.core st = c) ->
  back_to_back (started_sources c) /\
  Forall (fun s => (src_startAt s + src_duration s <= playbackTimeRef c)%Q)
    (started_sources c).
Proof.
  intros Hclock [(st & Hrun & <-) | (st & Hrun & <-)].
  - exact (Playback_App_run url0 stored events st Hrun Hclock).
  - exact (Playback_Legacy_run url0 stored events st Hrun Hclock).
Qed.

Lemma playback_never_overlaps_witness :
  let events :=
    [Connect Sample.cl0; Open Sample.cl0 EmptyString EmptyString true true;
     Message Sample.cl0 Sample.host (Some Sample.audio_envelope);
     Message Sample.cl0 Sample.host (Some Sample.audio_envelope)] in
  Forall clock_started events /\
  exists st,
    App_run events (App.initial Sample.url0 None) = Some st /\
    map src_startAt (started_sources (App.core st)) =
      [1 # 20; 48040 # 960000]%Q /\
    back_to_back (started_sources (App.core st)).
Proof.
  cbv zeta.
  assert (Hc : Forall clock_started
                 [Connect Sample.cl0;
                  Open Sample.cl0 EmptyString EmptyString true true;
                  Message Sample.cl0 Sample.host (Some Sample.audio_envelope);
                  Message Sample.cl0 Sample.host (Some Sample.audio_envelope)]).
  { repeat constructor; cbn; discriminate. }
  split; [exact Hc |].
  eexists. split; [vm_compute; reflexivity |].
  split; [vm_compute; reflexivity |].
  refine (proj1 (playback_never_overlaps Sample.url0 None _ _ Hc
                   (or_introl (ex_intro _ _ (conj _ eq_refl))))).
  vm_compute. reflexivity.
Defined.



End PlaybackFacts.
